(** * Football_Odds_Breakdown: the strategy engine

    A shallow embedding of the batch backtester ([advanced_simulate.py]),
    the live runner ([simulate_live.py]), the filtering stage
    ([filter.py]) and the batching of the sweep
    ([super_checker_full.py]), followed by the properties of the
    specification that are stated about them and by further properties of
    the code.

    Numbers.  Python floats are modelled by rationals [Q]; the
    comparisons the code performs ([<], [<=], [max], [min], [int]) are the
    boolean functions of module [Py].  Sums, products and quotients of
    prices are exact, so what is stated about them is stated of the
    structure of the computation (which test fires, at which tick, on
    which price) and not of the last bit of a value.  Where a result
    depends on the rounding, it is written out: the index of the stagnation
    check is computed with [Py.round64], the rounding of binary64.  The
    smoothing update is in addition written over an arbitrary carrier
    (module [Ema]), so that what is proved about it holds for any
    arithmetic, binary64 included.

    Files.  A directory is the list that [os.listdir] returns, each name
    paired with the content of the file.  A JSON file either fails to parse
    or is an array of records with a [price_cents] field holding an integer
    or [null], which is what the collaborators of the engine write. *)

From Stdlib Require Import QArith Qround Qabs Qpower Lqa ZArith Lia Ascii
  String.
From Stdlib Require OrderedTypeEx.
From stdpp Require Import base list gmap strings sorting.

(** ** Python primitives *)

Module Py.

Local Open Scope Q_scope.

(** [x < y] and [x <= y] on floats. *)
Definition leb (x y : Q) : bool := Qle_bool x y.
Definition ltb (x y : Q) : bool := negb (Qle_bool y x).

(** [max(a, b)] keeps [a] unless [b > a]; [min(a, b)] keeps [a] unless
    [b < a]. *)
Definition max (a b : Q) : Q := if ltb a b then b else a.
Definition min (a b : Q) : Q := if ltb b a then b else a.

(** [int(x)] truncates toward zero. *)
Definition int (x : Q) : Z := Z.quot (Qnum x) (Zpos (Qden x)).

(** *** binary64

    Where a result of the code depends on how a float is rounded, the
    rounding is written out: [round64 x] is the double nearest to [x],
    the one with the even significand when [x] is halfway between two
    (round to nearest, ties to even), with a significand of 53 bits and
    the last bit at [2 ^ -1074] at least.  A double is at most
    [2 ^ 1024 - 2 ^ 971]; beyond, the source has [inf], and the model
    goes on with finite numbers. *)
Definition pow2 (e : Z) : Q := Qpower 2 e.

(** The integer nearest to [x], the even one when [x] is halfway. *)
Definition nearest_even (x : Q) : Z :=
  let f := Qfloor x in
  match Qcompare (x - inject_Z f) (1 # 2) with
  | Lt => f
  | Gt => (f + 1)%Z
  | Eq => if Z.even f then f else (f + 1)%Z
  end.

(** [floor(log2 |x|)], for [x] other than zero. *)
Definition ilog2 (x : Q) : Z :=
  let e := (Z.log2 (Z.abs (Qnum x)) - Z.log2 (Zpos (Qden x)))%Z in
  if Qle_bool (pow2 e) (Qabs x) then e else (e - 1)%Z.

Definition round64 (x : Q) : Q :=
  if Qeq_bool x 0 then 0
  else
    let e := Z.max (ilog2 x - 52) (-1074) in
    inject_Z (nearest_even (x / pow2 e)) * pow2 e.

(** [float(n)] of an [int], as [n / 100.0] takes it, raises
    [OverflowError] unless [n] rounds to a double: [float_fits n] says
    that it does. *)
Definition float_fits (n : Z) : bool :=
  (Z.abs n <? 2 ^ 1024 - 2 ^ 970)%Z.

(** A number as the code receives it (a literal, a keyword argument):
    the double nearest to it. *)
Definition float (x : Q) : Q := round64 x.

(** [n * y] for an [int] and a float: the [int] becomes a float, and the
    product is rounded. *)
Definition int_times_float (n : Z) (y : Q) : Q :=
  round64 (round64 (inject_Z n) * y).

(** Exceptions the modelled code can raise. *)
Inductive exn : Set :=
| JSONDecodeError
| UnicodeDecodeError
| ZeroDivisionError
| FileNotFoundError.

Inductive result (A : Type) : Type :=
| Ok (a : A)
| Raise (e : exn).
Global Arguments Ok {A} a.
Global Arguments Raise {A} e.

Definition bind {A B : Type} (f : A → result B) (m : result A) : result B :=
  match m with
  | Ok a => f a
  | Raise e => Raise e
  end.

(** A [for] loop whose body may raise: the first exception ends it. *)
Fixpoint for_each {A S : Type} (body : S → A → result S) (s : S) (l : list A)
  : result S :=
  match l with
  | [] => Ok s
  | a :: l' => bind (fun s' => for_each body s' l') (body s a)
  end.

(** [s.endswith(suffix)]. *)
Definition endswith (s suffix : string) : bool :=
  String.prefix (String.rev suffix) (String.rev s).

(** [s[:-n]]. *)
Definition drop_last (n : nat) (s : string) : string :=
  String.substring 0 (String.length s - n) s.

(** [s.rsplit("-", 1)[0]]: the text before the last ["-"], or all of [s]
    when it has none.  [before_last_dash] is [None] in the second case. *)
Fixpoint before_last_dash (s : string) : option string :=
  match s with
  | EmptyString => None
  | String c r =>
      match before_last_dash r with
      | Some p => Some (String c p)
      | None => if Ascii.eqb c "-"%char then Some EmptyString else None
      end
  end.

Definition rsplit_dash_head (s : string) : string :=
  default s (before_last_dash s).

(** [sorted(names)] on strings: insertion sort, stable. *)
Fixpoint insert_sorted {A : Type} (key : A → string) (x : A) (l : list A)
  : list A :=
  match l with
  | [] => [x]
  | y :: l' =>
      if String.ltb (key x) (key y) then x :: y :: l'
      else y :: insert_sorted key x l'
  end.

Definition sorted_by {A : Type} (key : A → string) (l : list A) : list A :=
  foldl (fun acc x => insert_sorted key x acc) [] l.

(** [next((p for p in l if p is not None), None)]. *)
Fixpoint first_defined {A : Type} (l : list (option A)) : option A :=
  match l with
  | [] => None
  | Some a :: _ => Some a
  | None :: l' => first_defined l'
  end.

End Py.

#[global] Instance result_bind : MBind Py.result := @Py.bind.

(** ** The smoothing update, over any arithmetic *)

Module Ema.
Section Generic.

Context {num : Type}.
Variables (mul add sub : num → num → num) (one : num).

(** [incremental_ema_smooth(alpha)] returns the closure [smooth_next],
    whose captured variable [last] is threaded here: the call takes the
    value of [last] and returns its new value with the result. *)
Definition smooth_next (alpha : num) (last : option num) (new_point : num)
  : option num * num :=
  match last with
  | None => (Some new_point, new_point)
  | Some l =>
      let v := add (mul alpha new_point) (mul (sub one alpha) l) in
      (Some v, v)
  end.

(** [ewma_update(prev, value, alpha)] of the live runner; [float(x)] is the
    identity on a float. *)
Definition ewma_update (prev : option num) (value alpha : num) : num :=
  match prev with
  | None => value
  | Some p => add (mul alpha value) (mul (sub one alpha) p)
  end.

(** The batch runner calls one closure on every defined price of a
    series, in order. *)
Fixpoint batch_sequence (alpha : num) (last : option num) (raw : list num)
  : list num :=
  match raw with
  | [] => []
  | x :: raw' =>
      let '(last', v) := smooth_next alpha last x in
      v :: batch_sequence alpha last' raw'
  end.

(** The live runner keeps [smoothed[ticker]]: absent before the first
    sample, then replaced by [ewma_update] of itself at every sample
    ([update_from_live_files]). *)
Definition live_store (alpha : num) (cur : option num) (last_price : num)
  : num :=
  match cur with
  | None => last_price
  | Some s => ewma_update (Some s) last_price alpha
  end.

Fixpoint live_sequence (alpha : num) (cur : option num) (raw : list num)
  : list num :=
  match raw with
  | [] => []
  | x :: raw' =>
      let s := live_store alpha cur x in
      s :: live_sequence alpha (Some s) raw'
  end.

End Generic.
End Ema.

(** ** The batch backtester ([advanced_simulate.py]) *)

Module Batch.

Local Open Scope Q_scope.

Definition START_BANKROLL : Q := 20.
Definition FLAT_BET_AMOUNT : Q := 2.

(** The keyword arguments of [run_simulation]. *)
Record params : Set := {
  min_start : Q;
  max_start : Q;
  gain_threshold : Q;
  halftime_fraction : Q;
  fall_fraction : Q;
  ema_alpha : Q
}.

Definition default_params : params := {|
  min_start := 0.14;
  max_start := 0.77;
  gain_threshold := 0.03;
  halftime_fraction := 1;
  fall_fraction := 0.81;
  ema_alpha := 0.25
|}.

(** One record of an archived series. *)
Record entry : Set := { time : string; price_cents : option Z }.

Inductive file_content : Set :=
| Unparseable
| Parsed (data : list entry).

(** The closure of [incremental_ema_smooth] on floats. *)
Definition smooth_next : Q → option Q → Q → option Q * Q :=
  Ema.smooth_next Qmult Qplus Qminus 1.

(** [prices]: cents scaled to the unit interval, [null] kept. *)
Definition prices_of (data : list entry) : list (option Q) :=
  map (fun e => (fun c => inject_Z c / 100) <$> price_cents e) data.

(** [valid_prices]. *)
Definition valid_prices (prices : list (option Q)) : list Q :=
  omap id prices.

(** [smoothed_full]: the smoother is called on the defined prices only. *)
Fixpoint smooth_series (alpha : Q) (last : option Q) (prices : list (option Q))
  : list (option Q) :=
  match prices with
  | [] => []
  | None :: ps => None :: smooth_series alpha last ps
  | Some p :: ps =>
      let '(last', v) := smooth_next alpha last p in
      Some v :: smooth_series alpha last' ps
  end.

Definition in_band (P : params) (start_price : Q) : bool :=
  Py.leb (min_start P) start_price && Py.leb start_price (max_start P).

(** The three [if ... break] tests of the loop, in source order. *)
Inductive trigger : Set := PeakDrop | Retracement | Stagnation.

Definition peak_drop (P : params) (max_gain gain : Q) : bool :=
  Py.leb (gain_threshold P) max_gain && Py.ltb gain (gain_threshold P).

Definition retracement (P : params) (max_gain gain : Q) : bool :=
  Py.ltb (gain_threshold P) max_gain
  && Py.leb gain (max_gain * fall_fraction P).

Definition stagnation (P : params) (start_price : Q) (halftime_index : Z)
    (idx : nat) (smooth_price : Q) : bool :=
  (Z.of_nat idx =? halftime_index)%Z
  && Py.ltb smooth_price (start_price + gain_threshold P).

(** What a [break] leaves behind: the test that held, and the loop
    variables [idx], [smooth_price], [gain], [max_gain] and [sell_price]
    as they are at that tick. *)
Record exit_event : Set := {
  exit_trigger : trigger;
  exit_idx : nat;
  exit_smooth : Q;
  exit_gain : Q;
  exit_max_gain : Q;
  exit_price : Q
}.

(** The [for idx, smooth_price in enumerate(smoothed_full)] loop.
    [smoothed_full] and [prices] have one element per record, so
    [prices[idx]] is the head of the second list when [smooth_price] is the
    head of the first. *)
Fixpoint exit_loop (P : params) (start_price : Q) (halftime_index : Z)
    (idx : nat) (max_gain : Q) (smoothed_full prices : list (option Q))
  : option exit_event :=
  match smoothed_full, prices with
  | sp :: smoothed', rp :: prices' =>
      match sp, rp with
      | Some smooth_price, Some real_price =>
          let gain := smooth_price - start_price in
          let max_gain := Py.max max_gain gain in
          let break_on t :=
            Some {| exit_trigger := t; exit_idx := idx;
                    exit_smooth := smooth_price; exit_gain := gain;
                    exit_max_gain := max_gain; exit_price := real_price |} in
          if peak_drop P max_gain gain then break_on PeakDrop
          else if retracement P max_gain gain then break_on Retracement
          else if stagnation P start_price halftime_index idx smooth_price
          then break_on Stagnation
          else
            exit_loop P start_price halftime_index (S idx) max_gain
              smoothed' prices'
      | _, _ =>
          exit_loop P start_price halftime_index (S idx) max_gain
            smoothed' prices'
      end
  | _, _ => None
  end.


(** That the test recorded in an exit held at that tick, and that those
    tried before it did not. *)
Definition fired (P : params) (start_price : Q) (halftime_index : Z)
    (e : exit_event) : bool :=
  let pd := peak_drop P (exit_max_gain e) (exit_gain e) in
  let re := retracement P (exit_max_gain e) (exit_gain e) in
  let sg :=
    stagnation P start_price halftime_index (exit_idx e) (exit_smooth e) in
  match exit_trigger e with
  | PeakDrop => pd
  | Retracement => negb pd && re
  | Stagnation => negb pd && negb re && sg
  end.

(** [halftime_index = int(len(smoothed_full) * halftime_fraction)], the
    product being the one of binary64: the length becomes a float, the
    fraction is the double of the number the caller writes, and their
    product is rounded.  (A product beyond the largest double would be
    [inf], which [int] refuses; no fraction of a series length is near
    that, and [round64] has no [inf].) *)
Definition halftime_index_of (P : params) (smoothed_full : list (option Q))
  : Z :=
  Py.int
    (Py.int_times_float (Z.of_nat (length smoothed_full))
       (Py.float (halftime_fraction P))).

(** How [simulate_position] leaves: by one of its two early [return 0.0],
    or with a position that was opened at [start_price] and closed at
    [sell_price], by a trigger ([Some]) or at the end of the series. *)
Inductive outcome : Set :=
| NoValidPrice
| NotEntered (start_price : option Q)
| Closed (start_price : Q) (by_trigger : option exit_event) (sell_price : Q).

Definition run_position (P : params) (data : list entry) : outcome :=
  let prices := prices_of data in
  match valid_prices prices with
  | [] => NoValidPrice
  | _ :: _ =>
      let smoothed_full := smooth_series (ema_alpha P) None prices in
      match Py.first_defined smoothed_full with
      | None => NotEntered None
      | Some start_price =>
          if negb (in_band P start_price) then NotEntered (Some start_price)
          else
            let halftime_index := halftime_index_of P smoothed_full in
            let ex :=
              exit_loop P start_price halftime_index 0 0 smoothed_full prices in
            let sell_price :=
              match ex with
              | Some e => exit_price e
              | None => default start_price (Py.first_defined (rev prices))
              end in
            Closed start_price ex sell_price
      end
  end.

(** The value returned; dividing by a zero [start_price] raises. *)
Definition profit_of (o : outcome) : Py.result Q :=
  match o with
  | NoValidPrice | NotEntered _ => Py.Ok 0
  | Closed start_price _ sell_price =>
      if Qeq_bool start_price 0 then Py.Raise Py.ZeroDivisionError
      else Py.Ok (FLAT_BET_AMOUNT * (sell_price / start_price - 1))
  end.

Definition simulate_position (P : params) (data : list entry) : Py.result Q :=
  profit_of (run_position P data).

(** A week directory, as listed, and the archive of week directories. *)
Definition directory : Set := list (string * file_content).

Inductive node : Set :=
| PlainFile
| Dir (d : directory).

(** [games.setdefault(game_key, []).append(f)] on a dict that keeps
    insertion order. *)
Fixpoint setdefault_append (game_key f : string)
    (games : list (string * list string)) : list (string * list string) :=
  match games with
  | [] => [(game_key, [f])]
  | (k, fs) :: games' =>
      if String.eqb k game_key then (k, fs ++ [f]) :: games'
      else (k, fs) :: setdefault_append game_key f games'
  end.

Definition group_games (files : list string) : list (string * list string) :=
  foldl (fun games f => setdefault_append (Py.rsplit_dash_head f) f games)
    [] files.

Definition get_game_pairs (folder : directory) : list (string * list string) :=
  let files := List.filter (fun f => Py.endswith f ".json") folder.*1 in
  List.filter (fun kv => Nat.eqb (length kv.2) 2) (group_games files).

(** The [.json] files of a folder whose key is [k], in the order of the
    listing, and the folder without the files of that key. *)
Definition has_key (k f : string) : bool :=
  String.eqb (Py.rsplit_dash_head f) k.

Definition files_of_key (k : string) (folder : directory) : list string :=
  List.filter (has_key k)
    (List.filter (fun f => Py.endswith f ".json") folder.*1).

Definition without_key (k : string) (folder : directory) : directory :=
  List.filter (fun f => negb (has_key k f.1)) folder.

(** What the dictionary [games] is after the files of a list have been
    met: no key twice, every entry the files of its key in order, and the
    key of every file present. *)
Definition grouped (files : list string) (games : list (string * list string))
  : Prop :=
  NoDup games.*1
  ∧ (∀ k fs, In (k, fs) games → fs = List.filter (has_key k) files)
  ∧ (∀ f, In f files → In (Py.rsplit_dash_head f) games.*1).

(** [json.load(open(file_path))]. *)
Definition json_load (folder : directory) (f : string)
  : Py.result (list entry) :=
  match (list_to_map folder : gmap string file_content) !! f with
  | None => Py.Raise Py.FileNotFoundError
  | Some Unparseable => Py.Raise Py.JSONDecodeError
  | Some (Parsed data) => Py.Ok data
  end.

(** The body of [for game_key, files in game_pairs.items()]. *)
Definition play_game (P : params) (folder : directory) (bankroll : Q)
    (game : string * list string) : Py.result Q :=
  game_profit ← Py.for_each
    (fun game_profit f =>
       data ← json_load folder f;
       profit ← simulate_position P data;
       Py.Ok (game_profit + profit))
    0 game.2;
  Py.Ok (bankroll + game_profit).

(** The body of [for week_name in sorted(os.listdir(FILTER_FOLDER))]. *)
Definition play_week (P : params) (bankroll : Q) (week : string * node)
  : Py.result Q :=
  match week.2 with
  | PlainFile => Py.Ok bankroll
  | Dir folder => Py.for_each (play_game P folder) bankroll (get_game_pairs folder)
  end.

Definition run_simulation (P : params) (filter_folder : list (string * node))
  : Py.result Q :=
  Py.for_each (play_week P) START_BANKROLL (Py.sorted_by fst filter_folder).

(** A week of the archive without the files of key [k], when these are not
    exactly two. *)
Definition drop_unpaired (k : string) (week : string * node) : string * node :=
  match week.2 with
  | PlainFile => week
  | Dir folder =>
      if Nat.eqb (length (files_of_key k folder)) 2 then week
      else (week.1, Dir (without_key k folder))
  end.

End Batch.

(** ** The live runner ([simulate_live.py]) *)

Module Live.

Local Open Scope Q_scope.

Definition BET_AMOUNT : Q := 10.
Definition MIN_START : Q := 0.14.
Definition MAX_START : Q := 0.77.
Definition GAIN_THRESHOLD : Q := 0.03.
Definition FALL_FRACTION : Q := 0.81.
Definition SIGMA_REF : Q := 3.32.
Definition SAMPLES_PER_MINUTE : Q := 60.
Definition HISTORY_LENGTH : nat := 300.

(** One line of a [ticker.jsonl] record: bytes that are not text, text
    that is not JSON, JSON that is not an object, an object whose [price]
    is there and neither [null] nor a number (a string, a list), or an
    object whose [price] is absent or [null] ([None]) or an integer number
    of cents. *)
Inductive jline : Set :=
| NotText
| BadJson
| NotAnObject
| BadPrice
| Obj (price : option Z).

(** The [for line in f] loop of [load_last_price_from_jsonl].  The inner
    [try] catches [JSONDecodeError] and goes on with the next line.  Any
    other exception reaches [except Exception: return None], for which the
    outer result is [None] here: [UnicodeDecodeError] from reading the
    line, [AttributeError] from [obj.get], and from [p / 100.0] a
    [TypeError] when [p] is not a number and an [OverflowError] when it is
    an integer too large for a float. *)
Fixpoint scan_lines (last_price : option Q) (lines : list jline)
  : option (option Q) :=
  match lines with
  | [] => Some last_price
  | NotText :: _ => None
  | BadJson :: lines' => scan_lines last_price lines'
  | NotAnObject :: _ => None
  | BadPrice :: _ => None
  | Obj None :: lines' => scan_lines last_price lines'
  | Obj (Some p) :: lines' =>
      if Py.float_fits p then scan_lines (Some (inject_Z p / 100)) lines'
      else None
  end.

Definition load_last_price_from_jsonl (file : list jline) : option Q :=
  match scan_lines None file with
  | Some last_price => last_price
  | None => None
  end.

Definition ewma_update : option Q → Q → Q → Q :=
  Ema.ewma_update Qmult Qplus Qminus 1.

Definition compute_alpha_from_sigma_minutes (sigma_minutes : Q) : Q :=
  let sigma_points := sigma_minutes * SAMPLES_PER_MINUTE in
  let alpha := 1 / Py.max 1 sigma_points in
  Py.max 0.001 (Py.min alpha 0.5).

Definition ALPHA : Q := compute_alpha_from_sigma_minutes SIGMA_REF.

(** A value of [active_bets]. *)
Record bet : Set := { stake : Q; start_price : Q; max_gain : Q }.

(** The two lines the runner prints about a position. *)
Inductive event : Set :=
| Placed (ticker : string) (amount s_price : Q)
| Sold (ticker : string) (current profit : Q).

(** The module-level dictionaries and [bankroll], with the console. *)
Record state : Type := {
  smoothed : gmap string Q;
  price_history : gmap string (list Q);
  active_bets : gmap string bet;
  sold_games : gmap string Q;
  bankroll : Q;
  console : list event
}.

Definition initial : state := {|
  smoothed := ∅;
  price_history := ∅;
  active_bets := ∅;
  sold_games := ∅;
  bankroll := 0;
  console := []
|}.

(** [deque(maxlen=n).append(x)]. *)
Definition deque_append (n : nat) (x : Q) (d : list Q) : list Q :=
  let d' := d ++ [x] in
  drop (length d' - n) d'.

Definition record_history (ticker : string) (last_price : Q)
    (h : gmap string (list Q)) : gmap string (list Q) :=
  <[ticker := deque_append HISTORY_LENGTH last_price (default [] (h !! ticker))]> h.

(** The folder [active_games] as listed at one moment. *)
Definition folder : Set := list (string * list jline).

(** First loop of [place_initial_bets]. *)
Definition init_ticker (st : state) (f : string * list jline) : state :=
  let '(fn, file) := f in
  if negb (Py.endswith fn ".jsonl") then st
  else
    let ticker := Py.drop_last 6 fn in
    match load_last_price_from_jsonl file with
    | None => st
    | Some last_price =>
        {| smoothed := <[ticker := last_price]> (smoothed st);
           price_history := record_history ticker last_price (price_history st);
           active_bets := active_bets st;
           sold_games := sold_games st;
           bankroll := bankroll st;
           console := console st |}
    end.

(** [MIN_START <= s_price <= MAX_START], and the bet placed then. *)
Definition in_band (s_price : Q) : bool :=
  Py.leb MIN_START s_price && Py.leb s_price MAX_START.

Definition new_bet (s_price : Q) : bet :=
  {| stake := BET_AMOUNT; start_price := s_price; max_gain := 0 |}.

(** Second loop of [place_initial_bets], over [list(smoothed.items())]. *)
Definition place_bet (st : state) (item : string * Q) : state :=
  let '(ticker, s_price) := item in
  if in_band s_price then
    {| smoothed := smoothed st;
       price_history := price_history st;
       active_bets := <[ticker := new_bet s_price]> (active_bets st);
       sold_games := sold_games st;
       bankroll := bankroll st;
       console := console st ++ [Placed ticker BET_AMOUNT s_price] |}
  else st.

(** The second loop runs over [smoothed.items()].  The dictionaries are
    finite maps here, met in the order of [map_to_list] and not in the
    order of insertion of a Python [dict]: every ticker is met once in
    either order, and the order only shows in the order of the lines on the
    console. *)
Definition place_initial_bets (fs : folder) (st : state) : state :=
  let st1 := foldl init_ticker st fs in
  foldl place_bet st1 (map_to_list (smoothed st1)).

(** The body of the loop of [update_from_live_files]; the list of updated
    tickers is threaded with the state. *)
Definition update_ticker (acc : state * list string) (f : string * list jline)
  : state * list string :=
  let '(st, updated_tickers) := acc in
  let '(fn, file) := f in
  if negb (Py.endswith fn ".jsonl") then acc
  else
    let ticker := Py.drop_last 6 fn in
    match load_last_price_from_jsonl file with
    | None => acc
    | Some last_price =>
        let s :=
          match smoothed st !! ticker with
          | None => last_price
          | Some cur => ewma_update (Some cur) last_price ALPHA
          end in
        ({| smoothed := <[ticker := s]> (smoothed st);
            price_history := record_history ticker last_price (price_history st);
            active_bets := active_bets st;
            sold_games := sold_games st;
            bankroll := bankroll st;
            console := console st |},
         updated_tickers ++ [ticker])
    end.

Definition update_from_live_files (fs : folder) (st : state)
  : state * list string :=
  foldl update_ticker (st, []) fs.

Definition evaluate_sells_for_ticker (ticker : string) (st : state)
  : state * bool :=
  match active_bets st !! ticker with
  | None => (st, false)
  | Some b =>
      match smoothed st !! ticker with
      | None => (st, false)
      | Some current =>
          let start := start_price b in
          let gain := current - start in
          let b :=
            if Py.ltb (max_gain b) gain
            then {| stake := stake b; start_price := start_price b;
                    max_gain := gain |}
            else b in
          let sell :=
            if Py.leb GAIN_THRESHOLD (max_gain b) && Py.ltb gain GAIN_THRESHOLD
            then true
            else if Py.ltb GAIN_THRESHOLD (max_gain b)
                    && Py.leb gain (max_gain b * FALL_FRACTION)
            then true
            else false in
          if sell then
            let profit := stake b * (current - start) in
            ({| smoothed := smoothed st;
                price_history := price_history st;
                active_bets := delete ticker (active_bets st);
                sold_games := <[ticker := profit]> (sold_games st);
                bankroll := bankroll st + profit;
                console := console st ++ [Sold ticker current profit] |},
             true)
          else
            ({| smoothed := smoothed st;
                price_history := price_history st;
                active_bets := <[ticker := b]> (active_bets st);
                sold_games := sold_games st;
                bankroll := bankroll st;
                console := console st |},
             false)
      end
  end.

(** One turn of the [while True] loop of [main_loop], on the folder as it
    is at that turn; the dashboard, which changes no state, is left out.
    The tickers of [active_bets] are met in the order of [map_to_list]
    (see [place_initial_bets]). *)
Definition tick (fs : folder) (st : state) : state * bool :=
  let st1 := (update_from_live_files fs st).1 in
  foldl
    (fun acc ticker =>
       let '(st', sell_happened) := acc in
       let '(st'', sold) := evaluate_sells_for_ticker ticker st' in
       (st'', if sold then true else sell_happened))
    (st1, false)
    (map_to_list (active_bets st1)).*1.

(** [main_loop] for as many turns as there are snapshots of the folder. *)
Definition main_loop (startup : folder) (turns : list folder) : state :=
  foldl (fun st fs => (tick fs st).1) (place_initial_bets startup initial) turns.

(** The raw price of a ticker at the current turn: the last one appended
    to its history. *)
Definition raw_price (ticker : string) (st : state) : option Q :=
  h ← price_history st !! ticker; last h.

End Live.

(** ** The JSON guard of the filtering stage ([filter.py]) *)

Module FilterStage.
Section MainLoop.

(** What [json.load(f)] does with a file of the games folder: it raises
    [UnicodeDecodeError] when the bytes of the file are not text in the
    encoding [open] reads with, it raises [json.JSONDecodeError] when the
    text is not JSON, or it returns the array of records.  Both
    exceptions are [ValueError]s and neither is a subclass of the other. *)
Inductive game_file : Set :=
| Undecodable
| InvalidJson
| Records (data : list Batch.entry).

(** What lines 111 to 142 do with a file that parsed: they give it up with
    a warning (no kickoff, nothing left, no week), or they write the
    filtered series under [filter/week<week_num>/<filename>]; they have no
    [try] of their own, so an exception raised there ends the stage.  The
    guard does not depend on which, so that part is a parameter of the
    loop. *)
Inductive verdict : Set :=
| GiveUp (warning : string)
| Keep (week_num : nat) (kickoff : string) (filtered : list Batch.entry).

Variable process : string → list Batch.entry → Py.result verdict.

Inductive message : Set :=
| SkippingInvalidJson (filename : string)
| Warning (text : string)
| Filtered (filename : string) (week_num entries_kept : nat).

(** The output folder, [summary_rows] and the console. *)
Record state : Type := {
  output : gmap (nat * string) (list Batch.entry);
  summary_rows : list (string * nat * string * nat);
  console : list message
}.

Definition say (m : message) (st : state) : state :=
  {| output := output st; summary_rows := summary_rows st;
     console := console st ++ [m] |}.

(** The body of [for filename in os.listdir(GAMES_FOLDER)]; the only
    [except] clause is [except json.JSONDecodeError]. *)
Definition step (st : state) (f : string * game_file) : Py.result state :=
  let '(filename, content) := f in
  if negb (Py.endswith filename ".json") then Py.Ok st
  else
    match content with
    | Undecodable => Py.Raise Py.UnicodeDecodeError
    | InvalidJson => Py.Ok (say (SkippingInvalidJson filename) st)
    | Records data =>
        match process filename data with
        | Py.Raise e => Py.Raise e
        | Py.Ok (GiveUp warning) => Py.Ok (say (Warning warning) st)
        | Py.Ok (Keep week_num kickoff filtered) =>
            Py.Ok
              {| output := <[(week_num, filename) := filtered]> (output st);
                 summary_rows :=
                   summary_rows st
                   ++ [(filename, week_num, kickoff, length filtered)];
                 console :=
                   console st
                   ++ [Filtered filename week_num (length filtered)] |}
        end
    end.

(** The loop: what has been written and printed when it stops, and the
    exception that stopped it, if one did. *)
Fixpoint main (games : list (string * game_file)) (st : state)
  : state * option Py.exn :=
  match games with
  | [] => (st, None)
  | f :: games' =>
      match step st f with
      | Py.Ok st' => main games' st'
      | Py.Raise e => (st, Some e)
      end
  end.

(** Two states of the stage that differ by one line [m] printed after the
    first [pre] lines. *)
Definition differ_by (pre : list message) (m : message) (a b : state) : Prop :=
  output b = output a
  ∧ summary_rows b = summary_rows a
  ∧ ∃ rest, console a = pre ++ rest ∧ console b = pre ++ m :: rest.

End MainLoop.
End FilterStage.

(** ** The sweep ([super_checker_full.py]) *)

Module Sweep.

Definition HALFTIME_FRACTION : Q := 1.

(** The arguments [run_batch] passes to [run_simulation] for one
    combination. *)
Definition trial (min_start max_start gain_th fall_frac alpha : Q)
  : Batch.params :=
  {| Batch.min_start := min_start;
     Batch.max_start := max_start;
     Batch.gain_threshold := gain_th;
     Batch.halftime_fraction := HALFTIME_FRACTION;
     Batch.fall_fraction := fall_frac;
     Batch.ema_alpha := alpha |}.

End Sweep.

(** ** Definitions that follow the words of the specification *)

Module Spec.

Local Open Scope Q_scope.

(** [clamp(x, lo, hi)]. *)
Definition clamp (x lo hi : Q) : Q :=
  if Py.ltb x lo then lo else if Py.ltb hi x then hi else x.

(** [alpha = clamp(1/(sigma_minutes * samples_per_minute), 0.001, 0.5)]. *)
Definition alpha_of_sigma_minutes (sigma_minutes samples_per_minute : Q) : Q :=
  clamp (1 / (sigma_minutes * samples_per_minute)) 0.001 0.5.

(** The ratio return and the linear payout. *)
Definition ratio_return (stake start_price sell_price : Q) : Q :=
  stake * (sell_price / start_price - 1).

Definition linear_payout (stake start_price sell_price : Q) : Q :=
  stake * (sell_price - start_price).

End Spec.

(** ** The exit tests tried in another order

    The loop of [simulate_position] with its three tests tried in the order
    of a list; the first that holds is the one that breaks. *)

Module Reordered.

Import Batch.
Local Open Scope Q_scope.

Definition holds (P : params) (start_price : Q) (halftime_index : Z)
    (idx : nat) (max_gain gain smooth_price : Q) (t : trigger) : bool :=
  match t with
  | PeakDrop => peak_drop P max_gain gain
  | Retracement => retracement P max_gain gain
  | Stagnation => stagnation P start_price halftime_index idx smooth_price
  end.

Fixpoint exit_loop (order : list trigger) (P : params) (start_price : Q)
    (halftime_index : Z) (idx : nat) (max_gain : Q)
    (smoothed_full prices : list (option Q)) : option exit_event :=
  match smoothed_full, prices with
  | sp :: smoothed', rp :: prices' =>
      match sp, rp with
      | Some smooth_price, Some real_price =>
          let gain := smooth_price - start_price in
          let max_gain := Py.max max_gain gain in
          match
            List.find
              (holds P start_price halftime_index idx max_gain gain smooth_price)
              order
          with
          | Some t =>
              Some {| exit_trigger := t; exit_idx := idx;
                      exit_smooth := smooth_price; exit_gain := gain;
                      exit_max_gain := max_gain; exit_price := real_price |}
          | None =>
              exit_loop order P start_price halftime_index (S idx) max_gain
                smoothed' prices'
          end
      | _, _ =>
          exit_loop order P start_price halftime_index (S idx) max_gain
            smoothed' prices'
      end
  | _, _ => None
  end.

Definition source_order : list trigger := [PeakDrop; Retracement; Stagnation].

(** The sell outcome of an exit: the tick and the price. *)
Definition sale (e : exit_event) : nat * Q := (exit_idx e, exit_price e).

End Reordered.

(** ** Concrete runs *)

Module Scenario.

Import Batch.
Local Open Scope Q_scope.

Definition quote (c : Z) : entry := {| time := "t"; price_cents := Some c |}.
Definition gap : entry := {| time := "t"; price_cents := None |}.

(** A market that opens at 30 cents, trades at 70 and then at 0. *)
Definition spike : list entry := [quote 30; quote 70; quote 0].

(** A flat market at 20 cents, and the default parameters with the
    stagnation check at half of the series. *)
Definition flat : list entry := [quote 20; quote 20; quote 20; quote 20].


(** The same parameters with the check at seven tenths of the series. *)
Definition late_check : params := {|
  min_start := 0.14; max_start := 0.77; gain_threshold := 0.03;
  halftime_fraction := 0.7; fall_fraction := 0.81; ema_alpha := 0.25
|}.

(** The exit of [spike] under the default parameters: at the third tick
    the smoothed price is back at the start price, the raw price is 0. *)
Definition spike_exit : exit_event := {|
  exit_trigger := PeakDrop;
  exit_idx := 2;
  exit_smooth := 0.30000000000000;
  exit_gain := 0.0000000000000000;
  exit_max_gain := 0.1000000000;
  exit_price := 0.00
|}.


(** The two-point series of the specification, at 20 cents, and the
    parameters of the script ([ema_alpha=0.3], the rest by default). *)
Definition two_points : list entry := [quote 20; quote 20].

Definition script_params : params := {|
  min_start := 0.14; max_start := 0.77; gain_threshold := 0.03;
  halftime_fraction := 1; fall_fraction := 0.81; ema_alpha := 0.3
|}.

(** A market that rises for good: 30, 40, 50 and 60 cents. *)
Definition rally : list entry := [quote 30; quote 40; quote 50; quote 60].

(** A week of the archive in which one side of a game does not parse. *)
Definition broken_week : directory :=
  [("KXGAME-25SEP07-DAL.json", Unparseable);
   ("KXGAME-25SEP07-PHI.json", Parsed flat)].

Definition broken_archive : list (string * node) :=
  [("week1", Dir broken_week)].

(** A week in which three files share one key, next to a proper pair. *)
Definition crowded_week : directory :=
  [("KXGAME-25SEP07-DAL.json", Parsed spike);
   ("KXGAME-25SEP07-PHI.json", Parsed flat);
   ("KXGAME-25SEP07-TIE.json", Unparseable);
   ("KXGAME-25SEP08-KC.json", Parsed flat);
   ("KXGAME-25SEP08-LAC.json", Parsed rally)].

(** The games folder of the filtering stage, with one file that is not
    JSON, and with one more that is not text. *)
Definition raw_games : list (string * FilterStage.game_file) :=
  [("KXGAME-25SEP07-DAL.json", FilterStage.InvalidJson);
   ("KXGAME-25SEP07-PHI.json", FilterStage.Records flat)].

Definition raw_games_with_binary : list (string * FilterStage.game_file) :=
  raw_games
  ++ [("KXGAME-25SEP08-KC.json", FilterStage.Undecodable);
      ("KXGAME-25SEP08-LAC.json", FilterStage.Records rally)].

(** Lines 111 to 142 when they keep every series as it is. *)
Definition keep_all (_ : string) (data : list entry)
  : Py.result FilterStage.verdict :=
  Py.Ok (FilterStage.Keep 1 "2025-09-07T13:00:00" data).

Definition empty_stage : FilterStage.state :=
  {| FilterStage.output := ∅; FilterStage.summary_rows := [];
     FilterStage.console := [] |}.

(** A live ticker whose record ends with the given price. *)
Definition live_at (c : Z) : Live.folder := [("KXGAME.jsonl", [Live.Obj (Some c)])].

(** Startup at 50 cents, thirteen turns at 100 cents, one turn at 10. *)
Definition live_run : Live.state :=
  Live.main_loop (live_at 50) (repeat (live_at 100) 13 ++ [live_at 10]).

(** The live runner holding one position, opened at 0.50 and once 0.04
    above it, when the smoothed price is 0.52 and the last raw price 0.40. *)
Definition holding : Live.state := {|
  Live.smoothed := {["KXGAME" := 0.52]};
  Live.price_history := {["KXGAME" := [0.50; 0.60; 0.40]]};
  Live.active_bets :=
    {["KXGAME" := {| Live.stake := 10; Live.start_price := 0.50;
                     Live.max_gain := 0.04 |}]};
  Live.sold_games := ∅;
  Live.bankroll := 0;
  Live.console := []
|}.

(** A live folder at startup with prices on and around the entry band. *)
Definition band_folder : Live.folder :=
  [("LOW.jsonl", [Live.Obj (Some 13%Z)]);
   ("MIN.jsonl", [Live.Obj (Some 14%Z)]);
   ("MAX.jsonl", [Live.Obj (Some 77%Z)]);
   ("HIGH.jsonl", [Live.Obj (Some 78%Z)])].




End Scenario.

(** ** Notions used to state further properties *)

Module Outcome.

(** A string without ["-"]. *)
Definition dash_free (s : string) : Prop :=
  "-"%char ∉ list_ascii_of_string s.

(** Before, and not after, by name: the orders of [sorted]. *)
Definition name_lt {A : Type} (name : A → string) (x y : A) : Prop :=
  String.ltb (name x) (name y) = true.

Definition name_le {A : Type} (name : A → string) (x y : A) : Prop :=
  String.ltb (name y) (name x) = false.

(** The archive reduced to what the backtester reads: the week directories
    and, in each, the files whose name ends in [.json]. *)
Definition is_dir (week : string * Batch.node) : bool :=
  match week.2 with
  | Batch.Dir _ => true
  | Batch.PlainFile => false
  end.

Definition json_only (week : string * Batch.node) : string * Batch.node :=
  match week.2 with
  | Batch.Dir folder =>
      (week.1,
       Batch.Dir (List.filter (fun f => Py.endswith f.1 ".json") folder))
  | Batch.PlainFile => week
  end.

Definition only_weeks (filter_folder : list (string * Batch.node))
  : list (string * Batch.node) :=
  map json_only (List.filter is_dir filter_folder).

End Outcome.

Module Scenario2.

Import Batch.

(** An archive as the filtering stage leaves it: two weeks and the summary
    file, listed in no particular order; in the first week a stray text
    file next to the game. *)
Definition week1 : directory :=
  [("KXGAME-25SEP07-DAL.json", Parsed Scenario.spike);
   ("notes.txt", Unparseable);
   ("KXGAME-25SEP07-PHI.json", Parsed Scenario.flat)].

Definition week2 : directory :=
  [("KXGAME-25SEP14-KC.json", Parsed Scenario.rally);
   ("KXGAME-25SEP14-LAC.json", Parsed Scenario.flat)].

Definition archive : list (string * node) :=
  [("week2", Dir week2); ("summary.csv", PlainFile); ("week1", Dir week1)].

Definition archive_listed_otherwise : list (string * node) :=
  [("summary.csv", PlainFile); ("week1", Dir week1); ("week2", Dir week2)].

(** The live runner holding one position opened at 0.50, with the
    smoothed price at 0.56, above the peak recorded so far. *)
Definition rising : Live.state := {|
  Live.smoothed := {["KXGAME" := 0.56%Q]};
  Live.price_history := {["KXGAME" := [0.50%Q; 0.80%Q]]};
  Live.active_bets :=
    {["KXGAME" := {| Live.stake := 10; Live.start_price := 0.50%Q;
                     Live.max_gain := 0.04%Q |}]};
  Live.sold_games := ∅;
  Live.bankroll := 0;
  Live.console := []
|}.

(** The profit booked by the sale of [Scenario.live_run]. *)
Definition live_run_profit : Q :=
  Eval vm_compute in
    default 0%Q (Live.sold_games Scenario.live_run !! "KXGAME").

End Scenario2.

Module LiveNotions.

Import Live.
Local Open Scope Q_scope.

(** The two sell conditions of [evaluate_sells_for_ticker] as one test. *)
Definition sell_test (max_gain gain : Q) : bool :=
  (Py.leb GAIN_THRESHOLD max_gain && Py.ltb gain GAIN_THRESHOLD)
  || (Py.ltb GAIN_THRESHOLD max_gain && Py.leb gain (max_gain * FALL_FRACTION)).

(** The profits of the sales printed on a console, added in order. *)
Definition realized (console : list event) : Q :=
  foldl (fun total ev =>
           match ev with
           | Sold _ _ profit => total + profit
           | Placed _ _ _ => total
           end) 0 console.

(** The prices, in cents, that the lines of a record carry. *)
Definition line_price (l : jline) : option Z :=
  match l with
  | Obj (Some p) => Some p
  | _ => None
  end.

(** The lines the loop gets past: those that do not parse, and the
    objects without a price or with one that [p / 100.0] can divide. *)
Definition passes (l : jline) : bool :=
  match l with
  | BadJson | Obj None => true
  | Obj (Some p) => Py.float_fits p
  | NotText | NotAnObject | BadPrice => false
  end.

(** A position of [st'] was already held in [st], with the same stake and
    start price and a [max_gain] that is not larger. *)
Definition held_before (st st' : state) : Prop :=
  ∀ ticker b',
    active_bets st' !! ticker = Some b' →
    ∃ b, active_bets st !! ticker = Some b
         ∧ stake b' = stake b
         ∧ start_price b' = start_price b
         ∧ max_gain b <= max_gain b'.

(** No ticker is both sold and held. *)
Definition sold_apart (st : state) : Prop :=
  ∀ ticker,
    is_Some (sold_games st !! ticker) → active_bets st !! ticker = None.

(** The evaluations of a turn, over a list of tickers: the [for] loop of
    [main_loop], as it is in [tick]. *)
Definition evaluate_all (tickers : list string) (acc : state * bool)
  : state * bool :=
  foldl
    (fun acc ticker =>
       let '(st', sell_happened) := acc in
       let '(st'', sold) := evaluate_sells_for_ticker ticker st' in
       (st'', if sold then true else sell_happened))
    acc tickers.

(** After an evaluation no held position of the ticker meets a sell
    condition, and its [max_gain] is not below its gain. *)
Definition settled (ticker : string) (st : state) : Prop :=
  ∀ b current,
    active_bets st !! ticker = Some b →
    smoothed st !! ticker = Some current →
    sell_test (max_gain b) (current - start_price b) = false
    ∧ current - start_price b <= max_gain b.

(** Every history kept has between one and [HISTORY_LENGTH] prices. *)
Definition histories_bounded (st : state) : Prop :=
  ∀ ticker h,
    price_history st !! ticker = Some h →
    (0 < length h ≤ HISTORY_LENGTH)%nat.

(** No record of the folder gives a price for the ticker. *)
Definition unreadable (ticker : string) (fs : folder) : Prop :=
  ∀ fn file,
    (fn, file) ∈ fs →
    Py.endswith fn ".jsonl" = true →
    Py.drop_last 6 fn = ticker →
    load_last_price_from_jsonl file = None.

End LiveNotions.

(** ** The filtering stage after its guard ([filter.py]) *)

Module FilterPy.

Import Batch.
Local Open Scope Z_scope.

(** A [datetime] without time zone, in microseconds since 1970-01-01
    00:00:00; a [timedelta] in microseconds. *)
Definition MINUTE_WINDOW : nat := 10.
Definition VARIABILITY_THRESHOLD : nat := 4.
Definition MIN_PRICE_MOVE : Z := 2.
Definition CONSECUTIVE_WINDOWS : nat := 4.
Definition PRE_GAME_BUFFER : Z := 600000000.
Definition FIRST_THURSDAY : Z := 1756944000000000.
Definition WEEK : Z := 604800000000.

(** [generate_weeks(num_weeks)]: triples [(week_num, start, end)]. *)
Definition generate_weeks (num_weeks : nat) : list (nat * Z * Z) :=
  map (fun i : nat =>
         let start := FIRST_THURSDAY + Z.of_nat i * WEEK in
         (S i, start, start + WEEK))
    (seq 0 num_weeks).

Definition weeks : list (nat * Z * Z) := generate_weeks 18.

(** The loop of [get_week_number] over a list of weeks. *)
Fixpoint week_of (weeks : list (nat * Z * Z)) (dt : Z) : option nat :=
  match weeks with
  | [] => None
  | (week_num, start, stop) :: weeks' =>
      if (start <=? dt) && (dt <? stop) then Some week_num
      else week_of weeks' dt
  end.

Definition get_week_number (dt : Z) : option nat := week_of weeks dt.

(** [l[i]]: a negative index counts from the end, an index outside the
    list raises. *)
Inductive found (A : Type) : Type :=
| Found (a : A)
| IndexError.
Arguments Found {A} a.
Arguments IndexError {A}.

Definition index {A : Type} (l : list A) (i : Z) : found A :=
  let j := if i <? 0 then Z.of_nat (length l) + i else i in
  if j <? 0 then IndexError
  else match l !! Z.to_nat j with
       | Some a => Found a
       | None => IndexError
       end.

(** The list [filled] of [detect_kickoff]: a null price takes the last
    valid price, the records before the first price are left out. *)
Fixpoint filled_from (last_valid : option Z) (entries : list entry)
  : list (string * Z) :=
  match entries with
  | [] => []
  | e :: entries' =>
      match price_cents e with
      | None =>
          match last_valid with
          | Some v => (time e, v) :: filled_from last_valid entries'
          | None => filled_from last_valid entries'
          end
      | Some price => (time e, price) :: filled_from (Some price) entries'
      end
  end.

(** [sum(abs(prices[j] - prices[j - 1]) >= min_price_move for j in
    range(1, len(prices)))]. *)
Fixpoint changes (min_price_move : Z) (prices : list Z) : nat :=
  match prices with
  | p0 :: (p1 :: _) as rest =>
      ((if (min_price_move <=? Z.abs (p1 - p0))%Z then 1 else 0)
       + changes min_price_move rest)%nat
  | _ => 0%nat
  end.

(** The loop [for i in range(len(filled) - minute_window)], from the
    indices left and the current [consecutive_count]; [None] when the loop
    ends without [return], otherwise the time returned or the error of the
    indexing. *)
Fixpoint windows_loop (filled : list (string * Z))
    (minute_window variability_threshold : nat) (min_price_move : Z)
    (consecutive_windows consecutive_count : nat) (indices : list nat)
  : option (found string) :=
  match indices with
  | [] => None
  | i :: indices' =>
      let window := take minute_window (drop i filled) in
      let prices := window.*2 in
      if (variability_threshold <=? changes min_price_move prices)%nat then
        let consecutive_count := S consecutive_count in
        if (consecutive_windows <=? consecutive_count)%nat then
          Some (match index filled
                        (Z.of_nat i - Z.of_nat consecutive_windows + 1) with
                | Found e => Found e.1
                | IndexError => IndexError
                end)
        else
          windows_loop filled minute_window variability_threshold
            min_price_move consecutive_windows consecutive_count indices'
      else
        windows_loop filled minute_window variability_threshold
          min_price_move consecutive_windows 0 indices'
  end.

(** [detect_kickoff] up to the call of [datetime.fromisoformat]: the
    [time] string of the record chosen. *)
Definition kickoff_time (entries : list entry)
    (minute_window variability_threshold : nat) (min_price_move : Z)
    (consecutive_windows : nat) : found (option string) :=
  if (length entries <? minute_window)%nat then Found None
  else
    let filled := filled_from None entries in
    match filled with
    | [] => Found None
    | first :: _ =>
        match
          windows_loop filled minute_window variability_threshold
            min_price_move consecutive_windows 0
            (seq 0 (length filled - minute_window))
        with
        | Some (Found t) => Found (Some t)
        | Some IndexError => IndexError
        | None => Found (Some first.1)
        end
    end.

(** [fill_null_prices].  The entries are changed in place; the list they
    come from is not used again by the caller. *)
Fixpoint fill_from (last_valid : option Z) (data : list entry) : list entry :=
  match data with
  | [] => []
  | e :: data' =>
      match price_cents e with
      | None =>
          match last_valid with
          | Some v =>
              {| time := time e; price_cents := Some v |}
              :: fill_from last_valid data'
          | None => fill_from last_valid data'
          end
      | Some price => e :: fill_from (Some price) data'
      end
  end.

Definition fill_null_prices (data : list entry) : list entry :=
  fill_from None data.

Section MainLoop.

(** [datetime.fromisoformat] on the [time] strings of the records, and
    [datetime.isoformat]: library code, parameters here.  The strings are
    the ones [get_all_data.py] writes with [isoformat] from a [datetime]
    without time zone, on which [fromisoformat] succeeds. *)
Variable fromisoformat : string → Z.
Variable isoformat : Z → string.

Definition detect_kickoff (entries : list entry) : found (option Z) :=
  match
    kickoff_time entries MINUTE_WINDOW VARIABILITY_THRESHOLD MIN_PRICE_MOVE
      CONSECUTIVE_WINDOWS
  with
  | Found t => Found (fromisoformat <$> t)
  | IndexError => IndexError
  end.

(** Why a file that parsed is not written, in the order of the three
    warnings. *)
Inductive skipped : Set := NoKickoffDetected | AllEntriesNull | NoWeek.

Inductive outcome : Set :=
| Skipped (why : skipped)
| Written (week_num : nat) (kickoff : string) (filtered : list entry).

(** Lines 111 to 142, for the data of one file. *)
Definition process (data : list entry) : found outcome :=
  let data := Py.sorted_by time data in
  match detect_kickoff data with
  | IndexError => IndexError
  | Found None => Found (Skipped NoKickoffDetected)
  | Found (Some kickoff) =>
      let start_time := kickoff - PRE_GAME_BUFFER in
      let filtered :=
        List.filter (fun e => start_time <=? fromisoformat (time e)) data in
      let filtered := fill_null_prices filtered in
      match filtered with
      | [] => Found (Skipped AllEntriesNull)
      | _ :: _ =>
          match get_week_number kickoff with
          | None | Some O => Found (Skipped NoWeek)
          | Some week_num =>
              Found (Written week_num (isoformat kickoff) filtered)
          end
      end
  end.

End MainLoop.

(** The records of a list from the first one with a price on. *)
Fixpoint from_first_price (data : list entry) : list entry :=
  match data with
  | [] => []
  | e :: data' =>
      match price_cents e with
      | None => from_first_price data'
      | Some _ => data
      end
  end.

(** A series in which no price differs from the one before it by
    [min_price_move] or more. *)
Fixpoint quiet (min_price_move : Z) (prices : list Z) : Prop :=
  match prices with
  | p0 :: (p1 :: _) as rest =>
      Z.abs (p1 - p0) < min_price_move ∧ quiet min_price_move rest
  | _ => True
  end.

End FilterPy.

(** ** The sweep: batches and the best row ([super_checker_full.py]) *)

Module SweepRun.

Local Open Scope Q_scope.

(** A row of [all_results]; [max] reads its last field. *)
Record row : Set := {
  row_min_start : Q;
  row_max_start : Q;
  row_gain_threshold : Q;
  row_fall_fraction : Q;
  row_alpha : Q;
  row_bankroll : Q
}.

(** [param_combos]: the product of the five ranges, the last varying
    fastest, without the combinations whose band is empty. *)
Definition param_combos (min_starts max_starts gain_thresholds
    fall_fractions alphas : list Q) : list (Q * Q * Q * Q * Q) :=
  min_start ← min_starts;
  max_start ← max_starts;
  gain_th ← gain_thresholds;
  fall_frac ← fall_fractions;
  alpha ← alphas;
  if Py.ltb min_start max_start
  then [(min_start, max_start, gain_th, fall_frac, alpha)]
  else [].

(** [max(1, cpu_count() - 1)]. *)
Definition num_cores (cpu_count : nat) : nat := Nat.max 1 (cpu_count - 1).

(** The quotient of two counts, rounded up. *)
Definition ceil_div (a b : nat) : nat := (a + b - 1) / b.

(** [int(np.ceil(total_combos / num_cores))].  The quotient is a float;
    its ceiling is the one of the exact quotient for counts below 2^52. *)
Definition chunk_size (total_combos num_cores : nat) : nat :=
  ceil_div total_combos num_cores.

(** [[param_combos[i:i + chunk_size] for i in range(0, total_combos,
    chunk_size)]]; [range] raises [ValueError] on a step of zero, which is
    [None] here. *)
Definition chunks {A : Type} (combos : list A) (chunk_size : nat)
  : option (list (list A)) :=
  match chunk_size with
  | O => None
  | S _ =>
      Some ((fun j => take chunk_size (drop (j * chunk_size) combos))
              <$> seq 0 (ceil_div (length combos) chunk_size))
  end.

(** [max(all_results, key=lambda r: r[-1])]: the first row with the largest
    key; [max] of an empty list raises [ValueError], which is [None]. *)
Definition max_by {A : Type} (key : A → Q) (l : list A) : option A :=
  match l with
  | [] => None
  | x :: rest =>
      Some (foldl (fun best y => if Py.ltb (key best) (key y) then y else best)
              x rest)
  end.

Definition best (all_results : list row) : option row :=
  max_by row_bankroll all_results.

(** [all_results] when the batches complete in a given order. *)
Definition collect (completed : list (list row)) : list row :=
  concat completed.

End SweepRun.

(** ** Sample inputs of the filtering stage and of the sweep *)

Module Samples.

Import Batch.

(** A file of thirteen records, the first without a price and the others
    at 20 cents, all stamped with one instant of the fourth week. *)
Definition quiet_file : list entry :=
  Scenario.gap :: repeat (Scenario.quote 20) 12.

Definition in_week_four (_ : string) : Z :=
  (FilterPy.FIRST_THURSDAY + 3 * FilterPy.WEEK)%Z.

Definition stamp (_ : Z) : string := "t".

(** Two batches of results whose best rows tie at 1010. *)
Definition sample_row (alpha bankroll : Q) : SweepRun.row := {|
  SweepRun.row_min_start := 0.14;
  SweepRun.row_max_start := 0.71;
  SweepRun.row_gain_threshold := 0.02;
  SweepRun.row_fall_fraction := 0.79;
  SweepRun.row_alpha := alpha;
  SweepRun.row_bankroll := bankroll
|}.

Definition first_batch : list SweepRun.row :=
  [sample_row 0.20 1004.5; sample_row 0.21 1010].

Definition second_batch : list SweepRun.row :=
  [sample_row 0.22 1010; sample_row 0.23 998.25].

End Samples.

(** * Properties *)

(** ** Comparisons *)

Section Comparisons.

Local Open Scope Q_scope.

Lemma leb_le (x y : Q) : Py.leb x y = true ↔ x <= y.
Proof. apply Qle_bool_iff. Qed.

Lemma ltb_lt (x y : Q) : Py.ltb x y = true ↔ x < y.
Proof.
  unfold Py.ltb. rewrite negb_true_iff, <- not_true_iff_false, Qle_bool_iff.
  split; [apply Qnot_le_lt | apply Qlt_not_le].
Qed.

Lemma ltb_ge (x y : Q) : Py.ltb x y = false ↔ y <= x.
Proof.
  unfold Py.ltb. rewrite negb_false_iff. apply Qle_bool_iff.
Qed.

Lemma leb_gt (x y : Q) : Py.leb x y = false ↔ y < x.
Proof.
  rewrite <- not_true_iff_false, leb_le.
  split; [apply Qnot_le_lt | apply Qlt_not_le].
Qed.

(** [int] is the floor on what is not negative. *)
Lemma int_floor (x : Q) : 0 <= x → Py.int x = Qfloor x.
Proof.
  destruct x as [n d]. unfold Qle, Py.int, Qfloor. simpl. intros Hn.
  apply Z.quot_div_nonneg; lia.
Qed.

End Comparisons.

(** ** Rounding to binary64 *)

Section Binary64.

Local Open Scope Q_scope.

Lemma pow2_pos (e : Z) : 0 < Py.pow2 e.
Proof. apply Qpower_0_lt. reflexivity. Qed.

Lemma pow2_of_Z (n : Z) : (0 <= n)%Z → Py.pow2 n == inject_Z (2 ^ n).
Proof.
  intros Hn. unfold Py.pow2. rewrite Zpower_Qpower by exact Hn. reflexivity.
Qed.

Lemma pow2_opp (n : Z) : Py.pow2 (- n) == / Py.pow2 n.
Proof. apply Qpower_opp. Qed.

Lemma nearest_even_floor (y : Q) :
  (Qfloor y <= Py.nearest_even y <= Qfloor y + 1)%Z.
Proof.
  unfold Py.nearest_even. destruct (_ ?= _); [destruct (Z.even _)| |]; lia.
Qed.

Lemma nearest_even_ge (y : Q) (k : Z) :
  inject_Z k <= y → (k <= Py.nearest_even y)%Z.
Proof.
  intros Hk. apply Qfloor_resp_le in Hk. rewrite Qfloor_Z in Hk.
  pose proof (nearest_even_floor y). lia.
Qed.

Lemma nearest_even_le (y : Q) (k : Z) :
  y <= inject_Z k → (Py.nearest_even y <= k)%Z.
Proof.
  intros Hk. pose proof (Qfloor_resp_le _ _ Hk) as Hf. rewrite Qfloor_Z in Hf.
  assert (1 # 2 <= y - inject_Z (Qfloor y) → (Qfloor y + 1 <= k)%Z) as Hup.
  { intros Hhalf.
    assert (inject_Z (Qfloor y) < inject_Z k) as Hlt by lra.
    rewrite <- Zlt_Qlt in Hlt. lia. }
  unfold Py.nearest_even.
  destruct (_ ?= _) eqn:Hc.
  - apply Qeq_alt in Hc. destruct (Z.even _); [exact Hf|].
    apply Hup. rewrite Hc. apply Qle_refl.
  - exact Hf.
  - apply Qgt_alt in Hc. apply Hup. apply Qlt_le_weak, Hc.
Qed.

Lemma ilog2_le (x : Q) : ¬ x == 0 → Py.pow2 (Py.ilog2 x) <= Qabs x.
Proof.
  intros Hx. unfold Py.ilog2.
  set (a := Z.log2 (Z.abs (Qnum x))). set (b := Z.log2 (Zpos (Qden x))).
  destruct (Qle_bool _ _) eqn:Hle; [apply Qle_bool_iff, Hle|].
  clear Hle.
  assert (0 < Z.abs (Qnum x))%Z as Hn.
  { destruct x as [n d]. unfold Qeq in Hx. simpl in *. lia. }
  destruct (Z.log2_spec _ Hn) as [Ha _]. fold a in Ha.
  destruct (Z.log2_spec (Zpos (Qden x)) eq_refl) as [_ Hb]. fold b in Hb.
  assert (0 <= a)%Z as Ha0 by apply Z.log2_nonneg.
  assert (0 <= b)%Z as Hb0 by apply Z.log2_nonneg.
  replace (a - b - 1)%Z with (a + - (Z.succ b))%Z by lia.
  unfold Py.pow2. rewrite Qpower_plus by discriminate.
  rewrite Qpower_opp.
  fold (Py.pow2 a). fold (Py.pow2 (Z.succ b)).
  rewrite !pow2_of_Z by lia.
  assert (0 < 2 ^ Z.succ b)%Z as Hpos by (apply Z.pow_pos_nonneg; lia).
  destruct x as [n d]. simpl in *. unfold Qabs.
  apply Qle_shift_div_r; [rewrite Zlt_Qlt in Hpos; exact Hpos|].
  unfold Qle, Qmult, inject_Z. simpl. nia.
Qed.

Lemma ulp_exponent (x : Q) :
  0 < x → x < inject_Z (2 ^ 53) → (Z.max (Py.ilog2 x - 52) (-1074) <= 0)%Z.
Proof.
  intros Hpos Hlt.
  assert (Py.pow2 (Py.ilog2 x) < Py.pow2 53) as Hpow.
  { rewrite (pow2_of_Z 53) by lia.
    eapply Qle_lt_trans; [apply ilog2_le; lra|].
    rewrite Qabs_pos by lra. exact Hlt. }
  apply Qpower_lt_compat_l_inv in Hpow; [lia | reflexivity].
Qed.

Lemma scaled (e k : Z) :
  (e <= 0)%Z → inject_Z (k * 2 ^ (- e)) * Py.pow2 e == inject_Z k.
Proof.
  intros He. rewrite inject_Z_mult, <- pow2_of_Z by lia.
  rewrite pow2_opp. pose proof (pow2_pos e). field. lra.
Qed.

(** Rounding does not cross an integer: below [2 ^ 53] every integer is
    a double. *)
Lemma round64_between (x : Q) :
  0 <= x → x < inject_Z (2 ^ 53) →
  inject_Z (Qfloor x) <= Py.round64 x ∧ Py.round64 x <= inject_Z (Qceiling x).
Proof.
  intros Hpos Hlt. unfold Py.round64.
  destruct (Qeq_bool x 0) eqn:Hz.
  { apply Qeq_bool_iff in Hz.
    rewrite (Qfloor_comp _ _ Hz), (Qceiling_comp _ _ Hz). split; discriminate. }
  apply Qeq_bool_neq in Hz.
  assert (0 < x) as Hx.
  { apply Qle_lteq in Hpos as [H|H]; [exact H|].
    symmetry in H. contradiction. }
  cbv zeta. set (e := Z.max _ _).
  assert (e <= 0)%Z as He by (apply ulp_exponent; assumption).
  pose proof (pow2_pos e) as Hp. pose proof (pow2_pos (- e)) as Hq.
  assert (x / Py.pow2 e == x * inject_Z (2 ^ (- e))) as Hdiv.
  { rewrite <- pow2_of_Z by lia. rewrite pow2_opp. field. lra. }
  split.
  - rewrite <- (scaled e (Qfloor x) He).
    apply Qmult_le_compat_r; [|lra]. rewrite <- Zle_Qle.
    apply nearest_even_ge. rewrite Hdiv, inject_Z_mult.
    apply Qmult_le_compat_r; [apply Qfloor_le|].
    rewrite <- pow2_of_Z by lia. lra.
  - rewrite <- (scaled e (Qceiling x) He).
    apply Qmult_le_compat_r; [|lra]. rewrite <- Zle_Qle.
    apply nearest_even_le. rewrite Hdiv, inject_Z_mult.
    apply Qmult_le_compat_r; [apply Qle_ceiling|].
    rewrite <- pow2_of_Z by lia. lra.
Qed.

Lemma round64_nonneg (x : Q) : 0 <= x → 0 <= Py.round64 x.
Proof.
  intros Hx. unfold Py.round64. destruct (Qeq_bool x 0); [discriminate|].
  cbv zeta. set (e := Z.max _ _). pose proof (pow2_pos e) as Hp.
  apply Qmult_le_0_compat; [|lra].
  change 0 with (inject_Z 0). rewrite <- Zle_Qle. apply nearest_even_ge.
  apply Qle_shift_div_l; [exact Hp|].
  change (inject_Z 0) with 0. rewrite Qmult_0_l. exact Hx.
Qed.

Lemma round64_integer (x : Q) (n : Z) :
  x == inject_Z n → (0 <= n < 2 ^ 53)%Z → Py.round64 x == inject_Z n.
Proof.
  intros Hx Hn.
  destruct (round64_between x) as [Hlo Hhi].
  - rewrite Hx. change 0 with (inject_Z 0). rewrite <- Zle_Qle. lia.
  - rewrite Hx. rewrite <- Zlt_Qlt. lia.
  - rewrite (Qfloor_comp _ _ Hx), Qfloor_Z in Hlo.
    rewrite (Qceiling_comp _ _ Hx), Qceiling_Z in Hhi.
    apply Qle_antisym; assumption.
Qed.

(** [int] of a rounded product is the floor of the exact product, or the
    next integer when the product is rounded up to it. *)
Lemma int_round64 (x : Q) :
  0 <= x → x < inject_Z (2 ^ 53) →
  (Qfloor x <= Py.int (Py.round64 x) <= Qceiling x)%Z.
Proof.
  intros Hpos Hlt. destruct (round64_between x Hpos Hlt) as [Hlo Hhi].
  rewrite int_floor by (apply round64_nonneg, Hpos).
  split.
  - apply Qfloor_resp_le in Hlo. rewrite Qfloor_Z in Hlo. exact Hlo.
  - apply Qfloor_resp_le in Hhi. rewrite Qfloor_Z in Hhi. exact Hhi.
Qed.

End Binary64.

(** ** The smoothing update *)

Section Smoothing.

Context {num : Type}.
Variables (mul add sub : num → num → num) (one : num).

Abbreviation smooth_next := (Ema.smooth_next mul add sub one).
Abbreviation ewma_update := (Ema.ewma_update mul add sub one).
Abbreviation batch_sequence := (Ema.batch_sequence mul add sub one).
Abbreviation live_sequence := (Ema.live_sequence mul add sub one).

(** The closure returns what it stores in [last]. *)
Lemma smooth_next_stores (alpha : num) (last : option num) (x : num) :
  (smooth_next alpha last x).1 = Some (smooth_next alpha last x).2.
Proof. destruct last; reflexivity. Qed.

Lemma smooth_next_ewma (alpha : num) (last : option num) (x : num) :
  (smooth_next alpha last x).2 = ewma_update last x alpha.
Proof. destruct last; reflexivity. Qed.

Lemma sequences_agree (alpha : num) (raw : list num) :
  ∀ st : option num, batch_sequence alpha st raw = live_sequence alpha st raw.
Proof.
  induction raw as [|x raw IH]; intros st; [reflexivity|].
  cbn [Ema.batch_sequence Ema.live_sequence].
  pose proof (smooth_next_stores alpha st x) as Hst.
  pose proof (smooth_next_ewma alpha st x) as Hv.
  destruct (smooth_next alpha st x) as [last' v]. simpl in Hst, Hv. subst last'.
  assert (Ema.live_store mul add sub one alpha st x = v) as ->.
  { rewrite Hv. destruct st; reflexivity. }
  f_equal. apply IH.
Qed.

(** C8.  Whatever the arithmetic, the update of the batch backtester and
    the update of the live runner are one function: the raw price when
    there is no previous value, [alpha * raw + (1 - alpha) * last]
    otherwise; and fed the same prices in the same order with the same
    [alpha], the two runners compute the same smoothed sequence. *)
Theorem smoothing_update_shared (alpha : num) :
  (∀ last x, (smooth_next alpha last x).2 = ewma_update last x alpha)
  ∧ (∀ x, (smooth_next alpha None x).2 = x ∧ ewma_update None x alpha = x)
  ∧ (∀ l x,
       (smooth_next alpha (Some l) x).2
         = add (mul alpha x) (mul (sub one alpha) l)
       ∧ ewma_update (Some l) x alpha
         = add (mul alpha x) (mul (sub one alpha) l))
  ∧ (∀ raw, batch_sequence alpha None raw = live_sequence alpha None raw).
Proof.
  split; [apply smooth_next_ewma|].
  split; [intros x; split; reflexivity|].
  split; [intros l x; split; reflexivity|].
  intros raw. apply sequences_agree.
Qed.

End Smoothing.

Section SmoothingInTheRunners.

Local Open Scope Q_scope.

(** The defined part of [smoothed_full] is the closure run over
    [valid_prices]. *)
Lemma smooth_series_valid (alpha : Q) (prices : list (option Q)) :
  ∀ last,
    omap id (Batch.smooth_series alpha last prices)
    = Ema.batch_sequence Qmult Qplus Qminus 1 alpha last
        (Batch.valid_prices prices).
Proof.
  unfold Batch.valid_prices.
  induction prices as [|[p|] prices IH]; intros last; [reflexivity| |].
  - cbn [Batch.smooth_series omap list_omap id Ema.batch_sequence].
    unfold Batch.smooth_next.
    destruct (Ema.smooth_next Qmult Qplus Qminus 1 alpha last p) as [last' v].
    cbn [omap list_omap id]. f_equal. apply IH.
  - cbn [Batch.smooth_series omap list_omap id]. apply IH.
Qed.

(** What [update_from_live_files] stores for a ticker with a new price. *)
Lemma update_ticker_stores (st : Live.state) (updated : list string)
    (fn : string) (file : list Live.jline) (last_price : Q) :
  Py.endswith fn ".jsonl" = true →
  Live.load_last_price_from_jsonl file = Some last_price →
  Live.smoothed (Live.update_ticker (st, updated) (fn, file)).1
    !! Py.drop_last 6 fn
  = Some (Ema.live_store Qmult Qplus Qminus 1 Live.ALPHA
            (Live.smoothed st !! Py.drop_last 6 fn) last_price).
Proof.
  intros Hfn Hload. unfold Live.update_ticker. rewrite Hfn, Hload. simpl.
  rewrite lookup_insert_eq.
  destruct (Live.smoothed st !! Py.drop_last 6 fn); reflexivity.
Qed.

End SmoothingInTheRunners.

(** ** The alpha of the live runner *)

Section Alpha.

Local Open Scope Q_scope.

Lemma reciprocal_small (x : Q) : 0 < x → x <= 1 → 1 <= 1 / x.
Proof. intros H0 H1. apply Qle_shift_div_l; lra. Qed.

(** C10.  For every positive [sigma_minutes], the alpha that the live
    runner computes is [1 / (sigma_minutes * samples_per_minute)] clamped
    to [0.001, 0.5]. *)
Theorem alpha_is_clamped_reciprocal (sigma_minutes : Q) :
  0 < sigma_minutes →
  Live.compute_alpha_from_sigma_minutes sigma_minutes
  == Spec.alpha_of_sigma_minutes sigma_minutes Live.SAMPLES_PER_MINUTE.
Proof.
  intros Hpos.
  unfold Live.compute_alpha_from_sigma_minutes, Spec.alpha_of_sigma_minutes,
    Spec.clamp.
  set (sp := sigma_minutes * Live.SAMPLES_PER_MINUTE).
  assert (0 < sp) as Hsp by (unfold sp, Live.SAMPLES_PER_MINUTE; lra).
  unfold Py.max at 2. destruct (Py.ltb 1 sp) eqn:Hbig.
  - (* the reciprocal is taken of the same number *)
    set (x := 1 / sp). unfold Py.min, Py.max.
    destruct (Py.ltb 0.5 x) eqn:E1; destruct (Py.ltb x 0.001) eqn:E2;
      repeat match goal with
        | |- context [Py.ltb ?a ?b] => destruct (Py.ltb a b) eqn:?
        | H : Py.ltb _ _ = true |- _ => apply ltb_lt in H
        | H : Py.ltb _ _ = false |- _ => apply ltb_ge in H
        end; lra.
  - apply ltb_ge in Hbig.
    pose proof (reciprocal_small sp Hsp Hbig) as Hx.
    set (x := 1 / sp) in *.
    assert (1 / 1 == 1) as Hone by reflexivity.
    set (y := 1 / 1) in *. unfold Py.min, Py.max.
    destruct (Py.ltb 0.5 y) eqn:E1;
    repeat match goal with
      | |- context [Py.ltb ?a ?b] => destruct (Py.ltb a b) eqn:?
      | H : Py.ltb _ _ = true |- _ => apply ltb_lt in H
      | H : Py.ltb _ _ = false |- _ => apply ltb_ge in H
      end; lra.
Qed.

Lemma alpha_is_clamped_reciprocal_witness :
  0 < Live.SIGMA_REF
  ∧ Live.ALPHA
    == Spec.alpha_of_sigma_minutes Live.SIGMA_REF Live.SAMPLES_PER_MINUTE.
Proof.
  split; [reflexivity|].
  apply (alpha_is_clamped_reciprocal Live.SIGMA_REF). reflexivity.
Defined.

End Alpha.

(** ** The runs of the specification *)

Section SpecExamples.

Local Open Scope Q_scope.

(** Two points at 0.20 with [alpha = 0.3]: smoothed values 0.20 and 0.20,
    entry at 0.20, forced close at the raw price 0.20, profit 0. *)
Example two_point_series :
  omap id (Batch.smooth_series 0.3 None (Batch.prices_of Scenario.two_points))
    = [0.20; 0.200000]
  ∧ Batch.run_position Scenario.script_params Scenario.two_points
    = Batch.Closed 0.20 None 0.20
  ∧ ∃ profit,
      Batch.simulate_position Scenario.script_params Scenario.two_points
        = Py.Ok profit
      ∧ profit == 0.
Proof.
  split; [vm_compute; reflexivity|]. split; [vm_compute; reflexivity|].
  eexists. split; [vm_compute; reflexivity | reflexivity].
Qed.

(** A constant price is a fixed point of the update, whatever [alpha]. *)
Lemma smoothing_constant (alpha p : Q) :
  (Batch.smooth_next alpha None p).2 = p
  ∧ (Batch.smooth_next alpha (Some p) p).2 == p.
Proof. split; [reflexivity|]. simpl. ring. Qed.

End SpecExamples.

(** ** The exit loop of the batch backtester *)

Section ExitLoop.

Import Batch.
Local Open Scope Q_scope.

Variable P : params.
Variables (start_price : Q) (halftime_index : Z).

Abbreviation fired := (Batch.fired P start_price halftime_index).

(** An exit happens at a tick of the series, [k] ticks after the one the
    loop was entered at, where both prices are defined; [sell_price] is
    the raw price of that tick. *)
Lemma exit_loop_inv (smoothed_full : list (option Q)) :
  ∀ (prices : list (option Q)) (idx : nat) (max_gain : Q) (e : exit_event),
    exit_loop P start_price halftime_index idx max_gain smoothed_full prices
      = Some e →
    ∃ k : nat,
      exit_idx e = (idx + k)%nat
      ∧ smoothed_full !! k = Some (Some (exit_smooth e))
      ∧ prices !! k = Some (Some (exit_price e))
      ∧ exit_gain e = exit_smooth e - start_price
      ∧ fired e = true.
Proof.
  induction smoothed_full as [|sp smoothed' IH];
    intros [|rp prices'] idx max_gain e He; try discriminate.
  simpl in He.
  assert (exit_loop P start_price halftime_index (S idx) max_gain
            smoothed' prices' = Some e →
          ∃ k : nat,
            exit_idx e = (idx + k)%nat
            ∧ (sp :: smoothed') !! k = Some (Some (exit_smooth e))
            ∧ (rp :: prices') !! k = Some (Some (exit_price e))
            ∧ exit_gain e = exit_smooth e - start_price
            ∧ fired e = true) as Hskip.
  { intros Hrec. destruct (IH _ _ _ _ Hrec) as (k & Hk & Hs & Hp & Hg & Hf).
    exists (S k). repeat split; try assumption. lia. }
  destruct sp as [smooth_price|]; [|destruct rp; apply Hskip, He].
  destruct rp as [real_price|]; [|apply Hskip, He].
  set (gain := smooth_price - start_price) in *.
  set (mg := Py.max max_gain gain) in *.
  destruct (peak_drop P mg gain) eqn:Hpd.
  { injection He as <-. exists 0%nat. unfold Batch.fired. simpl.
    rewrite Nat.add_0_r. fold gain. rewrite Hpd. auto. }
  destruct (retracement P mg gain) eqn:Hre.
  { injection He as <-. exists 0%nat. unfold Batch.fired. simpl.
    rewrite Nat.add_0_r. fold gain. rewrite Hpd, Hre. auto. }
  destruct (stagnation P start_price halftime_index idx smooth_price) eqn:Hsg.
  { injection He as <-. exists 0%nat. unfold Batch.fired. simpl.
    rewrite Nat.add_0_r. fold gain. rewrite Hpd, Hre, Hsg. auto. }
  destruct (IH _ _ _ _ He) as (k & Hk & Hs & Hp & Hg & Hf).
  exists (S k). repeat split; try assumption. lia.
Qed.

(** A stagnation exit is at the tick numbered [halftime_index], with the
    smoothed price under [start_price + gain_threshold]. *)
Lemma fired_stagnation (e : exit_event) :
  fired e = true →
  exit_trigger e = Stagnation →
  Z.of_nat (exit_idx e) = halftime_index
  ∧ exit_smooth e < start_price + gain_threshold P.
Proof.
  unfold Batch.fired. intros Hf Ht. rewrite Ht in Hf.
  apply andb_true_iff in Hf as [_ Hsg]. unfold stagnation in Hsg.
  apply andb_true_iff in Hsg as [Hidx Hlt].
  split; [apply Z.eqb_eq, Hidx | apply ltb_lt, Hlt].
Qed.

End ExitLoop.

Section BatchSeries.

Import Batch.
Local Open Scope Q_scope.

Lemma smooth_series_length (alpha : Q) (prices : list (option Q)) :
  ∀ last, length (smooth_series alpha last prices) = length prices.
Proof.
  induction prices as [|[p|] prices IH]; intros last; simpl; [reflexivity | |].
  - destruct (smooth_next alpha last p). simpl. f_equal. apply IH.
  - f_equal. apply IH.
Qed.

Lemma prices_of_length (data : list entry) :
  length (prices_of data) = length data.
Proof. unfold prices_of. apply length_map. Qed.

(** The ways out of [simulate_position], read off [run_position]. *)
Lemma run_position_closed (P : params) (data : list entry)
    (start_price : Q) (ex : option exit_event) (sell_price : Q) :
  run_position P data = Closed start_price ex sell_price →
  let prices := prices_of data in
  let smoothed_full := smooth_series (ema_alpha P) None prices in
  Py.first_defined smoothed_full = Some start_price
  ∧ in_band P start_price = true
  ∧ ex = exit_loop P start_price (halftime_index_of P smoothed_full) 0 0
           smoothed_full prices
  ∧ sell_price
    = match ex with
      | Some e => exit_price e
      | None => default start_price (Py.first_defined (rev prices))
      end.
Proof.
  unfold run_position. intros H. cbv zeta.
  destruct (valid_prices (prices_of data)); [discriminate|].
  destruct (Py.first_defined _) as [s|]; [|discriminate].
  destruct (in_band P s) eqn:Hband; simpl in H; [|discriminate].
  injection H as <- <- <-. auto.
Qed.

Lemma in_band_iff (P : params) (x : Q) :
  in_band P x = true ↔ min_start P <= x ∧ x <= max_start P.
Proof.
  unfold in_band. rewrite andb_true_iff, !leb_le. reflexivity.
Qed.

(** The smoother starts from the first valid price, so a series with a
    valid price has a first smoothed value. *)
Lemma first_smoothed (alpha : Q) (prices : list (option Q)) :
  Py.first_defined (smooth_series alpha None prices) = Py.first_defined prices.
Proof.
  induction prices as [|[p|] prices IH]; simpl; [reflexivity | reflexivity |].
  apply IH.
Qed.

Lemma first_defined_valid (prices : list (option Q)) :
  Py.first_defined prices = head (valid_prices prices).
Proof.
  unfold valid_prices.
  induction prices as [|[p|] prices IH]; simpl; [reflexivity | reflexivity |].
  apply IH.
Qed.

End BatchSeries.

(** ** Stagnation *)

Section Stagnation.

Import Batch.
Local Open Scope Q_scope.

(** *** The index of the check *)


(** With a fraction that is not negative the index is the floor of the
    exact product of the length and the double of the fraction, or the
    integer above it when the product is rounded up to that integer. *)
Lemma halftime_index_near_floor (P : params)
    (smoothed_full : list (option Q)) :
  let series_length := inject_Z (Z.of_nat (length smoothed_full)) in
  let fraction := Py.float (halftime_fraction P) in
  0 <= halftime_fraction P →
  (Z.of_nat (length smoothed_full) < 2 ^ 53)%Z →
  series_length * fraction < inject_Z (2 ^ 53) →
  (Qfloor (series_length * fraction) <= halftime_index_of P smoothed_full
   <= Qceiling (series_length * fraction))%Z.
Proof.
  intros series_length fraction Hhf Hlen Hprod.
  unfold halftime_index_of, Py.int_times_float. fold fraction.
  assert (Py.round64 (inject_Z (Z.of_nat (length smoothed_full)))
          == series_length) as Hexact
    by (apply round64_integer; [reflexivity | lia]).
  assert (0 <= fraction) as Hfr by apply round64_nonneg, Hhf.
  assert (0 <= series_length) as Hl.
  { unfold series_length. change 0 with (inject_Z 0). rewrite <- Zle_Qle. lia. }
  set (x := Py.round64 _ * fraction).
  assert (x == series_length * fraction) as Hx
    by (unfold x; rewrite Hexact; reflexivity).
  rewrite <- (Qfloor_comp _ _ Hx), <- (Qceiling_comp _ _ Hx).
  apply int_round64; rewrite Hx; [|exact Hprod].
  apply Qmult_le_0_compat; assumption.
Qed.

Lemma halftime_index_is_length (P : params) (smoothed_full : list (option Q)) :
  halftime_fraction P == 1 →
  (Z.of_nat (length smoothed_full) < 2 ^ 53)%Z →
  halftime_index_of P smoothed_full = Z.of_nat (length smoothed_full).
Proof.
  intros Hone Hlen.
  assert (Py.float (halftime_fraction P) == 1) as Hfr
    by (apply (round64_integer _ 1); [exact Hone | lia]).
  assert (inject_Z (Z.of_nat (length smoothed_full))
          * Py.float (halftime_fraction P)
          == inject_Z (Z.of_nat (length smoothed_full))) as Hprod
    by (rewrite Hfr; ring).
  destruct (halftime_index_near_floor P smoothed_full) as [Hlo Hhi].
  - rewrite Hone. discriminate.
  - exact Hlen.
  - rewrite Hprod, <- Zlt_Qlt. exact Hlen.
  - rewrite (Qfloor_comp _ _ Hprod), Qfloor_Z in Hlo.
    rewrite (Qceiling_comp _ _ Hprod), Qceiling_Z in Hhi. lia.
Qed.

(** *** The third test *)






(** C6.  With [halftime_fraction = 1.0], the default of [run_simulation]
    and the value the sweep passes, the index of the stagnation check is
    the length of the series, above the index of every tick: a position is
    closed by peak-drop, by retracement, or at the end of the series on
    the last raw price, never by stagnation.  The length of the series is
    below [2 ^ 53], as that of every list that fits in memory, so that it
    is a double. *)
Theorem stagnation_unreachable_at_full_length (P : params)
    (data : list entry) (start_price : Q) (ex : option exit_event)
    (sell_price : Q) :
  halftime_fraction P == 1 →
  (Z.of_nat (length data) < 2 ^ 53)%Z →
  run_position P data = Closed start_price ex sell_price →
  halftime_index_of P (smooth_series (ema_alpha P) None (prices_of data))
    = Z.of_nat (length data)
  ∧ match ex with
    | Some e =>
        (exit_idx e < length data)%nat
        ∧ (exit_trigger e = PeakDrop ∨ exit_trigger e = Retracement)
    | None =>
        sell_price
        = default start_price (Py.first_defined (rev (prices_of data)))
    end.
Proof.
  intros Hone Hlen Hrun.
  apply run_position_closed in Hrun as (_ & _ & Hex & Hsell).
  assert (halftime_index_of P
            (smooth_series (ema_alpha P) None (prices_of data))
          = Z.of_nat (length data)) as Hindex.
  { rewrite halftime_index_is_length;
      rewrite ?smooth_series_length, ?prices_of_length; auto. }
  rewrite Hindex in *.
  split; [reflexivity|].
  destruct ex as [e|]; [|exact Hsell].
  symmetry in Hex. apply exit_loop_inv in Hex as (k & Hk & Hs & _ & _ & Hf).
  simpl in Hk. subst k.
  apply lookup_lt_Some in Hs.
  rewrite smooth_series_length, prices_of_length in Hs.
  split; [exact Hs|].
  destruct (exit_trigger e) eqn:Htrig; auto.
  apply fired_stagnation in Hf as [Hidx _]; [lia | assumption].
Qed.

Lemma stagnation_unreachable_at_full_length_witness :
  halftime_index_of default_params
    (smooth_series (ema_alpha default_params) None (prices_of Scenario.spike))
    = Z.of_nat (length Scenario.spike)
  ∧ (exit_idx Scenario.spike_exit < length Scenario.spike)%nat
  ∧ (exit_trigger Scenario.spike_exit = PeakDrop
     ∨ exit_trigger Scenario.spike_exit = Retracement).
Proof.
  apply (stagnation_unreachable_at_full_length default_params Scenario.spike
           0.30 (Some Scenario.spike_exit) 0.00).
  - reflexivity.
  - reflexivity.
  - vm_compute. reflexivity.
Defined.

(** The two parameter bundles the claim names have that value. *)
Lemma full_length_by_default :
  halftime_fraction default_params == 1
  ∧ ∀ a b c d e, halftime_fraction (Sweep.trial a b c d e) == 1.
Proof. split; [reflexivity | intros; reflexivity]. Qed.

End Stagnation.

(** ** Sales in the live runner *)

Section LiveSales.

Import Live.
Local Open Scope Q_scope.

(** What a sale does to the state: the position is priced at the current
    smoothed value, removed from [active_bets] and booked. *)
Lemma evaluate_sells_sold (ticker : string) (st st' : state) :
  evaluate_sells_for_ticker ticker st = (st', true) →
  ∃ (b : bet) (current : Q),
    active_bets st !! ticker = Some b
    ∧ smoothed st !! ticker = Some current
    ∧ let profit := stake b * (current - start_price b) in
      console st' = console st ++ [Sold ticker current profit]
      ∧ sold_games st' !! ticker = Some profit
      ∧ bankroll st' = bankroll st + profit
      ∧ active_bets st' !! ticker = None
      ∧ price_history st' = price_history st.
Proof.
  unfold evaluate_sells_for_ticker. intros H.
  destruct (active_bets st !! ticker) as [b|] eqn:Hb; [|discriminate].
  destruct (smoothed st !! ticker) as [current|] eqn:Hc; [|discriminate].
  exists b, current. split; [reflexivity|]. split; [reflexivity|].
  set (b' := if Py.ltb (max_gain b) (current - start_price b) then _ else b)
    in H.
  assert (stake b' = stake b) as Hstake
    by (unfold b'; destruct (Py.ltb _ _); reflexivity).
  destruct (if Py.leb GAIN_THRESHOLD (max_gain b') && _ then true else _);
    [|discriminate].
  injection H as <-. simpl. rewrite Hstake.
  rewrite lookup_insert_eq, lookup_delete_eq. auto.
Qed.

End LiveSales.

(** ** The sell price *)

Section SellPrice.

Local Open Scope Q_scope.

(** In the batch context an exit records the raw price of its tick. *)
Lemma batch_sells_at_raw (P : Batch.params) (data : list Batch.entry)
    (start_price : Q) (e : Batch.exit_event) (sell_price : Q) :
  Batch.run_position P data = Batch.Closed start_price (Some e) sell_price →
  sell_price = Batch.exit_price e
  ∧ Batch.prices_of data !! Batch.exit_idx e
    = Some (Some (Batch.exit_price e))
  ∧ Batch.smooth_series (Batch.ema_alpha P) None (Batch.prices_of data)
      !! Batch.exit_idx e
    = Some (Some (Batch.exit_smooth e))
  ∧ Batch.fired P start_price
      (Batch.halftime_index_of P
         (Batch.smooth_series (Batch.ema_alpha P) None (Batch.prices_of data)))
      e = true.
Proof.
  intros Hrun.
  apply run_position_closed in Hrun as (_ & _ & Hex & Hsell).
  symmetry in Hex. apply exit_loop_inv in Hex as (k & Hk & Hs & Hp & _ & Hf).
  simpl in Hk. subst k. auto.
Qed.

(** C1, as the code has it.  In the batch context, at the tick where an
    exit test fires, the recorded [sell_price] is the raw price of that
    tick.  In the live context a sale is recorded, and its profit
    computed, at the current smoothed price of the ticker. *)
Theorem sell_price_by_context :
  (∀ P data start_price e sell_price,
     Batch.run_position P data = Batch.Closed start_price (Some e) sell_price →
     sell_price = Batch.exit_price e
     ∧ Batch.prices_of data !! Batch.exit_idx e = Some (Some sell_price))
  ∧ (∀ ticker st st',
       Live.evaluate_sells_for_ticker ticker st = (st', true) →
       ∃ b current,
         Live.active_bets st !! ticker = Some b
         ∧ Live.smoothed st !! ticker = Some current
         ∧ Live.console st'
           = Live.console st
             ++ [Live.Sold ticker current
                   (Live.stake b * (current - Live.start_price b))]).
Proof.
  split.
  - intros P data start_price e sell_price Hrun.
    apply batch_sells_at_raw in Hrun as (-> & Hp & _). auto.
  - intros ticker st st' Hsold.
    apply evaluate_sells_sold in Hsold as (b & current & Hb & Hc & Hcon & _).
    exists b, current. auto.
Qed.

Lemma sell_price_by_context_witness :
  (0.00 = Batch.exit_price Scenario.spike_exit
   ∧ Batch.prices_of Scenario.spike !! 2%nat = Some (Some 0.00))
  ∧ ∃ b current,
      Live.active_bets Scenario.holding !! "KXGAME" = Some b
      ∧ Live.smoothed Scenario.holding !! "KXGAME" = Some current
      ∧ Live.console
          (Live.evaluate_sells_for_ticker "KXGAME" Scenario.holding).1
        = Live.console Scenario.holding
          ++ [Live.Sold "KXGAME" current
                (Live.stake b * (current - Live.start_price b))].
Proof.
  destruct sell_price_by_context as [Hbatch Hlive]. split.
  - apply (Hbatch Batch.default_params Scenario.spike 0.30 Scenario.spike_exit
             0.00).
    vm_compute. reflexivity.
  - apply (Hlive "KXGAME" Scenario.holding
             (Live.evaluate_sells_for_ticker "KXGAME" Scenario.holding).1).
    vm_compute. reflexivity.
Defined.

(** C1 as stated fails in the live context: in the run [live_run] the
    ticker is sold while its raw price is 0.10, and the sale is recorded
    at another price, above 0.52. *)
Lemma live_sale_not_at_raw_price :
  ∃ current profit,
    last (Live.console Scenario.live_run)
      = Some (Live.Sold "KXGAME" current profit)
    ∧ Live.raw_price "KXGAME" Scenario.live_run = Some 0.10
    ∧ 0.52 < current
    ∧ ¬ current == 0.10.
Proof.
  eexists. eexists. split; [vm_compute; reflexivity|].
  split; [vm_compute; reflexivity|].
  assert (∀ x : Q, Py.ltb 0.52 x = true → 0.52 < x ∧ ¬ x == 0.10) as Hlt.
  { intros x Hx. apply ltb_lt in Hx. split; [exact Hx|]. intros Heq.
    rewrite Heq in Hx. discriminate. }
  apply Hlt. vm_compute. reflexivity.
Qed.

End SellPrice.

(** ** Realized profit *)

Section Profit.

Local Open Scope Q_scope.

(** C2.  A position closed by the batch backtester returns
    [stake * (sell_price / start_price - 1)], with the flat stake; a
    position sold by the live runner books [stake * (sell_price -
    start_price)], the sell price being the one the sale is recorded at;
    and the two formulas are not the same function. *)
Theorem profit_formula_by_context :
  (∀ P data start_price ex sell_price,
     Batch.run_position P data = Batch.Closed start_price ex sell_price →
     ¬ start_price == 0 →
     Batch.simulate_position P data
     = Py.Ok (Spec.ratio_return Batch.FLAT_BET_AMOUNT start_price sell_price))
  ∧ (∀ ticker st st',
       Live.evaluate_sells_for_ticker ticker st = (st', true) →
       ∃ b sell_price,
         Live.active_bets st !! ticker = Some b
         ∧ last (Live.console st')
           = Some (Live.Sold ticker sell_price
                     (Spec.linear_payout (Live.stake b) (Live.start_price b)
                        sell_price))
         ∧ Live.sold_games st' !! ticker
           = Some (Spec.linear_payout (Live.stake b) (Live.start_price b)
                     sell_price)
         ∧ Live.bankroll st'
           = Live.bankroll st
             + Spec.linear_payout (Live.stake b) (Live.start_price b)
                 sell_price)
  ∧ ¬ (∀ stake start_price sell_price,
         Spec.ratio_return stake start_price sell_price
         == Spec.linear_payout stake start_price sell_price).
Proof.
  split; [|split].
  - intros P data start_price ex sell_price Hrun Hnz.
    unfold Batch.simulate_position. rewrite Hrun. simpl.
    destruct (Qeq_bool start_price 0) eqn:Hz; [|reflexivity].
    apply Qeq_bool_iff in Hz. contradiction.
  - intros ticker st st' Hsold.
    apply evaluate_sells_sold in Hsold
      as (b & current & Hb & Hc & Hcon & Hsg & Hbank & _).
    exists b, current. rewrite Hcon, last_snoc. auto.
  - intros Hsame. specialize (Hsame 2 0.5 0.6). discriminate.
Qed.

Lemma profit_formula_by_context_witness :
  Batch.simulate_position Batch.default_params Scenario.rally
    = Py.Ok (Spec.ratio_return Batch.FLAT_BET_AMOUNT 0.30 0.60)
  ∧ ∃ b sell_price,
      let st' := (Live.evaluate_sells_for_ticker "KXGAME" Scenario.holding).1 in
      Live.active_bets Scenario.holding !! "KXGAME" = Some b
      ∧ last (Live.console st')
        = Some (Live.Sold "KXGAME" sell_price
                  (Spec.linear_payout (Live.stake b) (Live.start_price b)
                     sell_price))
      ∧ Live.sold_games st' !! "KXGAME"
        = Some (Spec.linear_payout (Live.stake b) (Live.start_price b)
                  sell_price)
      ∧ Live.bankroll st'
        = Live.bankroll Scenario.holding
          + Spec.linear_payout (Live.stake b) (Live.start_price b) sell_price.
Proof.
  destruct profit_formula_by_context as (Hbatch & Hlive & _). split.
  - apply (Hbatch Batch.default_params Scenario.rally 0.30 None 0.60).
    + vm_compute. reflexivity.
    + discriminate.
  - apply (Hlive "KXGAME" Scenario.holding
             (Live.evaluate_sells_for_ticker "KXGAME" Scenario.holding).1).
    vm_compute. reflexivity.
Defined.

(** With a zero start price the division raises instead. *)
Lemma zero_start_price_raises (P : Batch.params) (data : list Batch.entry)
    (start_price : Q) (ex : option Batch.exit_event) (sell_price : Q) :
  Batch.run_position P data = Batch.Closed start_price ex sell_price →
  start_price == 0 →
  Batch.simulate_position P data = Py.Raise Py.ZeroDivisionError.
Proof.
  intros Hrun Hz. unfold Batch.simulate_position. rewrite Hrun. simpl.
  apply Qeq_bool_iff in Hz. rewrite Hz. reflexivity.
Qed.

(** A start price inside a band that begins above zero is not zero. *)
Lemma start_price_positive (P : Batch.params) (data : list Batch.entry)
    (start_price : Q) (ex : option Batch.exit_event) (sell_price : Q) :
  0 < Batch.min_start P →
  Batch.run_position P data = Batch.Closed start_price ex sell_price →
  ¬ start_price == 0.
Proof.
  intros Hmin Hrun.
  apply run_position_closed in Hrun as (_ & Hband & _).
  apply in_band_iff in Hband as [Hlo _]. intros Hz. rewrite Hz in Hlo. lra.
Qed.

End Profit.

(** ** Entry screening *)

Section Entry.

Local Open Scope Q_scope.

(** *** Batch *)

Lemma run_position_entry (P : Batch.params) (data : list Batch.entry)
    (entry_price : Q) :
  Py.first_defined
    (Batch.smooth_series (Batch.ema_alpha P) None (Batch.prices_of data))
    = Some entry_price →
  if Batch.in_band P entry_price
  then ∃ ex sell_price,
         Batch.run_position P data = Batch.Closed entry_price ex sell_price
  else Batch.run_position P data = Batch.NotEntered (Some entry_price).
Proof.
  intros Hfirst. unfold Batch.run_position.
  pose proof Hfirst as Hvalid.
  rewrite first_smoothed, first_defined_valid in Hvalid.
  destruct (Batch.valid_prices (Batch.prices_of data)); [discriminate|].
  rewrite Hfirst.
  destruct (Batch.in_band P entry_price); simpl; eauto.
Qed.

(** *** Live *)

Lemma init_ticker_bets (fs : Live.folder) :
  ∀ st, Live.active_bets (foldl Live.init_ticker st fs) = Live.active_bets st.
Proof.
  induction fs as [|[fn file] fs IH]; intros st; [reflexivity|].
  simpl. rewrite IH. unfold Live.init_ticker.
  destruct (negb _); [reflexivity|].
  destruct (Live.load_last_price_from_jsonl file); reflexivity.
Qed.

Lemma place_bet_smoothed (l : list (string * Q)) :
  ∀ st, Live.smoothed (foldl Live.place_bet st l) = Live.smoothed st.
Proof.
  induction l as [|[t s] l IH]; intros st; [reflexivity|].
  simpl. rewrite IH. destruct (Live.in_band s); reflexivity.
Qed.

(** The second loop of [place_initial_bets] over items with distinct
    keys. *)
Lemma place_bets_lookup (l : list (string * Q)) (ticker : string) :
  NoDup l.*1 →
  ∀ st,
    (∀ s, (ticker, s) ∈ l →
          Live.active_bets (foldl Live.place_bet st l) !! ticker
          = if Live.in_band s then Some (Live.new_bet s)
            else Live.active_bets st !! ticker)
    ∧ (ticker ∉ l.*1 →
       Live.active_bets (foldl Live.place_bet st l) !! ticker
       = Live.active_bets st !! ticker).
Proof.
  induction l as [|[t s0] l IH]; intros Hnd st.
  { split; [intros s Hin; inversion Hin | reflexivity]. }
  apply NoDup_cons in Hnd as [Hfresh Hnd]. simpl in Hfresh.
  destruct (IH Hnd (Live.place_bet st (t, s0))) as [IHin IHout].
  assert (∀ t', t' ≠ t →
            Live.active_bets (Live.place_bet st (t, s0)) !! t'
            = Live.active_bets st !! t') as Hother.
  { intros t' Hne. unfold Live.place_bet.
    destruct (Live.in_band s0); [|reflexivity]. simpl.
    apply lookup_insert_ne. congruence. }
  split.
  - intros s Hin. cbn [foldl]. apply elem_of_cons in Hin as [Heq|Hin].
    + injection Heq as <- <-. rewrite IHout by exact Hfresh.
      unfold Live.place_bet.
      destruct (Live.in_band s); [|reflexivity]. simpl. apply lookup_insert_eq.
    + rewrite (IHin s Hin). destruct (Live.in_band s); [reflexivity|].
      apply Hother. intros ->. apply Hfresh.
      apply list_elem_of_fmap. exists (t, s). auto.
  - intros Hout. cbn [foldl]. simpl in Hout.
    apply not_elem_of_cons in Hout as [Hne Hout].
    rewrite IHout by exact Hout. apply Hother, Hne.
Qed.

Lemma place_initial_bets_lookup (fs : Live.folder) (ticker : string) :
  let st := Live.place_initial_bets fs Live.initial in
  Live.active_bets st !! ticker
  = match Live.smoothed st !! ticker with
    | Some s => if Live.in_band s then Some (Live.new_bet s) else None
    | None => None
    end.
Proof.
  unfold Live.place_initial_bets. cbv zeta.
  set (st1 := foldl Live.init_ticker Live.initial fs).
  rewrite place_bet_smoothed.
  assert (Live.active_bets st1 = ∅) as Hempty
    by (unfold st1; rewrite init_ticker_bets; reflexivity).
  destruct (place_bets_lookup (map_to_list (Live.smoothed st1)) ticker
              (NoDup_fst_map_to_list _) st1) as [Hin Hout].
  destruct (Live.smoothed st1 !! ticker) as [s|] eqn:Hs.
  - rewrite (Hin s) by (apply elem_of_map_to_list, Hs).
    destruct (Live.in_band s); [reflexivity|]. rewrite Hempty. apply lookup_empty.
  - rewrite Hout; [rewrite Hempty; apply lookup_empty|].
    intros Hdom. apply list_elem_of_fmap in Hdom as ([t s] & -> & Hts).
    apply elem_of_map_to_list in Hts. simpl in Hs. congruence.
Qed.

(** C7.  A position is Live.new_bet iff [min_start <= entry_price <= max_start],
    both bounds included.  In the batch context the entry price is the
    first defined smoothed value of the series, and a market outside the
    band returns profit zero; in the live context it is the smoothed value
    of the ticker after startup. *)
Theorem entry_band_inclusive :
  (∀ P data entry_price,
     Py.first_defined
       (Batch.smooth_series (Batch.ema_alpha P) None (Batch.prices_of data))
       = Some entry_price →
     ((∃ ex sell_price,
         Batch.run_position P data = Batch.Closed entry_price ex sell_price)
      ↔ Batch.min_start P <= entry_price ∧ entry_price <= Batch.max_start P)
     ∧ (¬ (Batch.min_start P <= entry_price
           ∧ entry_price <= Batch.max_start P) →
        Batch.run_position P data = Batch.NotEntered (Some entry_price)
        ∧ Batch.simulate_position P data = Py.Ok 0))
  ∧ (∀ fs ticker entry_price,
       let st := Live.place_initial_bets fs Live.initial in
       Live.smoothed st !! ticker = Some entry_price →
       (is_Some (Live.active_bets st !! ticker)
        ↔ Live.MIN_START <= entry_price ∧ entry_price <= Live.MAX_START)
       ∧ (Live.MIN_START <= entry_price ∧ entry_price <= Live.MAX_START →
          Live.active_bets st !! ticker
          = Some {| Live.stake := Live.BET_AMOUNT;
                    Live.start_price := entry_price;
                    Live.max_gain := 0 |})).
Proof.
  split.
  - intros P data entry_price Hfirst.
    pose proof (run_position_entry P data entry_price Hfirst) as Hrun.
    rewrite <- in_band_iff.
    destruct (Batch.in_band P entry_price) eqn:Hband.
    + split; [tauto|]. intros Hno. exfalso. auto.
    + split.
      * split; [|discriminate]. intros (ex & sell & Hclosed). congruence.
      * intros _. split; [exact Hrun|].
        unfold Batch.simulate_position. rewrite Hrun. reflexivity.
  - intros fs ticker entry_price st Hs. subst st.
    pose proof (place_initial_bets_lookup fs ticker) as Hbets.
    cbv zeta in Hbets. rewrite Hs in Hbets. rewrite Hbets.
    assert (Live.in_band entry_price = true
            ↔ Live.MIN_START <= entry_price ∧ entry_price <= Live.MAX_START)
      as Hband
      by (unfold Live.in_band; rewrite andb_true_iff, !leb_le; reflexivity).
    rewrite <- Hband.
    destruct (Live.in_band entry_price).
    + split; [|reflexivity]. split; [reflexivity | eauto].
    + split; [|discriminate].
      split; [intros [b Hb]; discriminate | discriminate].
Qed.

(** At the bounds and next to them: 13, 14, 77 and 78 cents against the
    band from 0.14 to 0.77. *)
Lemma entry_band_inclusive_witness :
  let st := Live.place_initial_bets Scenario.band_folder Live.initial in
  (is_Some (Live.active_bets st !! "MIN")
   ↔ Live.MIN_START <= 0.14 ∧ 0.14 <= Live.MAX_START)
  ∧ (is_Some (Live.active_bets st !! "MAX")
     ↔ Live.MIN_START <= 0.77 ∧ 0.77 <= Live.MAX_START)
  ∧ (is_Some (Live.active_bets st !! "LOW")
     ↔ Live.MIN_START <= 0.13 ∧ 0.13 <= Live.MAX_START)
  ∧ (is_Some (Live.active_bets st !! "HIGH")
     ↔ Live.MIN_START <= 0.78 ∧ 0.78 <= Live.MAX_START)
  ∧ ((∃ ex sell_price,
        Batch.run_position Batch.default_params Scenario.rally
        = Batch.Closed 0.30 ex sell_price)
     ↔ Batch.min_start Batch.default_params <= 0.30
       ∧ 0.30 <= Batch.max_start Batch.default_params).
Proof.
  destruct entry_band_inclusive as [Hbatch Hlive]. intros st.
  split; [apply (Hlive Scenario.band_folder "MIN" 0.14); reflexivity|].
  split; [apply (Hlive Scenario.band_folder "MAX" 0.77); reflexivity|].
  split; [apply (Hlive Scenario.band_folder "LOW" 0.13); reflexivity|].
  split; [apply (Hlive Scenario.band_folder "HIGH" 0.78); reflexivity|].
  apply (Hbatch Batch.default_params Scenario.rally 0.30). reflexivity.
Defined.

End Entry.

(** ** Files that do not parse *)

Section Unparseable.

Import FilterStage.
Variable process : string → list Batch.entry → Py.result verdict.

(** *** The backtest *)

(** A loop that meets an element on which its body raises, whatever the
    state, does not complete. *)
Lemma for_each_raises {A S : Type} (body : S → A → Py.result S) (x : A)
    (l : list A) :
  x ∈ l → (∀ s, ∃ e, body s x = Py.Raise e) →
  ∀ s, ∃ e, Py.for_each body s l = Py.Raise e.
Proof.
  intros Hin Hx. induction l as [|a l IH]; intros s.
  { apply elem_of_nil in Hin. contradiction. }
  simpl. apply elem_of_cons in Hin as [<-|Hin].
  - destruct (Hx s) as [e ->]. exists e. reflexivity.
  - destruct (body s a) as [s'|e]; [apply (IH Hin) | exists e; reflexivity].
Qed.

Lemma insert_sorted_elem {A : Type} (key : A → string) (x y : A)
    (l : list A) :
  y = x ∨ y ∈ l → y ∈ Py.insert_sorted key x l.
Proof.
  induction l as [|z l IH]; simpl.
  - intros [->|H]; [left | apply elem_of_nil in H; contradiction].
  - intros H. destruct (String.ltb (key x) (key z)).
    + destruct H as [->|H]; [left | right; exact H].
    + destruct H as [->|H]; [right; apply IH; auto|].
      apply elem_of_cons in H as [->|H]; [left | right; apply IH; auto].
Qed.

Lemma sorted_by_elem {A : Type} (key : A → string) (x : A) (l : list A) :
  x ∈ l → x ∈ Py.sorted_by key l.
Proof.
  unfold Py.sorted_by. intros Hin.
  assert (∀ acc, x ∈ acc ∨ x ∈ l →
                 x ∈ foldl (fun acc x => Py.insert_sorted key x acc) acc l)
    as Hall; [|apply Hall; auto].
  clear Hin. induction l as [|a l IH]; intros acc [H|H]; simpl.
  - exact H.
  - apply elem_of_nil in H. contradiction.
  - apply IH. left. apply insert_sorted_elem. auto.
  - apply elem_of_cons in H as [->|H]; [|apply IH; auto].
    apply IH. left. apply insert_sorted_elem. auto.
Qed.

Lemma unparseable_pair_ends_run (P : Batch.params)
    (filter_folder : list (string * Batch.node)) (week_name : string)
    (folder : Batch.directory) (game_key : string) (files : list string)
    (f : string) :
  (week_name, Batch.Dir folder) ∈ filter_folder →
  (game_key, files) ∈ Batch.get_game_pairs folder →
  f ∈ files →
  Batch.json_load folder f = Py.Raise Py.JSONDecodeError →
  ∃ e, Batch.run_simulation P filter_folder = Py.Raise e.
Proof.
  intros Hweek Hgame Hf Hload. unfold Batch.run_simulation.
  apply (for_each_raises _ (week_name, Batch.Dir folder)).
  { apply sorted_by_elem, Hweek. }
  intros bankroll. unfold Batch.play_week. simpl.
  apply (for_each_raises _ (game_key, files)); [exact Hgame|].
  clear bankroll. intros bankroll. unfold Batch.play_game. simpl.
  destruct (for_each_raises
              (fun game_profit f0 =>
                 data ← Batch.json_load folder f0;
                 profit ← Batch.simulate_position P data;
                 Py.Ok (game_profit + profit)%Q)
              f files Hf) with (s := 0%Q) as [e He].
  { intros s. rewrite Hload. exists Py.JSONDecodeError. reflexivity. }
  exists e. unfold mbind, result_bind in *. rewrite He. reflexivity.
Qed.

(** *** The filtering stage *)

Lemma step_differ_by (pre : list message) (m : message) (a b : state)
    (f : string * game_file) :
  differ_by pre m a b →
  match step process a f, step process b f with
  | Py.Ok a', Py.Ok b' => differ_by pre m a' b'
  | Py.Raise e, Py.Raise e' => e = e'
  | _, _ => False
  end.
Proof.
  intros (Hout & Hsum & rest & Ha & Hb). destruct f as [filename content].
  unfold step. destruct (negb _); [unfold differ_by; eauto|].
  assert (∀ x, differ_by pre m (say x a) (say x b)) as Hsay.
  { intros x. unfold differ_by, say. simpl. rewrite Hout, Hsum, Ha, Hb.
    split; [reflexivity|]. split; [reflexivity|].
    exists (rest ++ [x]). rewrite !app_assoc. split; [reflexivity|].
    rewrite <- !app_assoc. reflexivity. }
  destruct content as [| |data]; [reflexivity | apply Hsay |].
  destruct (process filename data) as [[w|week_num kickoff filtered]|e];
    [apply Hsay | | reflexivity].
  unfold differ_by. simpl. rewrite Hout, Hsum, Ha, Hb.
  split; [reflexivity|]. split; [reflexivity|].
  eexists (rest ++ [_]). rewrite !app_assoc. split; [reflexivity|].
  rewrite <- !app_assoc. reflexivity.
Qed.

Lemma main_differ_by (pre : list message) (m : message)
    (games : list (string * game_file)) :
  ∀ a b, differ_by pre m a b →
         (main process games b).2 = (main process games a).2
         ∧ differ_by pre m (main process games a).1 (main process games b).1.
Proof.
  induction games as [|f games IH]; intros a b Hab;
    [split; [reflexivity | exact Hab]|].
  simpl. pose proof (step_differ_by pre m a b f Hab) as Hstep.
  destruct (step process a f) as [a'|e], (step process b f) as [b'|e'];
    try contradiction.
  - apply IH, Hstep.
  - subst e'. split; [reflexivity | exact Hab].
Qed.

Lemma main_app (before rest : list (string * game_file)) :
  ∀ st st1,
    main process before st = (st1, None) →
    main process (before ++ rest) st = main process rest st1.
Proof.
  induction before as [|f before IH]; intros st st1 Hmain; simpl in *.
  - injection Hmain as <-. reflexivity.
  - destruct (step process st f) as [st'|e]; [apply IH, Hmain | discriminate].
Qed.

(** C3, as the code has it.  The backtest has no guard around
    [json.load]: a run over an archive in which a file of a paired game
    does not parse ends with an exception, not with a bankroll.  The guard
    is in the filtering stage and catches [json.JSONDecodeError] only.  A
    [.json] file of the games folder that is not JSON is skipped with a
    warning and the stage goes on with the files that follow: it stops where
    it stops without the file, on the same exception if on one, with the
    same files written and the same summary rows, and its console differs
    by the one warning, printed when the file is met.  A file whose reading
    raises another exception, [UnicodeDecodeError] for bytes that are not
    text, ends the stage there. *)
Theorem unparseable_skipped_only_by_filter :
  (∀ (P : Batch.params) (filter_folder : list (string * Batch.node))
     (week_name : string) (folder : Batch.directory) (game_key : string)
     (files : list string) (f : string),
     (week_name, Batch.Dir folder) ∈ filter_folder →
     (game_key, files) ∈ Batch.get_game_pairs folder →
     f ∈ files →
     Batch.json_load folder f = Py.Raise Py.JSONDecodeError →
     ∃ e, Batch.run_simulation P filter_folder = Py.Raise e)
  ∧ (∀ (before after : list (string * game_file)) (filename : string)
       (st st1 : state),
       Py.endswith filename ".json" = true →
       main process before st = (st1, None) →
       let with_file :=
         main process (before ++ (filename, InvalidJson) :: after) st in
       let without := main process (before ++ after) st in
       with_file.2 = without.2
       ∧ output with_file.1 = output without.1
       ∧ summary_rows with_file.1 = summary_rows without.1
       ∧ ∃ rest,
           console without.1 = console st1 ++ rest
           ∧ console with_file.1
             = console st1 ++ SkippingInvalidJson filename :: rest)
  ∧ (∀ (before after : list (string * game_file)) (filename : string)
       (st st1 : state),
       Py.endswith filename ".json" = true →
       main process before st = (st1, None) →
       main process (before ++ (filename, Undecodable) :: after) st
       = (st1, Some Py.UnicodeDecodeError)).
Proof.
  split; [intros; eapply unparseable_pair_ends_run; eassumption|].
  split.
  - intros before after filename st st1 Hjson Hbefore with_file without.
    subst with_file without.
    rewrite !(main_app before _ st st1 Hbefore).
    cbn [main].
    assert (step process st1 (filename, InvalidJson)
            = Py.Ok (say (SkippingInvalidJson filename) st1)) as ->
      by (unfold step; rewrite Hjson; reflexivity).
    apply (main_differ_by (console st1) (SkippingInvalidJson filename) after
             st1 (say (SkippingInvalidJson filename) st1)).
    unfold differ_by, say. simpl. split; [reflexivity|]. split; [reflexivity|].
    exists []. rewrite app_nil_r. auto.
  - intros before after filename st st1 Hjson Hbefore.
    rewrite (main_app before _ st st1 Hbefore).
    cbn [main]. unfold step. rewrite Hjson. reflexivity.
Qed.

End Unparseable.

Lemma unparseable_skipped_only_by_filter_witness :
  (∃ e, Batch.run_simulation Batch.default_params Scenario.broken_archive
        = Py.Raise e)
  ∧ (let with_file :=
       FilterStage.main Scenario.keep_all Scenario.raw_games
         Scenario.empty_stage in
     let without :=
       FilterStage.main Scenario.keep_all (tail Scenario.raw_games)
         Scenario.empty_stage in
     with_file.2 = without.2
     ∧ FilterStage.output with_file.1 = FilterStage.output without.1
     ∧ FilterStage.summary_rows with_file.1
       = FilterStage.summary_rows without.1
     ∧ ∃ rest,
         FilterStage.console without.1 = [] ++ rest
         ∧ FilterStage.console with_file.1
           = [] ++ FilterStage.SkippingInvalidJson "KXGAME-25SEP07-DAL.json"
                   :: rest)
  ∧ (FilterStage.main Scenario.keep_all Scenario.raw_games_with_binary
       Scenario.empty_stage).2
    = Some Py.UnicodeDecodeError.
Proof.
  destruct (unparseable_skipped_only_by_filter Scenario.keep_all)
    as (Hrun & Hskip & Hstop).
  split.
  { apply (Hrun Batch.default_params Scenario.broken_archive "week1"
             Scenario.broken_week "KXGAME-25SEP07"
             ["KXGAME-25SEP07-DAL.json"; "KXGAME-25SEP07-PHI.json"]
             "KXGAME-25SEP07-DAL.json").
    - left.
    - vm_compute. left.
    - left.
    - vm_compute. reflexivity. }
  split.
  { apply (Hskip [] [("KXGAME-25SEP07-PHI.json",
                      FilterStage.Records Scenario.flat)]
             "KXGAME-25SEP07-DAL.json" Scenario.empty_stage
             Scenario.empty_stage); reflexivity. }
  unfold Scenario.raw_games_with_binary.
  rewrite (Hstop Scenario.raw_games
             [("KXGAME-25SEP08-LAC.json", FilterStage.Records Scenario.rally)]
             "KXGAME-25SEP08-KC.json" Scenario.empty_stage
             (FilterStage.main Scenario.keep_all Scenario.raw_games
                Scenario.empty_stage).1);
    reflexivity.
Defined.

(** C3 as stated fails for the backtest run: [run_simulation] has no guard
    around [json.load], so a week in which one side of a game does not parse
    ends the run with the decoding error instead of a bankroll. *)
Lemma backtest_aborts_on_unparseable_file :
  Batch.get_game_pairs Scenario.broken_week
    = [("KXGAME-25SEP07",
        ["KXGAME-25SEP07-DAL.json"; "KXGAME-25SEP07-PHI.json"])]
  ∧ Batch.run_simulation Batch.default_params Scenario.broken_archive
    = Py.Raise Py.JSONDecodeError.
Proof. split; vm_compute; reflexivity. Qed.

(** ** The order of the exit tests *)

Section ExitOrder.

Import Batch.
Local Open Scope Q_scope.

Lemma find_none_iff {A : Type} (f : A → bool) (l : list A) :
  List.find f l = None ↔ ∀ x, In x l → f x = false.
Proof.
  split; [apply List.find_none|].
  induction l as [|a l IH]; intros H; [reflexivity|]. simpl.
  rewrite (H a) by (left; reflexivity). apply IH.
  intros x Hx. apply H. right. exact Hx.
Qed.

(** Whether some test holds does not depend on the order they are tried
    in. *)
Lemma find_none_permutation {A : Type} (f : A → bool) (l l' : list A) :
  Permutation l l' → List.find f l = None → List.find f l' = None.
Proof.
  intros Hperm. rewrite !find_none_iff. intros H x Hx. apply H.
  apply Permutation_in with (l := l'); [symmetry|]; assumption.
Qed.

(** The loop of the source tries the tests in [source_order]. *)
Lemma source_loop_in_order (P : params) (start_price : Q) (halftime_index : Z)
    (smoothed_full : list (option Q)) :
  ∀ prices idx max_gain,
    Reordered.exit_loop Reordered.source_order P start_price halftime_index
      idx max_gain smoothed_full prices
    = exit_loop P start_price halftime_index idx max_gain smoothed_full prices.
Proof.
  induction smoothed_full as [|[s|] smoothed' IH];
    intros [|[r|] prices'] idx max_gain; simpl; try reflexivity; try apply IH.
  destruct (peak_drop P _ _); [reflexivity|].
  destruct (retracement P _ _); [reflexivity|].
  destruct (stagnation P _ _ _ _); [reflexivity|]. apply IH.
Qed.

Lemma reordered_same_sale (order order' : list trigger) (P : params)
    (start_price : Q) (halftime_index : Z) (smoothed_full : list (option Q)) :
  Permutation order order' →
  ∀ prices idx max_gain,
    Reordered.sale
      <$> Reordered.exit_loop order P start_price halftime_index idx max_gain
            smoothed_full prices
    = Reordered.sale
        <$> Reordered.exit_loop order' P start_price halftime_index idx
              max_gain smoothed_full prices.
Proof.
  intros Hperm.
  induction smoothed_full as [|[s|] smoothed' IH];
    intros [|[r|] prices'] idx max_gain; simpl; try reflexivity; try apply IH.
  set (f := Reordered.holds P start_price halftime_index idx
              (Py.max max_gain (s - start_price)) (s - start_price) s).
  destruct (List.find f order) as [t|] eqn:Ht;
    destruct (List.find f order') as [t'|] eqn:Ht'.
  - reflexivity.
  - apply (find_none_permutation f order' order) in Ht';
      [congruence | symmetry; exact Hperm].
  - apply (find_none_permutation f order order') in Ht;
      [congruence | exact Hperm].
  - apply IH.
Qed.

(** C4, as the code has it.  The exit tests are not exclusive; when
    several hold at a tick the first in the order peak-drop, retracement,
    stagnation is the one that breaks the loop.  Trying the three tests in
    any other order changes at most which one is recorded: the tick of the
    exit and the sell price are the same. *)
Theorem exit_order_only_names_trigger (order : list trigger) (P : params)
    (start_price : Q) (halftime_index : Z) (idx : nat) (max_gain : Q)
    (smoothed_full prices : list (option Q)) :
  Permutation order [PeakDrop; Retracement; Stagnation] →
  Reordered.sale
    <$> Reordered.exit_loop order P start_price halftime_index idx max_gain
          smoothed_full prices
  = Reordered.sale
      <$> exit_loop P start_price halftime_index idx max_gain smoothed_full
            prices
  ∧ ∀ e,
      exit_loop P start_price halftime_index idx max_gain smoothed_full prices
        = Some e →
      fired P start_price halftime_index e = true.
Proof.
  intros Hperm. split.
  - rewrite <- source_loop_in_order.
    apply reordered_same_sale. exact Hperm.
  - intros e He. apply exit_loop_inv in He as (k & _ & _ & _ & _ & Hf).
    exact Hf.
Qed.

(** On [spike], with the check at the third tick, the reverse order
    records a stagnation where the source records a peak-drop, for the
    same sale. *)
Lemma exit_order_only_names_trigger_witness :
  let sm := smooth_series 0.25 None (prices_of Scenario.spike) in
  exit_trigger
    <$> Reordered.exit_loop [Stagnation; Retracement; PeakDrop]
          Scenario.late_check 0.30 2 0 0 sm (prices_of Scenario.spike)
    = Some Stagnation
  ∧ exit_trigger
      <$> exit_loop Scenario.late_check 0.30 2 0 0 sm
            (prices_of Scenario.spike)
    = Some PeakDrop
  ∧ Reordered.sale
      <$> Reordered.exit_loop [Stagnation; Retracement; PeakDrop]
            Scenario.late_check 0.30 2 0 0 sm (prices_of Scenario.spike)
    = Reordered.sale
        <$> exit_loop Scenario.late_check 0.30 2 0 0 sm
              (prices_of Scenario.spike).
Proof.
  intros sm. split; [reflexivity|]. split; [reflexivity|].
  apply (exit_order_only_names_trigger [Stagnation; Retracement; PeakDrop]
           Scenario.late_check 0.30 2 0 0 sm (prices_of Scenario.spike)).
  change [Stagnation; Retracement; PeakDrop]
    with (rev [PeakDrop; Retracement; Stagnation]).
  symmetry. apply Permutation_rev.
Defined.

(** C4 as stated fails: at the third tick of [spike] the position opened
    at 0.30 has [max_gain = 0.10] and [gain = 0]; peak-drop and retracement
    both hold under the default parameters, and with the check at that
    tick stagnation holds as well. *)
Lemma exit_triggers_overlap :
  run_position default_params Scenario.spike
    = Closed 0.30 (Some Scenario.spike_exit) 0.00
  ∧ run_position Scenario.late_check Scenario.spike
    = Closed 0.30 (Some Scenario.spike_exit) 0.00
  ∧ halftime_index_of Scenario.late_check
      (smooth_series 0.25 None (prices_of Scenario.spike)) = 2%Z
  ∧ let e := Scenario.spike_exit in
    peak_drop default_params (exit_max_gain e) (exit_gain e) = true
    ∧ retracement default_params (exit_max_gain e) (exit_gain e) = true
    ∧ stagnation Scenario.late_check 0.30 2 (exit_idx e) (exit_smooth e)
      = true.
Proof. repeat split; vm_compute; reflexivity. Qed.

End ExitOrder.

(** ** Pairing *)

Section Pairing.

Import Batch.
Local Open Scope Q_scope.

Abbreviation key := Py.rsplit_dash_head.

Lemma has_key_eq (k f : string) : has_key k f = true ↔ key f = k.
Proof. apply String.eqb_eq. Qed.

Lemma in_keys (games : list (string * list string)) (k : string) :
  In k games.*1 ↔ ∃ fs, In (k, fs) games.
Proof.
  rewrite <- list_elem_of_In, list_elem_of_fmap. split.
  - intros ([k0 fs] & -> & Hin). exists fs. apply list_elem_of_In, Hin.
  - intros (fs & Hin). exists (k, fs). split; [reflexivity|].
    apply list_elem_of_In, Hin.
Qed.

Lemma filter_nil {A : Type} (p : A → bool) (l : list A) :
  (∀ x, In x l → p x = false) → List.filter p l = [].
Proof.
  induction l as [|a l IH]; intros H; [reflexivity|]. simpl.
  rewrite (H a) by (left; reflexivity). apply IH.
  intros x Hx. apply H. right. exact Hx.
Qed.

Lemma filter_snoc_key (k f : string) (files : list string) :
  List.filter (has_key k) (files ++ [f])
  = if String.eqb (key f) k then List.filter (has_key k) files ++ [f]
    else List.filter (has_key k) files.
Proof.
  rewrite List.filter_app. simpl. unfold has_key at 2.
  destruct (String.eqb (key f) k); [reflexivity | apply app_nil_r].
Qed.

(** *** The dictionary built by [setdefault] *)

Lemma setdefault_append_keys (k' f : string)
    (games : list (string * list string)) (k : string) :
  In k (setdefault_append k' f games).*1 ↔ k = k' ∨ In k games.*1.
Proof.
  induction games as [|[k0 fs] games IH]; simpl.
  - split; [intros [H|[]] | intros [H|[]]]; auto.
  - destruct (String.eqb k0 k') eqn:E; simpl.
    + apply String.eqb_eq in E. subst k0. intuition congruence.
    + rewrite IH. intuition congruence.
Qed.

Lemma setdefault_append_nodup (k' f : string)
    (games : list (string * list string)) :
  NoDup games.*1 → NoDup (setdefault_append k' f games).*1.
Proof.
  induction games as [|[k0 fs] games IH]; simpl; intros Hnd.
  - apply NoDup_singleton.
  - apply NoDup_cons in Hnd as [Hfresh Hnd].
    destruct (String.eqb k0 k') eqn:E; simpl.
    + apply NoDup_cons. auto.
    + apply NoDup_cons. split; [|apply IH, Hnd].
      rewrite list_elem_of_In, setdefault_append_keys.
      intros [->|Hin].
      * rewrite String.eqb_refl in E. discriminate.
      * apply Hfresh, list_elem_of_In, Hin.
Qed.

(** An entry of the dictionary after [setdefault(k', []).append(f)]: an
    entry of another key unchanged, or the entry of [k'] with [f] added,
    or a new entry for [k']. *)
Lemma setdefault_append_entry (k' f : string)
    (games : list (string * list string)) :
  NoDup games.*1 →
  ∀ k fs,
    In (k, fs) (setdefault_append k' f games) →
    (k ≠ k' ∧ In (k, fs) games)
    ∨ (k = k'
       ∧ ((∃ fs0, In (k', fs0) games ∧ fs = fs0 ++ [f])
          ∨ (¬ In k' games.*1 ∧ fs = [f]))).
Proof.
  induction games as [|[k0 fs0] games IH]; simpl; intros Hnd k fs Hin.
  - destruct Hin as [Heq|[]]. injection Heq as <- <-. right. tauto.
  - apply NoDup_cons in Hnd as [Hfresh Hnd].
    rewrite list_elem_of_In in Hfresh.
    destruct (String.eqb k0 k') eqn:E.
    + apply String.eqb_eq in E. subst k0. destruct Hin as [Heq|Hin].
      * injection Heq as <- <-. right. split; [reflexivity|]. left. eauto.
      * left. split; [|auto]. intros ->. apply Hfresh, in_keys. eauto.
    + assert (k0 ≠ k') as Hne
        by (intros ->; rewrite String.eqb_refl in E; discriminate).
      destruct Hin as [Heq|Hin].
      * injection Heq as <- <-. left. auto.
      * destruct (IH Hnd k fs Hin) as [[Hk Hg]|[-> [(fs1 & Hg & ->)|[Hno ->]]]].
        -- left. auto.
        -- right. split; [reflexivity|]. left. eauto.
        -- right. split; [reflexivity|]. right. split; [|reflexivity].
           intros [Heq|Hg]; [congruence | contradiction].
Qed.

(** Every entry lists, in order, the files met so far that have its key;
    no key appears twice; every file met has its key in the dictionary. *)
Lemma group_games_grouped (files : list string) :
  grouped files (group_games files).
Proof.
  unfold group_games.
  induction files as [|f files IH] using rev_ind.
  { repeat split; [apply NoDup_nil_2 | intros k fs [] | intros f []]. }
  rewrite foldl_app. cbn [foldl].
  set (games := foldl _ [] files) in *.
  destruct IH as (Hnd & Hent & Hall).
  split; [apply setdefault_append_nodup, Hnd|]. split.
  - intros k fs Hin. rewrite filter_snoc_key.
    apply setdefault_append_entry in Hin
      as [[Hk Hg]|[-> [(fs0 & Hg & ->)|[Hno ->]]]]; [| | |exact Hnd].
    + destruct (String.eqb (key f) k) eqn:E; [|apply Hent, Hg].
      apply String.eqb_eq in E. congruence.
    + rewrite String.eqb_refl. f_equal. apply Hent, Hg.
    + rewrite String.eqb_refl.
      rewrite filter_nil; [reflexivity|]. intros x Hx.
      destruct (has_key (key f) x) eqn:E; [|reflexivity].
      apply has_key_eq in E. exfalso. apply Hno. rewrite <- E. apply Hall, Hx.
  - intros x Hx. apply setdefault_append_keys.
    apply in_app_or in Hx as [Hx|[->|[]]]; [right; apply Hall, Hx | left; reflexivity].
Qed.

(** *** Which entries are kept *)

Abbreviation json_names folder :=
  (List.filter (fun f => Py.endswith f ".json") folder.*1).

(** The pairs are the keys with exactly two files, each with the files of
    its key. *)
Lemma get_game_pairs_iff (folder : directory) (k : string) (fs : list string) :
  In (k, fs) (get_game_pairs folder)
  ↔ fs = files_of_key k folder ∧ length fs = 2%nat.
Proof.
  unfold get_game_pairs, files_of_key.
  destruct (group_games_grouped (json_names folder)) as (Hnd & Hent & Hall).
  rewrite List.filter_In. simpl. rewrite Nat.eqb_eq. split.
  - intros [Hin Hlen]. split; [apply Hent, Hin | exact Hlen].
  - intros [-> Hlen]. split; [|exact Hlen].
    destruct (List.filter (has_key k) (json_names folder)) as [|f l] eqn:Hfil;
      [discriminate|].
    assert (In f (f :: l)) as Hf by (left; reflexivity).
    rewrite <- Hfil in Hf. apply List.filter_In in Hf as [Hf Hk].
    apply has_key_eq in Hk. apply Hall in Hf. rewrite Hk in Hf.
    apply in_keys in Hf as (fs & Hin).
    rewrite <- Hfil, <- (Hent k fs Hin). exact Hin.
Qed.

(** *** A folder without the files of one key *)

Abbreviation keep_others k :=
  (List.filter (fun kv : string * list string => negb (String.eqb kv.1 k))).

Lemma keep_others_same_key (k f : string)
    (games : list (string * list string)) :
  keep_others k (setdefault_append k f games) = keep_others k games.
Proof.
  induction games as [|[k0 fs] games IH]; simpl.
  - rewrite String.eqb_refl. reflexivity.
  - destruct (String.eqb k0 k) eqn:E; simpl; rewrite E; simpl;
      [reflexivity | f_equal; apply IH].
Qed.

Lemma keep_others_other_key (k k' f : string)
    (games : list (string * list string)) :
  k' ≠ k →
  keep_others k (setdefault_append k' f games)
  = setdefault_append k' f (keep_others k games).
Proof.
  intros Hne. apply String.eqb_neq in Hne.
  induction games as [|[k0 fs] games IH]; simpl.
  - rewrite Hne. reflexivity.
  - destruct (String.eqb k0 k') eqn:E; simpl.
    + apply String.eqb_eq in E. subst k0. rewrite Hne. simpl.
      rewrite String.eqb_refl. reflexivity.
    + destruct (String.eqb k0 k); simpl; [apply IH|].
      rewrite E. f_equal. apply IH.
Qed.

Lemma group_games_without (k : string) (files : list string) :
  group_games (List.filter (fun f => negb (has_key k f)) files)
  = keep_others k (group_games files).
Proof.
  unfold group_games.
  induction files as [|f files IH] using rev_ind; [reflexivity|].
  rewrite List.filter_app, !foldl_app. cbn [foldl List.filter].
  destruct (has_key k f) eqn:E; simpl.
  - apply has_key_eq in E. rewrite E, keep_others_same_key. exact IH.
  - rewrite keep_others_other_key; [rewrite <- IH; reflexivity|].
    intros Hk. apply has_key_eq in Hk. congruence.
Qed.

Lemma json_names_without (k : string) (folder : directory) :
  json_names (without_key k folder)
  = List.filter (fun f => negb (has_key k f)) (json_names folder).
Proof.
  unfold without_key.
  induction folder as [|[f c] folder IH]; [reflexivity|]. simpl in *.
  destruct (has_key k f) eqn:Ek; destruct (Py.endswith f ".json") eqn:Ej;
    simpl; rewrite ?Ek, ?Ej; simpl; first [exact IH | f_equal; exact IH].
Qed.

Lemma get_game_pairs_without (k : string) (folder : directory) :
  length (files_of_key k folder) ≠ 2%nat →
  get_game_pairs (without_key k folder) = get_game_pairs folder.
Proof.
  intros Hcount. unfold get_game_pairs.
  rewrite json_names_without, group_games_without.
  destruct (group_games_grouped (json_names folder)) as (_ & Hent & _).
  revert Hent. generalize (group_games (json_names folder)) as games.
  induction games as [|[k0 fs] games IH]; intros Hent; [reflexivity|].
  assert (∀ k1 fs1, In (k1, fs1) games →
                    fs1 = List.filter (has_key k1) (json_names folder))
    as Htail by (intros k1 fs1 Hin; apply Hent; right; exact Hin).
  simpl. destruct (String.eqb k0 k) eqn:E; simpl.
  - apply String.eqb_eq in E. subst k0.
    assert (fs = files_of_key k folder) as ->
      by (apply Hent; left; reflexivity).
    apply Nat.eqb_neq in Hcount. rewrite Hcount. apply IH, Htail.
  - destruct (length fs =? 2)%nat; [f_equal|]; apply IH, Htail.
Qed.

Lemma json_load_without (k f : string) (folder : directory) :
  has_key k f = false →
  json_load (without_key k folder) f = json_load folder f.
Proof.
  intros Hf. unfold json_load, without_key.
  assert ((list_to_map
             (List.filter (fun f0 : string * file_content =>
                             negb (has_key k f0.1)) folder)
           : gmap string file_content) !! f
          = (list_to_map folder : gmap string file_content) !! f) as ->;
    [|reflexivity].
  induction folder as [|[f0 c] folder IH]; [reflexivity|]. simpl.
  destruct (has_key k f0) eqn:E; simpl.
  - rewrite lookup_insert_ne; [exact IH | congruence].
  - destruct (decide (f0 = f)) as [->|Hne].
    + rewrite !lookup_insert_eq. reflexivity.
    + rewrite !lookup_insert_ne by exact Hne. exact IH.
Qed.

Lemma for_each_ext {A S : Type} (body body' : S → A → Py.result S)
    (l : list A) :
  (∀ s a, In a l → body s a = body' s a) →
  ∀ s, Py.for_each body s l = Py.for_each body' s l.
Proof.
  induction l as [|a l IH]; intros Hext s; [reflexivity|]. simpl.
  rewrite (Hext s a) by (left; reflexivity).
  destruct (body' s a) as [s'|e]; simpl; [|reflexivity].
  apply IH. intros s0 a0 Hin. apply Hext. right. exact Hin.
Qed.

Lemma play_week_without (P : params) (k : string) (folder : directory)
    (bankroll : Q) (week_name : string) :
  length (files_of_key k folder) ≠ 2%nat →
  play_week P bankroll (week_name, Dir (without_key k folder))
  = play_week P bankroll (week_name, Dir folder).
Proof.
  intros Hcount. unfold play_week. simpl.
  rewrite get_game_pairs_without by exact Hcount.
  apply for_each_ext. intros b [k0 fs] Hin.
  apply get_game_pairs_iff in Hin as [-> Hlen].
  unfold play_game. simpl. f_equal.
  apply for_each_ext. intros gp f Hf.
  rewrite json_load_without; [reflexivity|].
  apply List.filter_In in Hf as [_ Hk]. apply has_key_eq in Hk.
  destruct (has_key k f) eqn:E; [|reflexivity].
  apply has_key_eq in E. exfalso. apply Hcount. congruence.
Qed.

(** *** The whole archive *)

Lemma insert_sorted_map {A : Type} (name : A → string) (h : A → A) (x : A)
    (l : list A) :
  (∀ a, name (h a) = name a) →
  Py.insert_sorted name (h x) (map h l) = map h (Py.insert_sorted name x l).
Proof.
  intros Hname. induction l as [|y l IH]; [reflexivity|]. simpl.
  rewrite !Hname. destruct (String.ltb (name x) (name y)); [reflexivity|].
  simpl. f_equal. apply IH.
Qed.

Lemma sorted_by_map {A : Type} (name : A → string) (h : A → A) (l : list A) :
  (∀ a, name (h a) = name a) →
  Py.sorted_by name (map h l) = map h (Py.sorted_by name l).
Proof.
  intros Hname. unfold Py.sorted_by.
  change (@nil A) with (map h []) at 1. generalize (@nil A) as acc.
  induction l as [|x l IH]; intros acc; [reflexivity|]. simpl.
  rewrite insert_sorted_map by exact Hname. apply IH.
Qed.

Lemma for_each_map {A S : Type} (body : S → A → Py.result S) (h : A → A)
    (l : list A) :
  (∀ s a, body s (h a) = body s a) →
  ∀ s, Py.for_each body s (map h l) = Py.for_each body s l.
Proof.
  intros Hbody. induction l as [|a l IH]; intros s; [reflexivity|]. simpl.
  rewrite Hbody. destruct (body s a) as [s'|e]; simpl; [apply IH | reflexivity].
Qed.

Lemma play_week_drop_unpaired (P : params) (k : string) (bankroll : Q)
    (week : string * node) :
  play_week P bankroll (drop_unpaired k week) = play_week P bankroll week.
Proof.
  destruct week as [week_name [|folder]]; [reflexivity|].
  unfold drop_unpaired. simpl.
  destruct (length (files_of_key k folder) =? 2)%nat eqn:E; [reflexivity|].
  apply Nat.eqb_neq in E. apply play_week_without, E.
Qed.

(** C9.  In a week directory the games simulated are the keys that exactly
    two [.json] files share, each with those two files.  A key with one,
    three or more files has no game, and the week changes the bankroll as
    it does when the files of that key are not in the directory: their
    contribution is zero and they are never opened.  So the result of the
    run is the one of the archive in which the files of such a key are left
    out of every week. *)
Theorem only_pairs_are_simulated (P : params) :
  (∀ folder k fs,
     In (k, fs) (get_game_pairs folder)
     ↔ fs = files_of_key k folder ∧ length fs = 2%nat)
  ∧ (∀ folder k,
       length (files_of_key k folder) ≠ 2%nat →
       (∀ fs, ¬ In (k, fs) (get_game_pairs folder))
       ∧ ∀ bankroll week_name,
           play_week P bankroll (week_name, Dir folder)
           = play_week P bankroll (week_name, Dir (without_key k folder)))
  ∧ (∀ k filter_folder,
       run_simulation P (map (drop_unpaired k) filter_folder)
       = run_simulation P filter_folder).
Proof.
  split; [apply get_game_pairs_iff|]. split.
  - intros folder k Hcount. split.
    + intros fs Hin. apply get_game_pairs_iff in Hin as [-> Hlen]. auto.
    + intros bankroll week_name. symmetry. apply play_week_without, Hcount.
  - intros k filter_folder. unfold run_simulation.
    rewrite sorted_by_map.
    + apply for_each_map. intros b week. apply play_week_drop_unpaired.
    + intros [week_name [|folder]]; [reflexivity|]. unfold drop_unpaired. simpl.
      destruct (_ =? _)%nat; reflexivity.
Qed.

(** Three files share the key of the first game of [crowded_week], one of
    them unparseable; the week is played as if they were not there. *)
Lemma only_pairs_are_simulated_witness :
  files_of_key "KXGAME-25SEP07" Scenario.crowded_week
    = ["KXGAME-25SEP07-DAL.json"; "KXGAME-25SEP07-PHI.json";
       "KXGAME-25SEP07-TIE.json"]
  ∧ (∀ fs, ¬ In ("KXGAME-25SEP07", fs) (get_game_pairs Scenario.crowded_week))
  ∧ ∀ bankroll week_name,
      play_week default_params bankroll
        (week_name, Dir Scenario.crowded_week)
      = play_week default_params bankroll
          (week_name,
           Dir [("KXGAME-25SEP08-KC.json", Parsed Scenario.flat);
                ("KXGAME-25SEP08-LAC.json", Parsed Scenario.rally)]).
Proof.
  split; [reflexivity|].
  destruct (only_pairs_are_simulated default_params) as (_ & Hodd & _).
  apply (Hodd Scenario.crowded_week "KXGAME-25SEP07"). vm_compute. lia.
Defined.

(** The bankroll after that week alone: the start of 20, nothing for the
    flat market, 2 for the rally. *)
Lemma crowded_week_bankroll :
  run_simulation default_params [("week1", Dir Scenario.crowded_week)]
  = Py.Ok (132000000 # 6000000)
  ∧ (132000000 # 6000000) == 22.
Proof. split; [vm_compute; reflexivity | reflexivity]. Qed.

End Pairing.

(** * Further properties of the code *)

(** ** The ways out of [simulate_position] *)

Section WaysOut.

Import Batch.
Local Open Scope Q_scope.

Lemma first_defined_rev_valid (prices : list (option Q)) :
  Py.first_defined (rev prices) = last (valid_prices prices).
Proof.
  unfold valid_prices.
  induction prices as [|p prices IH] using rev_ind; [reflexivity|].
  rewrite rev_unit, omap_app. destruct p as [p|]; simpl.
  - rewrite last_snoc. reflexivity.
  - rewrite app_nil_r. exact IH.
Qed.

Lemma valid_prices_nil (data : list entry) :
  valid_prices (prices_of data) = []
  ↔ Forall (fun e => price_cents e = None) data.
Proof.
  unfold valid_prices, prices_of.
  induction data as [|e data IH]; simpl.
  - split; [constructor | reflexivity].
  - destruct (price_cents e) as [c|] eqn:Hc; simpl.
    + split; [discriminate|]. intros H. inversion H. congruence.
    + rewrite IH. split; [constructor; assumption|].
      intros H. inversion H. assumption.
Qed.

(** X2.  Entry is decided on the first non-null raw price, whatever the
    smoothing: a series without any price returns by the first [return
    0.0]; otherwise the start price is the first raw price, and the position
    is opened iff that price is in the band.  The test [start_price is
    None] of the second [return 0.0] never holds. *)
Theorem entry_on_first_raw_price (P : params) (data : list entry) :
  match Py.first_defined (prices_of data) with
  | None =>
      Forall (fun e => price_cents e = None) data
      ∧ run_position P data = NoValidPrice
  | Some p =>
      if in_band P p
      then ∃ ex sell_price, run_position P data = Closed p ex sell_price
      else run_position P data = NotEntered (Some p)
  end
  ∧ run_position P data ≠ NotEntered None.
Proof.
  assert (match Py.first_defined (prices_of data) with
          | None =>
              Forall (fun e => price_cents e = None) data
              ∧ run_position P data = NoValidPrice
          | Some p =>
              if in_band P p
              then ∃ ex sell_price, run_position P data = Closed p ex sell_price
              else run_position P data = NotEntered (Some p)
          end) as Hcases.
  { destruct (Py.first_defined (prices_of data)) as [p|] eqn:Hfirst.
    - apply run_position_entry. rewrite first_smoothed. exact Hfirst.
    - rewrite first_defined_valid in Hfirst.
      assert (valid_prices (prices_of data) = []) as Hnil
        by (destruct (valid_prices (prices_of data)); [reflexivity | discriminate]).
      split; [apply valid_prices_nil, Hnil|].
      unfold run_position. rewrite Hnil. reflexivity. }
  split; [exact Hcases|].
  destruct (Py.first_defined (prices_of data)) as [p|].
  - destruct (in_band P p); [destruct Hcases as (ex & sell & ->)|rewrite Hcases];
      discriminate.
  - destruct Hcases as [_ ->]. discriminate.
Qed.

Lemma closed_without_exit (P : params) (data : list entry)
    (start_price sell_price : Q) :
  run_position P data = Closed start_price None sell_price →
  last (valid_prices (prices_of data)) = Some sell_price.
Proof.
  intros Hrun.
  apply run_position_closed in Hrun as (Hfirst & _ & _ & ->).
  rewrite first_smoothed, first_defined_valid in Hfirst.
  rewrite first_defined_rev_valid.
  destruct (valid_prices (prices_of data)) as [|p l] eqn:Hv using rev_ind;
    [discriminate|].
  rewrite last_snoc. reflexivity.
Qed.

(** X3.  A position that reaches the end of the series without an exit is
    closed at the last non-null raw price of the series; the fallback to
    [start_price] in [next(..., start_price)] is never taken. *)
Theorem force_close_at_last_raw_price (P : params) (data : list entry)
    (start_price sell_price : Q) :
  run_position P data = Closed start_price None sell_price →
  last (valid_prices (prices_of data)) = Some sell_price
  ∧ Py.first_defined (rev (prices_of data)) = Some sell_price.
Proof.
  intros Hrun. apply closed_without_exit in Hrun.
  rewrite first_defined_rev_valid. auto.
Qed.

Lemma force_close_at_last_raw_price_witness :
  last (valid_prices (prices_of Scenario.rally)) = Some 0.60
  ∧ Py.first_defined (rev (prices_of Scenario.rally)) = Some 0.60.
Proof.
  apply (force_close_at_last_raw_price default_params Scenario.rally 0.30 0.60).
  vm_compute. reflexivity.
Defined.


Lemma start_price_is_raw (P : params) (data : list entry)
    (start_price : Q) (ex : option exit_event) (sell_price : Q) :
  run_position P data = Closed start_price ex sell_price →
  start_price ∈ valid_prices (prices_of data).
Proof.
  intros Hrun. apply run_position_closed in Hrun as (Hfirst & _).
  rewrite first_smoothed, first_defined_valid in Hfirst.
  destruct (valid_prices (prices_of data)); [discriminate|].
  injection Hfirst as ->. set_solver.
Qed.




End WaysOut.

(** ** The exit loop, tick by tick *)

Section ExitLoopTicks.

Import Batch.
Local Open Scope Q_scope.

Variable P : params.
Variables (start_price : Q) (halftime_index : Z).

Lemma py_max_ge (a b : Q) : a <= Py.max a b ∧ b <= Py.max a b.
Proof.
  unfold Py.max. destruct (Py.ltb a b) eqn:E.
  - apply ltb_lt in E. split; lra.
  - apply ltb_ge in E. split; lra.
Qed.

Lemma py_max_cases (a b : Q) : Py.max a b = a ∨ Py.max a b = b.
Proof. unfold Py.max. destruct (Py.ltb a b); auto. Qed.

(** X5.  Peak tracking.  The [max_gain] of an exit is not below the
    [max_gain] the loop was entered with, not below the gain of the exit
    tick, and it is that initial value or the gain of a tick up to the
    exit. *)
Theorem max_gain_is_running_peak (smoothed_full prices : list (option Q))
    (idx : nat) (max_gain : Q) (e : exit_event) :
  exit_loop P start_price halftime_index idx max_gain smoothed_full prices
    = Some e →
  max_gain <= exit_max_gain e
  ∧ exit_gain e <= exit_max_gain e
  ∧ (exit_max_gain e = max_gain
     ∨ ∃ j s, (idx + j <= exit_idx e)%nat
              ∧ smoothed_full !! j = Some (Some s)
              ∧ exit_max_gain e = s - start_price).
Proof.
  revert prices idx max_gain.
  induction smoothed_full as [|sp smoothed' IH];
    intros [|rp prices'] idx max_gain He; try discriminate.
  simpl in He.
  assert (∀ mg,
            (mg = max_gain
             ∨ ∃ s, sp = Some s ∧ mg = s - start_price) →
            max_gain <= mg →
            exit_loop P start_price halftime_index (S idx) mg smoothed' prices'
              = Some e →
            max_gain <= exit_max_gain e
            ∧ exit_gain e <= exit_max_gain e
            ∧ (exit_max_gain e = max_gain
               ∨ ∃ j s, (idx + j <= exit_idx e)%nat
                        ∧ (sp :: smoothed') !! j = Some (Some s)
                        ∧ exit_max_gain e = s - start_price)) as Hnext.
  { intros mg Hmg Hle Hrec.
    pose proof Hrec as Hidx.
    apply exit_loop_inv in Hidx as (k & Hk & _).
    destruct (IH _ _ _ Hrec) as (H1 & H2 & H3).
    split; [lra|]. split; [exact H2|].
    destruct H3 as [H3|(j & s & Hj & Hs & Hm)].
    - rewrite H3. destruct Hmg as [->|(s & -> & ->)]; [left; reflexivity|].
      right. exists 0%nat, s. split; [lia|]. split; reflexivity.
    - right. exists (S j), s. split; [lia|]. split; assumption. }
  destruct sp as [smooth_price|];
    [|destruct rp; apply (Hnext max_gain); auto; lra].
  destruct rp as [real_price|]; [|apply (Hnext max_gain); auto; lra].
  set (gain := smooth_price - start_price) in *.
  pose proof (py_max_ge max_gain gain) as [Hge1 Hge2].
  assert (Py.max max_gain gain = max_gain
          ∨ ∃ s, Some smooth_price = Some s
                 ∧ Py.max max_gain gain = s - start_price) as Hcases.
  { destruct (py_max_cases max_gain gain) as [Hc|Hc]; [left; exact Hc|].
    right. exists smooth_price. split; [reflexivity | exact Hc]. }
  assert (∀ t,
            e = {| exit_trigger := t; exit_idx := idx;
                   exit_smooth := smooth_price; exit_gain := gain;
                   exit_max_gain := Py.max max_gain gain;
                   exit_price := real_price |} →
            max_gain <= exit_max_gain e
            ∧ exit_gain e <= exit_max_gain e
            ∧ (exit_max_gain e = max_gain
               ∨ ∃ j s, (idx + j <= exit_idx e)%nat
                        ∧ (Some smooth_price :: smoothed') !! j = Some (Some s)
                        ∧ exit_max_gain e = s - start_price)) as Hhere.
  { intros t ->. simpl. split; [exact Hge1|]. split; [exact Hge2|].
    destruct Hcases as [Hc|(s & Hs & Hc)]; [left; exact Hc|].
    right. exists 0%nat, s. split; [lia|].
    split; [simpl; congruence | exact Hc]. }
  destruct (peak_drop P _ gain); [injection He as <-; eapply Hhere; reflexivity|].
  destruct (retracement P _ gain);
    [injection He as <-; eapply Hhere; reflexivity|].
  destruct (stagnation P _ _ _ _);
    [injection He as <-; eapply Hhere; reflexivity|].
  apply (Hnext (Py.max max_gain gain)); [exact Hcases | exact Hge1 | exact He].
Qed.

(** X6.  The exit is causal.  What [exit_loop] returns is decided by the
    ticks up to the exit: on every shorter prefix of the series the loop
    ends without an exit, and the exit is the same whatever follows its
    tick. *)
Theorem exit_decided_by_prefix (smoothed_full prices : list (option Q))
    (idx : nat) (max_gain : Q) (e : exit_event) :
  exit_loop P start_price halftime_index idx max_gain smoothed_full prices
    = Some e →
  let k := (exit_idx e - idx)%nat in
  (∀ j, (j <= k)%nat →
        exit_loop P start_price halftime_index idx max_gain
          (take j smoothed_full) (take j prices) = None)
  ∧ (∀ smoothed' prices',
       exit_loop P start_price halftime_index idx max_gain
         (take (S k) smoothed_full ++ smoothed')
         (take (S k) prices ++ prices') = Some e).
Proof.
  revert prices idx max_gain.
  induction smoothed_full as [|sp smoothed_tl IH];
    intros [|rp prices_tl] idx max_gain He; try discriminate.
  pose proof He as Hidx. apply exit_loop_inv in Hidx as (k0 & Hk0 & _).
  simpl in He. cbv zeta.
  assert (∀ mg,
            exit_loop P start_price halftime_index (S idx) mg smoothed_tl
              prices_tl = Some e →
            ∃ k', (exit_idx e - idx)%nat = S k'
                  ∧ (∀ j, (j <= k')%nat →
                          exit_loop P start_price halftime_index (S idx) mg
                            (take j smoothed_tl) (take j prices_tl) = None)
                  ∧ (∀ smoothed' prices',
                       exit_loop P start_price halftime_index (S idx) mg
                         (take (S k') smoothed_tl ++ smoothed')
                         (take (S k') prices_tl ++ prices') = Some e))
    as Hnext.
  { intros mg Hrec. pose proof Hrec as Hi.
    apply exit_loop_inv in Hi as (k1 & Hk1 & _).
    exists (exit_idx e - S idx)%nat. split; [lia|]. apply (IH _ _ _ Hrec). }
  assert (∀ t smooth_price real_price mg gain,
            e = {| exit_trigger := t; exit_idx := idx;
                   exit_smooth := smooth_price; exit_gain := gain;
                   exit_max_gain := mg; exit_price := real_price |} →
            (exit_idx e - idx)%nat = 0%nat) as Hhere
    by (intros; subst e; simpl; lia).
  destruct sp as [smooth_price|]; [destruct rp as [real_price|]|].
  - set (gain := smooth_price - start_price) in *.
    set (mg := Py.max max_gain gain) in *.
    destruct (peak_drop P mg gain) eqn:Hpd.
    { injection He as <-. simpl. rewrite Nat.sub_diag. split.
      - intros j Hj. assert (j = 0%nat) as -> by lia. reflexivity.
      - intros sm' pr'. simpl. fold gain. fold mg. rewrite Hpd. reflexivity. }
    destruct (retracement P mg gain) eqn:Hre.
    { injection He as <-. simpl. rewrite Nat.sub_diag. split.
      - intros j Hj. assert (j = 0%nat) as -> by lia. reflexivity.
      - intros sm' pr'. simpl. fold gain. fold mg. rewrite Hpd, Hre.
        reflexivity. }
    destruct (stagnation P start_price halftime_index idx smooth_price) eqn:Hsg.
    { injection He as <-. simpl. rewrite Nat.sub_diag. split.
      - intros j Hj. assert (j = 0%nat) as -> by lia. reflexivity.
      - intros sm' pr'. simpl. fold gain. fold mg. rewrite Hpd, Hre, Hsg.
        reflexivity. }
    destruct (Hnext mg He) as (k' & -> & Hnone & Hsome). split.
    + intros [|j] Hj; [reflexivity|]. simpl. fold gain. fold mg.
      rewrite Hpd, Hre, Hsg. apply Hnone. lia.
    + intros sm' pr'. simpl. fold gain. fold mg. rewrite Hpd, Hre, Hsg.
      apply Hsome.
  - destruct (Hnext max_gain He) as (k' & -> & Hnone & Hsome). split.
    + intros [|j] Hj; [reflexivity|]. simpl. apply Hnone. lia.
    + intros sm' pr'. simpl. apply Hsome.
  - assert (exit_loop P start_price halftime_index (S idx) max_gain smoothed_tl
              prices_tl = Some e) as He' by (destruct rp; exact He).
    destruct (Hnext max_gain He') as (k' & -> & Hnone & Hsome). split.
    + intros [|j] Hj; [reflexivity|]. simpl.
      destruct rp; apply Hnone; lia.
    + intros sm' pr'. simpl. destruct rp; apply Hsome.
Qed.

End ExitLoopTicks.

Lemma max_gain_is_running_peak_witness :
  let e := Scenario.spike_exit in
  (0 <= Batch.exit_max_gain e)%Q
  ∧ (Batch.exit_gain e <= Batch.exit_max_gain e)%Q
  ∧ (Batch.exit_max_gain e = 0%Q
     ∨ ∃ j s, (0 + j <= Batch.exit_idx e)%nat
              ∧ Batch.smooth_series 0.25 None (Batch.prices_of Scenario.spike)
                  !! j = Some (Some s)
              ∧ Batch.exit_max_gain e = (s - 0.30)%Q).
Proof.
  apply (max_gain_is_running_peak Batch.default_params 0.30 3
           (Batch.smooth_series 0.25 None (Batch.prices_of Scenario.spike))
           (Batch.prices_of Scenario.spike) 0 0 Scenario.spike_exit).
  vm_compute. reflexivity.
Defined.

Lemma exit_decided_by_prefix_witness :
  let sm := Batch.smooth_series 0.25 None (Batch.prices_of Scenario.spike) in
  let pr := Batch.prices_of Scenario.spike in
  (∀ j, (j <= 2)%nat →
        Batch.exit_loop Batch.default_params 0.30 3 0 0 (take j sm) (take j pr)
        = None)
  ∧ (∀ smoothed' prices',
       Batch.exit_loop Batch.default_params 0.30 3 0 0
         (take 3 sm ++ smoothed') (take 3 pr ++ prices')
       = Some Scenario.spike_exit).
Proof.
  apply (exit_decided_by_prefix Batch.default_params 0.30 3
           (Batch.smooth_series 0.25 None (Batch.prices_of Scenario.spike))
           (Batch.prices_of Scenario.spike) 0 0 Scenario.spike_exit).
  vm_compute. reflexivity.
Defined.

(** ** The run over the archive *)

Section Archive.

Import Batch.
Local Open Scope Q_scope.

(** *** The order of the listing *)

Lemma ltb_lts (s1 s2 : string) :
  String.ltb s1 s2 = true ↔ OrderedTypeEx.String_as_OT.lt s1 s2.
Proof.
  rewrite <- OrderedTypeEx.String_as_OT.cmp_lt.
  unfold String.ltb, OrderedTypeEx.String_as_OT.cmp.
  destruct (String.compare s1 s2); simpl; split; intros H;
    first [reflexivity | discriminate H].
Qed.

Lemma ltb_trans (s1 s2 s3 : string) :
  String.ltb s1 s2 = true → String.ltb s2 s3 = true → String.ltb s1 s3 = true.
Proof.
  rewrite !ltb_lts. apply OrderedTypeEx.String_as_OT.lt_trans.
Qed.

Lemma ltb_asym (s1 s2 : string) :
  String.ltb s1 s2 = true → String.ltb s2 s1 = false.
Proof.
  unfold String.ltb. rewrite (String.compare_antisym s2 s1).
  destruct (String.compare s1 s2); simpl; intros H;
    first [reflexivity | discriminate H].
Qed.

Lemma ltb_connected (s1 s2 : string) :
  String.ltb s1 s2 = false → s1 ≠ s2 → String.ltb s2 s1 = true.
Proof.
  unfold String.ltb. rewrite (String.compare_antisym s2 s1).
  destruct (String.compare s1 s2) eqn:E; simpl; intros H Hne;
    first [reflexivity | discriminate H | idtac].
  apply String.compare_eq_iff in E. contradiction.
Qed.

Section Sorting.

Context {A : Type} (name : A → string).

Abbreviation name_lt := (Outcome.name_lt name).
Abbreviation name_le := (Outcome.name_le name).

Lemma insert_sorted_perm (x : A) (l : list A) :
  Py.insert_sorted name x l ≡ₚ x :: l.
Proof.
  induction l as [|y l IH]; [reflexivity|]. simpl.
  destruct (String.ltb (name x) (name y)); [reflexivity|].
  rewrite IH. apply Permutation_swap.
Qed.

Lemma sorted_by_perm (l : list A) : Py.sorted_by name l ≡ₚ l.
Proof.
  unfold Py.sorted_by.
  assert (∀ acc, foldl (fun acc x => Py.insert_sorted name x acc) acc l
                 ≡ₚ acc ++ l) as H; [|apply (H [])].
  induction l as [|x l IH]; intros acc; simpl; [rewrite app_nil_r; reflexivity|].
  rewrite IH, insert_sorted_perm. simpl. apply Permutation_middle.
Qed.

Lemma insert_sorted_sorted (x : A) (l : list A) :
  Sorted name_le l → Sorted name_le (Py.insert_sorted name x l).
Proof.
  induction l as [|y l IH]; intros Hl; simpl.
  - repeat constructor.
  - apply Sorted_inv in Hl as [Hl Hhd].
    destruct (String.ltb (name x) (name y)) eqn:E.
    + constructor; [constructor; assumption|]. constructor.
      unfold Outcome.name_le. apply ltb_asym, E.
    + constructor; [apply IH, Hl|].
      destruct l as [|z l]; simpl.
      * constructor. exact E.
      * destruct (String.ltb (name x) (name z)); constructor;
          [exact E | inversion Hhd; assumption].
Qed.

Lemma sorted_by_sorted (l : list A) : Sorted name_le (Py.sorted_by name l).
Proof.
  unfold Py.sorted_by.
  assert (∀ acc, Sorted name_le acc →
                 Sorted name_le
                   (foldl (fun acc x => Py.insert_sorted name x acc) acc l))
    as H; [|apply H; constructor].
  induction l as [|x l IH]; intros acc Hacc; [exact Hacc|]. simpl.
  apply IH, insert_sorted_sorted, Hacc.
Qed.

Lemma sorted_strict (l : list A) :
  NoDup (name <$> l) → Sorted name_le l → Sorted name_lt l.
Proof.
  induction l as [|x l IH]; intros Hnd Hl; [constructor|].
  rewrite fmap_cons in Hnd. apply NoDup_cons in Hnd as [Hx Hnd].
  apply Sorted_inv in Hl as [Hl Hhd].
  constructor; [apply IH; assumption|].
  destruct Hhd as [|y l' Hxy]; constructor.
  apply ltb_connected; [exact Hxy|].
  intros Heq. apply Hx. rewrite <- Heq. set_solver.
Qed.

#[local] Instance name_lt_trans : Transitive name_lt.
Proof. intros x y z. apply ltb_trans. Qed.

(** Sorting by distinct names forgets the order of the list. *)
Lemma sorted_by_of_permutation (l1 l2 : list A) :
  NoDup (name <$> l1) → l1 ≡ₚ l2 →
  Py.sorted_by name l1 = Py.sorted_by name l2.
Proof.
  intros Hnd Hperm.
  apply (Sorted_unique_strong name_lt).
  - intros x y _ _ Hxy Hyx. apply ltb_asym in Hxy.
    unfold Outcome.name_lt in Hyx. congruence.
  - apply sorted_strict; [|apply sorted_by_sorted].
    rewrite sorted_by_perm. exact Hnd.
  - apply sorted_strict; [|apply sorted_by_sorted].
    rewrite sorted_by_perm, <- Hperm. exact Hnd.
  - rewrite !sorted_by_perm. exact Hperm.
Qed.

Lemma list_filter_perm (p : A → bool) (l l' : list A) :
  l ≡ₚ l' → List.filter p l ≡ₚ List.filter p l'.
Proof.
  induction 1 as [|x l l' _ IH|x y l|l l' l'' _ IH1 _ IH2]; simpl.
  - reflexivity.
  - destruct (p x); [constructor|]; exact IH.
  - destruct (p x), (p y); try reflexivity. apply Permutation_swap.
  - etransitivity; eassumption.
Qed.

Lemma list_filter_strongly_sorted (R : relation A) (p : A → bool) (l : list A) :
  StronglySorted R l → StronglySorted R (List.filter p l).
Proof.
  induction 1 as [|x l Hl IH Hx]; simpl; [constructor|].
  destruct (p x); [|exact IH]. constructor; [exact IH|].
  rewrite Forall_forall in Hx. apply Forall_forall. intros y Hy.
  apply Hx. apply list_elem_of_In. apply list_elem_of_In in Hy.
  apply List.filter_In in Hy as [Hy _]. exact Hy.
Qed.

Lemma list_filter_names_nodup (p : A → bool) (l : list A) :
  NoDup (name <$> l) → NoDup (name <$> List.filter p l).
Proof.
  induction l as [|x l IH]; intros Hnd; [exact Hnd|].
  rewrite fmap_cons in Hnd. apply NoDup_cons in Hnd as [Hx Hnd]. simpl.
  destruct (p x); [|apply IH, Hnd].
  rewrite fmap_cons. apply NoDup_cons. split; [|apply IH, Hnd].
  intros Hin. apply Hx.
  apply list_elem_of_fmap in Hin as (y & Hy & Hin).
  apply list_elem_of_fmap. exists y. split; [exact Hy|].
  apply list_elem_of_In. apply list_elem_of_In in Hin.
  apply List.filter_In in Hin as [Hin _]. exact Hin.
Qed.

(** With distinct names, sorting commutes with leaving elements out. *)
Lemma sorted_by_filter (p : A → bool) (l : list A) :
  NoDup (name <$> l) →
  Py.sorted_by name (List.filter p l) = List.filter p (Py.sorted_by name l).
Proof.
  intros Hnd.
  assert (NoDup (name <$> Py.sorted_by name l)) as Hnd'
    by (rewrite sorted_by_perm; exact Hnd).
  apply (StronglySorted_unique_strong name_lt).
  - intros x y _ _ Hxy Hyx. apply ltb_asym in Hxy.
    unfold Outcome.name_lt in Hyx. congruence.
  - apply Sorted_StronglySorted; [apply _|].
    apply sorted_strict; [|apply sorted_by_sorted].
    rewrite sorted_by_perm. apply list_filter_names_nodup, Hnd.
  - apply list_filter_strongly_sorted.
    apply Sorted_StronglySorted; [apply _|].
    apply sorted_strict; [exact Hnd' | apply sorted_by_sorted].
  - rewrite sorted_by_perm. apply list_filter_perm. symmetry.
    apply sorted_by_perm.
Qed.

End Sorting.

(** X8.  The weeks are played in the order of their names, so the order in
    which [os.listdir] returns the entries of the archive folder does not
    change the result of the run. *)
Theorem listing_order_irrelevant (P : params)
    (listing listing' : list (string * node)) :
  NoDup listing.*1 → listing ≡ₚ listing' →
  run_simulation P listing = run_simulation P listing'.
Proof.
  intros Hnd Hperm. unfold run_simulation.
  rewrite (sorted_by_of_permutation fst listing listing' Hnd Hperm).
  reflexivity.
Qed.

Lemma listing_order_irrelevant_witness :
  run_simulation default_params Scenario2.archive
  = run_simulation default_params Scenario2.archive_listed_otherwise.
Proof.
  apply listing_order_irrelevant.
  - apply (bool_decide_unpack _). vm_compute. exact I.
  - unfold Scenario2.archive, Scenario2.archive_listed_otherwise.
    rewrite (Permutation_swap _ _ [_]). apply Permutation_skip.
    apply Permutation_swap.
Defined.

(** *** What is read *)

Lemma names_of_filter (q q' : string → bool) (folder : directory) :
  List.filter q' (List.filter (fun f => q f.1) folder).*1
  = List.filter q (List.filter q' folder.*1).
Proof.
  induction folder as [|[f c] folder IH]; [reflexivity|]. simpl in *.
  destruct (q f) eqn:Eq, (q' f) eqn:Eq'; simpl; rewrite ?Eq, ?Eq'; simpl;
    first [exact IH | f_equal; exact IH].
Qed.

Lemma filter_idem {A : Type} (q : A → bool) (l : list A) :
  List.filter q (List.filter q l) = List.filter q l.
Proof.
  induction l as [|x l IH]; [reflexivity|]. simpl.
  destruct (q x) eqn:E; simpl; rewrite ?E, IH; reflexivity.
Qed.

Lemma json_load_filter (q : string → bool) (folder : directory) (f : string) :
  q f = true →
  json_load (List.filter (fun x => q x.1) folder) f = json_load folder f.
Proof.
  intros Hf. unfold json_load.
  assert ((list_to_map (List.filter (fun x : string * file_content => q x.1)
                          folder) : gmap string file_content) !! f
          = (list_to_map folder : gmap string file_content) !! f) as ->;
    [|reflexivity].
  induction folder as [|[f0 c] folder IH]; [reflexivity|]. simpl.
  destruct (q f0) eqn:E; simpl.
  - destruct (decide (f0 = f)) as [->|Hne].
    + rewrite !lookup_insert_eq. reflexivity.
    + rewrite !lookup_insert_ne by exact Hne. exact IH.
  - rewrite lookup_insert_ne; [exact IH | congruence].
Qed.

Lemma get_game_pairs_json_only (folder : directory) :
  get_game_pairs (List.filter (fun f => Py.endswith f.1 ".json") folder)
  = get_game_pairs folder.
Proof.
  unfold get_game_pairs.
  rewrite (names_of_filter (fun f => Py.endswith f ".json")), filter_idem.
  reflexivity.
Qed.

Lemma play_week_json_only (P : params) (bankroll : Q) (week : string * node) :
  play_week P bankroll (Outcome.json_only week) = play_week P bankroll week.
Proof.
  destruct week as [week_name [|folder]]; [reflexivity|].
  unfold Outcome.json_only, play_week. cbn [fst snd].
  rewrite get_game_pairs_json_only.
  apply for_each_ext. intros b [k fs] Hin.
  apply get_game_pairs_iff in Hin as [-> _].
  unfold play_game. cbn [fst snd]. f_equal.
  apply for_each_ext. intros gp f Hf.
  rewrite (json_load_filter (fun f => Py.endswith f ".json"));
    [reflexivity|].
  unfold files_of_key in Hf. apply List.filter_In in Hf as [Hf _].
  apply List.filter_In in Hf as [_ Hf]. exact Hf.
Qed.

Lemma for_each_weeks_only (P : params) (weeks : list (string * node)) :
  ∀ bankroll,
    Py.for_each (play_week P) bankroll (List.filter Outcome.is_dir weeks)
    = Py.for_each (play_week P) bankroll weeks.
Proof.
  induction weeks as [|[week_name [|folder]] weeks IH]; intros bankroll;
    [reflexivity| |].
  - simpl. apply IH.
  - simpl. destruct (play_week P bankroll (week_name, Dir folder)); simpl;
      [apply IH | reflexivity].
Qed.

(** X9.  Only the week directories and, in them, the files whose name ends
    in [.json] are read: the run returns the same on the archive from which
    every other entry (the [summary.csv] of the filtering stage, a stray
    file in a week) is taken away. *)
Theorem only_week_directories_are_read (P : params)
    (filter_folder : list (string * node)) :
  NoDup filter_folder.*1 →
  run_simulation P (Outcome.only_weeks filter_folder)
  = run_simulation P filter_folder.
Proof.
  intros Hnd. unfold run_simulation, Outcome.only_weeks.
  rewrite sorted_by_map.
  - rewrite for_each_map by (intros b week; apply play_week_json_only).
    rewrite sorted_by_filter by exact Hnd. apply for_each_weeks_only.
  - intros [week_name [|folder]]; reflexivity.
Qed.

Lemma only_week_directories_are_read_witness :
  run_simulation default_params
    [("week1",
      Dir [("KXGAME-25SEP07-DAL.json", Parsed Scenario.spike);
           ("KXGAME-25SEP07-PHI.json", Parsed Scenario.flat)]);
     ("week2", Dir Scenario2.week2)]
  = run_simulation default_params Scenario2.archive_listed_otherwise.
Proof.
  apply (only_week_directories_are_read default_params
           Scenario2.archive_listed_otherwise).
  apply (bool_decide_unpack _). vm_compute. exact I.
Defined.

(** *** The key of a file name *)

Lemma dash_free_iff (s : string) :
  Outcome.dash_free s ↔ Py.before_last_dash s = None.
Proof.
  unfold Outcome.dash_free. induction s as [|c s IH]; simpl.
  - split; [reflexivity | intros _ H; inversion H].
  - rewrite not_elem_of_cons, IH.
    destruct (Py.before_last_dash s) as [p|].
    + split; [intros [_ H]; discriminate | discriminate].
    + destruct (Ascii.eqb c "-") eqn:E.
      * apply Ascii.eqb_eq in E. split; [intros [H _]; congruence | discriminate].
      * apply Ascii.eqb_neq in E. split; [reflexivity | auto].
Qed.

Lemma before_last_dash_join (k side : string) :
  Outcome.dash_free side →
  Py.before_last_dash (k ++ String "-" side) = Some k.
Proof.
  intros Hside. apply dash_free_iff in Hside.
  induction k as [|c k IH]; simpl; [rewrite Hside|rewrite IH]; reflexivity.
Qed.

(** X10.  The key of a file is its name up to the last ["-"]: a name
    [<key>-<side>] whose side has no ["-"] has the key [<key>] (the
    extension goes with the side), and a name without ["-"] is its own
    key. *)
Theorem key_is_name_before_last_dash :
  (∀ k side,
     Outcome.dash_free side →
     Py.rsplit_dash_head (k ++ String "-" side) = k)
  ∧ (∀ s, Outcome.dash_free s → Py.rsplit_dash_head s = s).
Proof.
  split.
  - intros k side Hside. unfold Py.rsplit_dash_head.
    rewrite before_last_dash_join by exact Hside. reflexivity.
  - intros s Hs. apply dash_free_iff in Hs. unfold Py.rsplit_dash_head.
    rewrite Hs. reflexivity.
Qed.

Lemma key_is_name_before_last_dash_witness :
  Py.rsplit_dash_head "KXGAME-25SEP07-DAL.json" = "KXGAME-25SEP07"
  ∧ Py.rsplit_dash_head "summary.csv" = "summary.csv".
Proof.
  destruct key_is_name_before_last_dash as [Hjoin Hnone]. split.
  - apply (Hjoin "KXGAME-25SEP07" "DAL.json").
    unfold Outcome.dash_free. apply (bool_decide_unpack _). vm_compute. exact I.
  - apply Hnone. unfold Outcome.dash_free.
    apply (bool_decide_unpack _). vm_compute. exact I.
Defined.

End Archive.

(** ** The live runner, turn after turn *)

Section LiveTurns.

Import Live.
Local Open Scope Q_scope.

(** *** One evaluation *)

(** What [evaluate_sells_for_ticker] does, case by case. *)
Lemma evaluate_cases (ticker : string) (st : state) :
  (evaluate_sells_for_ticker ticker st = (st, false)
   ∧ (active_bets st !! ticker = None ∨ smoothed st !! ticker = None))
  ∨ ∃ b current,
      active_bets st !! ticker = Some b
      ∧ smoothed st !! ticker = Some current
      ∧ let gain := current - start_price b in
        let b' := {| stake := stake b; start_price := start_price b;
                     max_gain := Py.max (max_gain b) gain |} in
        let profit := stake b * gain in
        if LiveNotions.sell_test (max_gain b') gain
        then evaluate_sells_for_ticker ticker st
             = ({| smoothed := smoothed st;
                   price_history := price_history st;
                   active_bets := delete ticker (active_bets st);
                   sold_games := <[ticker := profit]> (sold_games st);
                   bankroll := bankroll st + profit;
                   console := console st ++ [Sold ticker current profit] |},
                true)
        else evaluate_sells_for_ticker ticker st
             = ({| smoothed := smoothed st;
                   price_history := price_history st;
                   active_bets := <[ticker := b']> (active_bets st);
                   sold_games := sold_games st;
                   bankroll := bankroll st;
                   console := console st |},
                false).
Proof.
  unfold evaluate_sells_for_ticker.
  destruct (active_bets st !! ticker) as [b|] eqn:Hb; [|left; auto].
  destruct (smoothed st !! ticker) as [current|] eqn:Hc; [|left; auto].
  right. exists b, current. split; [reflexivity|]. split; [reflexivity|].
  cbv zeta. unfold LiveNotions.sell_test, Py.max.
  destruct b as [stk start mg]. simpl.
  destruct (Py.ltb mg (current - start)); simpl;
    destruct (Py.leb GAIN_THRESHOLD _ && Py.ltb (current - start) GAIN_THRESHOLD);
    simpl; try reflexivity;
    destruct (Py.ltb GAIN_THRESHOLD _ && Py.leb (current - start) _);
    reflexivity.
Qed.

Lemma evaluate_keeps_prices (ticker : string) (st : state) :
  smoothed (evaluate_sells_for_ticker ticker st).1 = smoothed st
  ∧ price_history (evaluate_sells_for_ticker ticker st).1 = price_history st.
Proof.
  destruct (evaluate_cases ticker st) as [[-> _]|(b & current & _ & _ & H)];
    [auto|].
  cbv zeta in H. destruct (LiveNotions.sell_test _ _); rewrite H; auto.
Qed.

Lemma evaluate_other (ticker other : string) (st : state) :
  other ≠ ticker →
  active_bets (evaluate_sells_for_ticker ticker st).1 !! other
    = active_bets st !! other
  ∧ sold_games (evaluate_sells_for_ticker ticker st).1 !! other
    = sold_games st !! other.
Proof.
  intros Hne.
  destruct (evaluate_cases ticker st) as [[-> _]|(b & current & _ & _ & H)];
    [auto|].
  cbv zeta in H. destruct (LiveNotions.sell_test _ _); rewrite H; simpl.
  - rewrite lookup_delete_ne, lookup_insert_ne by congruence. auto.
  - rewrite lookup_insert_ne by congruence. auto.
Qed.

Lemma held_before_refl (st : state) : LiveNotions.held_before st st.
Proof. intros t b Hb. exists b. repeat split; [exact Hb | lra]. Qed.

Lemma held_before_trans (st1 st2 st3 : state) :
  LiveNotions.held_before st1 st2 → LiveNotions.held_before st2 st3 →
  LiveNotions.held_before st1 st3.
Proof.
  intros H12 H23 t b3 Hb3.
  destruct (H23 t b3 Hb3) as (b2 & Hb2 & Hs & Hp & Hm).
  destruct (H12 t b2 Hb2) as (b1 & Hb1 & Hs' & Hp' & Hm').
  exists b1. repeat split; [exact Hb1 | congruence | congruence | lra].
Qed.

Lemma evaluate_held_before (ticker : string) (st : state) :
  LiveNotions.held_before st (evaluate_sells_for_ticker ticker st).1.
Proof.
  intros t b' Hb'.
  destruct (decide (t = ticker)) as [->|Hne].
  - destruct (evaluate_cases ticker st) as [[Heq _]|(b & current & Hb & _ & H)].
    + rewrite Heq in Hb'. apply held_before_refl, Hb'.
    + cbv zeta in H. destruct (LiveNotions.sell_test _ _); rewrite H in Hb';
        simpl in Hb'.
      * rewrite lookup_delete_eq in Hb'. discriminate.
      * rewrite lookup_insert_eq in Hb'. injection Hb' as <-.
        exists b. simpl. repeat split; [exact Hb|]. apply py_max_ge.
  - destruct (evaluate_other ticker t st Hne) as [Heq _].
    rewrite Heq in Hb'. apply held_before_refl, Hb'.
Qed.

(** *** One turn *)

Lemma update_ticker_bets (acc : state * list string)
    (f : string * list jline) :
  active_bets (update_ticker acc f).1 = active_bets acc.1
  ∧ sold_games (update_ticker acc f).1 = sold_games acc.1
  ∧ bankroll (update_ticker acc f).1 = bankroll acc.1
  ∧ console (update_ticker acc f).1 = console acc.1.
Proof.
  destruct acc as [st updated], f as [fn file]. unfold update_ticker.
  destruct (negb _); [auto|].
  destruct (load_last_price_from_jsonl file); auto.
Qed.

Lemma update_bets (fs : folder) (st : state) :
  active_bets (update_from_live_files fs st).1 = active_bets st
  ∧ sold_games (update_from_live_files fs st).1 = sold_games st
  ∧ bankroll (update_from_live_files fs st).1 = bankroll st
  ∧ console (update_from_live_files fs st).1 = console st.
Proof.
  unfold update_from_live_files. generalize (@nil string) as updated.
  revert st. induction fs as [|f fs IH]; intros st updated; [auto|].
  cbn [foldl].
  destruct (update_ticker (st, updated) f) as [st1 updated1] eqn:Hstep.
  pose proof (update_ticker_bets (st, updated) f) as Hone.
  rewrite Hstep in Hone. simpl in Hone.
  destruct Hone as (<- & <- & <- & <-). apply IH.
Qed.

Lemma tick_unfold (fs : folder) (st : state) :
  tick fs st
  = LiveNotions.evaluate_all
      (map_to_list (active_bets (update_from_live_files fs st).1)).*1
      ((update_from_live_files fs st).1, false).
Proof. reflexivity. Qed.

Lemma evaluate_all_snoc (tickers : list string) (ticker : string)
    (acc : state * bool) :
  (LiveNotions.evaluate_all (tickers ++ [ticker]) acc).1
  = (evaluate_sells_for_ticker ticker
       (LiveNotions.evaluate_all tickers acc).1).1.
Proof.
  unfold LiveNotions.evaluate_all. rewrite foldl_app. cbn [foldl].
  destruct (foldl _ acc tickers) as [st' flag]. simpl.
  destruct (evaluate_sells_for_ticker ticker st'). reflexivity.
Qed.

(** A property of states kept by every evaluation is kept by a turn's
    evaluations. *)
Lemma evaluate_all_ind (I : state → Prop) (tickers : list string)
    (acc : state * bool) :
  (∀ ticker st, I st → I (evaluate_sells_for_ticker ticker st).1) →
  I acc.1 → I (LiveNotions.evaluate_all tickers acc).1.
Proof.
  intros Hstep Hacc. induction tickers as [|t tickers IH] using rev_ind;
    [exact Hacc|].
  rewrite evaluate_all_snoc. apply Hstep, IH.
Qed.

Lemma evaluate_all_keeps_prices (tickers : list string) (acc : state * bool) :
  smoothed (LiveNotions.evaluate_all tickers acc).1 = smoothed acc.1
  ∧ price_history (LiveNotions.evaluate_all tickers acc).1
    = price_history acc.1.
Proof.
  apply (evaluate_all_ind
           (fun st => smoothed st = smoothed acc.1
                      ∧ price_history st = price_history acc.1));
    [|auto].
  intros t st [Hs Hp].
  destruct (evaluate_keeps_prices t st) as [-> ->]. auto.
Qed.

Lemma evaluate_all_held_before (tickers : list string) (acc : state * bool) :
  LiveNotions.held_before acc.1 (LiveNotions.evaluate_all tickers acc).1.
Proof.
  apply (evaluate_all_ind (LiveNotions.held_before acc.1));
    [|apply held_before_refl].
  intros t st Hst. eapply held_before_trans; [exact Hst|].
  apply evaluate_held_before.
Qed.

Lemma tick_held_before (fs : folder) (st : state) :
  LiveNotions.held_before st (tick fs st).1.
Proof.
  rewrite tick_unfold.
  pose proof (evaluate_all_held_before
                (map_to_list (active_bets (update_from_live_files fs st).1)).*1
                ((update_from_live_files fs st).1, false)) as H.
  intros t b' Hb'. destruct (H t b' Hb') as (b & Hb & Hrest).
  simpl in Hb. destruct (update_bets fs st) as (Hact & _).
  rewrite Hact in Hb. eauto.
Qed.

(** X11.  While a position is held across a turn of the loop its stake and
    its start price stay as they are and its [max_gain] does not decrease;
    a turn opens no position. *)
Theorem turn_keeps_or_closes_positions (fs : folder) (st : state)
    (ticker : string) (b' : bet) :
  active_bets (tick fs st).1 !! ticker = Some b' →
  ∃ b, active_bets st !! ticker = Some b
       ∧ stake b' = stake b
       ∧ start_price b' = start_price b
       ∧ max_gain b <= max_gain b'.
Proof. apply tick_held_before. Qed.

(** *** The whole run *)

Lemma main_loop_snoc (startup : folder) (turns : list folder) (fs : folder) :
  main_loop startup (turns ++ [fs]) = (tick fs (main_loop startup turns)).1.
Proof. unfold main_loop. rewrite foldl_app. reflexivity. Qed.

Lemma main_loop_app (startup : folder) (turns more : list folder) :
  main_loop startup (turns ++ more)
  = foldl (fun st fs => (tick fs st).1) (main_loop startup turns) more.
Proof. unfold main_loop. apply foldl_app. Qed.

Lemma turns_held_before (more : list folder) :
  ∀ st, LiveNotions.held_before st (foldl (fun st fs => (tick fs st).1) st more).
Proof.
  induction more as [|fs more IH]; intros st; [apply held_before_refl|].
  simpl. eapply held_before_trans; [apply tick_held_before | apply IH].
Qed.

(** X12.  No position is opened after startup: a position held after any
    number of turns was placed by [place_initial_bets], with the flat stake,
    at the price its ticker had at startup, a price within the band. *)
Theorem positions_are_opened_at_startup (startup : folder)
    (turns : list folder) (ticker : string) (b : bet) :
  active_bets (main_loop startup turns) !! ticker = Some b →
  ∃ s_price,
    smoothed (place_initial_bets startup initial) !! ticker = Some s_price
    ∧ MIN_START <= s_price ∧ s_price <= MAX_START
    ∧ stake b = BET_AMOUNT
    ∧ start_price b = s_price
    ∧ 0 <= max_gain b.
Proof.
  intros Hb.
  destruct (turns_held_before turns (place_initial_bets startup initial)
              ticker b Hb) as (b0 & Hb0 & Hstake & Hstart & Hmg).
  pose proof (place_initial_bets_lookup startup ticker) as Hplaced.
  cbv zeta in Hplaced. rewrite Hb0 in Hplaced.
  destruct (smoothed (place_initial_bets startup initial) !! ticker)
    as [s|]; [|discriminate].
  destruct (Live.in_band s) eqn:Hband; [|discriminate].
  injection Hplaced as ->. exists s. simpl in *.
  unfold Live.in_band in Hband. apply andb_true_iff in Hband as [Hlo Hhi].
  apply leb_le in Hlo, Hhi. repeat split; auto.
Qed.

Lemma turn_keeps_or_closes_positions_witness :
  ∃ b, active_bets Scenario2.rising !! "KXGAME" = Some b
       ∧ 10 = stake b
       ∧ 0.50 = start_price b
       ∧ max_gain b <= 0.0600.
Proof.
  apply (turn_keeps_or_closes_positions [] Scenario2.rising "KXGAME"
           {| stake := 10; start_price := 0.50; max_gain := 0.0600 |}).
  vm_compute. reflexivity.
Defined.

Lemma positions_are_opened_at_startup_witness :
  ∃ s_price,
    smoothed (place_initial_bets (Scenario.live_at 50) initial) !! "KXGAME"
      = Some s_price
    ∧ MIN_START <= s_price ∧ s_price <= MAX_START
    ∧ 10 = BET_AMOUNT
    ∧ 0.50 = s_price
    ∧ 0 <= 0.
Proof.
  apply (positions_are_opened_at_startup (Scenario.live_at 50)
           [Scenario.live_at 50] "KXGAME"
           {| stake := 10; start_price := 0.50; max_gain := 0 |}).
  vm_compute. reflexivity.
Defined.

(** *** Exits are not missed *)

Lemma evaluate_settles (ticker : string) (st : state) :
  LiveNotions.settled ticker (evaluate_sells_for_ticker ticker st).1.
Proof.
  intros b' cur Hb' Hcur.
  destruct (evaluate_keeps_prices ticker st) as [Hsm _]. rewrite Hsm in Hcur.
  destruct (evaluate_cases ticker st) as [[Heq [Hno|Hno]]|(b & c & Hb & Hc & H)].
  - rewrite Heq in Hb'. simpl in Hb'. congruence.
  - congruence.
  - assert (c = cur) as -> by congruence.
    cbv zeta in H.
    destruct (LiveNotions.sell_test _ _) eqn:Htest; rewrite H in Hb';
      simpl in Hb'.
    + rewrite lookup_delete_eq in Hb'. discriminate.
    + rewrite lookup_insert_eq in Hb'. injection Hb' as <-. simpl.
      split; [exact Htest | apply py_max_ge].
Qed.

Lemma evaluate_keeps_settled (ticker other : string) (st : state) :
  other ≠ ticker →
  LiveNotions.settled other st →
  LiveNotions.settled other (evaluate_sells_for_ticker ticker st).1.
Proof.
  intros Hne Hst b cur Hb Hcur.
  destruct (evaluate_keeps_prices ticker st) as [Hsm _]. rewrite Hsm in Hcur.
  destruct (evaluate_other ticker other st Hne) as [Hact _].
  rewrite Hact in Hb. apply Hst; assumption.
Qed.

Lemma evaluate_all_settles (tickers : list string) (acc : state * bool)
    (ticker : string) :
  ticker ∈ tickers →
  LiveNotions.settled ticker (LiveNotions.evaluate_all tickers acc).1.
Proof.
  induction tickers as [|t tickers IH] using rev_ind; intros Hin;
    [inversion Hin|].
  rewrite evaluate_all_snoc.
  destruct (decide (ticker = t)) as [->|Hne]; [apply evaluate_settles|].
  apply evaluate_keeps_settled; [exact Hne|]. apply IH.
  apply elem_of_app in Hin as [Hin|Hin]; [exact Hin|].
  apply list_elem_of_singleton in Hin. contradiction.
Qed.

(** X13.  After a turn no position is left that meets a sell condition:
    for every ticker still held, with its smoothed price as the turn leaves
    it, neither condition holds and [max_gain] is at least the gain. *)
Theorem turn_misses_no_exit (fs : folder) (st : state) (ticker : string)
    (b : bet) (current : Q) :
  active_bets (tick fs st).1 !! ticker = Some b →
  smoothed (tick fs st).1 !! ticker = Some current →
  let gain := current - start_price b in
  (Py.leb GAIN_THRESHOLD (max_gain b) && Py.ltb gain GAIN_THRESHOLD = false)
  ∧ (Py.ltb GAIN_THRESHOLD (max_gain b)
     && Py.leb gain (max_gain b * FALL_FRACTION) = false)
  ∧ gain <= max_gain b.
Proof.
  intros Hb Hcur gain.
  assert (LiveNotions.settled ticker (tick fs st).1) as Hsettled.
  { rewrite tick_unfold. apply evaluate_all_settles.
    destruct (evaluate_all_held_before
                (map_to_list (active_bets (update_from_live_files fs st).1)).*1
                ((update_from_live_files fs st).1, false) ticker b)
      as (b0 & Hb0 & _); [rewrite <- tick_unfold; exact Hb|].
    apply list_elem_of_fmap. exists (ticker, b0). split; [reflexivity|].
    apply elem_of_map_to_list. exact Hb0. }
  destruct (Hsettled b current Hb Hcur) as [Htest Hmg].
  unfold LiveNotions.sell_test in Htest. apply orb_false_iff in Htest. tauto.
Qed.

Lemma turn_misses_no_exit_witness :
  let gain := 0.56 - 0.50 in
  (Py.leb GAIN_THRESHOLD 0.0600 && Py.ltb gain GAIN_THRESHOLD = false)
  ∧ (Py.ltb GAIN_THRESHOLD 0.0600 && Py.leb gain (0.0600 * FALL_FRACTION)
     = false)
  ∧ gain <= 0.0600.
Proof.
  apply (turn_misses_no_exit [] Scenario2.rising "KXGAME"
           {| stake := 10; start_price := 0.50; max_gain := 0.0600 |} 0.56).
  - vm_compute. reflexivity.
  - vm_compute. reflexivity.
Defined.

(** *** Sales *)

Lemma evaluate_sold_apart (ticker : string) (st : state) :
  LiveNotions.sold_apart st →
  LiveNotions.sold_apart (evaluate_sells_for_ticker ticker st).1
  ∧ ∀ other profit,
      sold_games st !! other = Some profit →
      sold_games (evaluate_sells_for_ticker ticker st).1 !! other
      = Some profit.
Proof.
  intros Hinv.
  destruct (evaluate_cases ticker st) as [[-> _]|(b & c & Hb & _ & H)];
    [auto|].
  cbv zeta in H. destruct (LiveNotions.sell_test _ _); rewrite H; simpl.
  - split.
    + intros t Hsold. simpl in *.
      destruct (decide (t = ticker)) as [->|Hne];
        [apply lookup_delete_eq|].
      rewrite lookup_insert_ne in Hsold by congruence.
      rewrite lookup_delete_ne by congruence. apply Hinv, Hsold.
    + intros other profit Hsold.
      destruct (decide (other = ticker)) as [->|Hne].
      * rewrite Hinv in Hb by eauto. discriminate.
      * rewrite lookup_insert_ne by congruence. exact Hsold.
  - split; [|auto].
    intros t Hsold. simpl in *.
    destruct (decide (t = ticker)) as [->|Hne].
    + rewrite Hinv in Hb by exact Hsold. discriminate.
    + rewrite lookup_insert_ne by congruence. apply Hinv, Hsold.
Qed.

Lemma tick_sold_apart (fs : folder) (st : state) :
  LiveNotions.sold_apart st →
  LiveNotions.sold_apart (tick fs st).1
  ∧ ∀ other profit,
      sold_games st !! other = Some profit →
      sold_games (tick fs st).1 !! other = Some profit.
Proof.
  intros Hinv. rewrite tick_unfold.
  destruct (update_bets fs st) as (Hact & Hsold & _).
  apply (evaluate_all_ind
           (fun s => LiveNotions.sold_apart s
                     ∧ ∀ other profit,
                         sold_games st !! other = Some profit →
                         sold_games s !! other = Some profit)).
  - intros t s [Hs Hkeep].
    destruct (evaluate_sold_apart t s Hs) as [Hs' Hkeep'].
    split; [exact Hs'|]. intros other profit Hp. apply Hkeep', Hkeep, Hp.
  - simpl. split.
    + intros t Ht. rewrite Hact. apply Hinv. rewrite <- Hsold. exact Ht.
    + intros other profit Hp. rewrite Hsold. exact Hp.
Qed.

Lemma place_bet_books_nothing (l : list (string * Q)) :
  ∀ st,
    sold_games (foldl place_bet st l) = sold_games st
    ∧ bankroll (foldl place_bet st l) = bankroll st
    ∧ LiveNotions.realized (console (foldl place_bet st l))
      = LiveNotions.realized (console st).
Proof.
  induction l as [|[t s] l IH]; intros st; [auto|]. cbn [foldl].
  destruct (IH (place_bet st (t, s))) as (-> & -> & ->).
  unfold place_bet. destruct (Live.in_band s); [|auto]. simpl.
  unfold LiveNotions.realized. rewrite foldl_app. auto.
Qed.

Lemma init_ticker_books_nothing (fs : folder) :
  ∀ st,
    sold_games (foldl init_ticker st fs) = sold_games st
    ∧ bankroll (foldl init_ticker st fs) = bankroll st
    ∧ console (foldl init_ticker st fs) = console st.
Proof.
  induction fs as [|[fn file] fs IH]; intros st; [auto|]. cbn [foldl].
  destruct (IH (init_ticker st (fn, file))) as (-> & -> & ->).
  unfold init_ticker. destruct (negb _); [auto|].
  destruct (load_last_price_from_jsonl file); auto.
Qed.

Lemma startup_books_nothing (startup : folder) :
  sold_games (place_initial_bets startup initial) = ∅
  ∧ bankroll (place_initial_bets startup initial) = 0
  ∧ LiveNotions.realized (console (place_initial_bets startup initial)) = 0.
Proof.
  unfold place_initial_bets. cbv zeta.
  destruct (place_bet_books_nothing
              (map_to_list (smoothed (foldl init_ticker initial startup)))
              (foldl init_ticker initial startup)) as (-> & -> & ->).
  destruct (init_ticker_books_nothing startup initial) as (-> & -> & ->).
  auto.
Qed.

Lemma main_loop_sold_apart (startup : folder) (turns : list folder) :
  LiveNotions.sold_apart (main_loop startup turns).
Proof.
  induction turns as [|fs turns IH] using rev_ind.
  - intros t [p Hp]. unfold main_loop in Hp. simpl in Hp.
    destruct (startup_books_nothing startup) as (Hsold & _).
    rewrite Hsold, lookup_empty in Hp. discriminate.
  - rewrite main_loop_snoc. apply tick_sold_apart, IH.
Qed.

(** X14.  A ticker is sold at most once: from the turn in which it is sold
    on, its entry in [sold_games] keeps the same profit and the ticker is
    not held again. *)
Theorem sold_once (startup : folder) (turns more : list folder)
    (ticker : string) (profit : Q) :
  sold_games (main_loop startup turns) !! ticker = Some profit →
  sold_games (main_loop startup (turns ++ more)) !! ticker = Some profit
  ∧ active_bets (main_loop startup (turns ++ more)) !! ticker = None.
Proof.
  intros Hsold.
  assert (sold_games (main_loop startup (turns ++ more)) !! ticker
          = Some profit) as Hlater.
  { induction more as [|fs more IH] using rev_ind.
    - rewrite app_nil_r. exact Hsold.
    - rewrite app_assoc, main_loop_snoc.
      apply tick_sold_apart; [apply main_loop_sold_apart | exact IH]. }
  split; [exact Hlater|].
  apply main_loop_sold_apart. eauto.
Qed.

(** X15.  The bankroll of the live runner is the sum of the profits of the
    sales it has printed, added in the order of the sales; it starts at
    zero and nothing else changes it. *)
Theorem bankroll_is_sum_of_sales (startup : folder) (turns : list folder) :
  bankroll (main_loop startup turns)
  = LiveNotions.realized (console (main_loop startup turns)).
Proof.
  induction turns as [|fs turns IH] using rev_ind.
  - unfold main_loop. simpl.
    destruct (startup_books_nothing startup) as (_ & -> & ->). reflexivity.
  - rewrite main_loop_snoc, tick_unfold.
    destruct (update_bets fs (main_loop startup turns)) as (_ & _ & Hbank & Hcon).
    apply (evaluate_all_ind
             (fun s => bankroll s = LiveNotions.realized (console s))).
    + intros t s Hs.
      destruct (evaluate_cases t s) as [[-> _]|(b & c & _ & _ & H)];
        [exact Hs|].
      cbv zeta in H. destruct (LiveNotions.sell_test _ _); rewrite H; simpl;
        [|exact Hs].
      unfold LiveNotions.realized in *. rewrite foldl_app. simpl.
      rewrite Hs. reflexivity.
    + simpl. rewrite Hbank, Hcon. exact IH.
Qed.

Lemma sold_once_witness :
  sold_games
    (main_loop (Scenario.live_at 50)
       ((repeat (Scenario.live_at 100) 13 ++ [Scenario.live_at 10])
        ++ [Scenario.live_at 100]))
    !! "KXGAME" = Some Scenario2.live_run_profit
  ∧ active_bets
      (main_loop (Scenario.live_at 50)
         ((repeat (Scenario.live_at 100) 13 ++ [Scenario.live_at 10])
          ++ [Scenario.live_at 100]))
      !! "KXGAME" = None.
Proof.
  apply (sold_once (Scenario.live_at 50)
           (repeat (Scenario.live_at 100) 13 ++ [Scenario.live_at 10])
           [Scenario.live_at 100] "KXGAME" Scenario2.live_run_profit).
  vm_compute. reflexivity.
Defined.

(** *** Reading a record *)

Lemma scan_lines_spec (file : list jline) :
  ∀ last_price,
    scan_lines last_price file
    = if forallb LiveNotions.passes file
      then Some (match last (omap LiveNotions.line_price file) with
                 | Some p => Some (inject_Z p / 100)
                 | None => last_price
                 end)
      else None.
Proof.
  induction file as [|l file IH]; intros last_price; [reflexivity|].
  destruct l as [| | | |[p|]]; try reflexivity.
  - change (scan_lines last_price (BadJson :: file))
      with (scan_lines last_price file).
    rewrite IH. reflexivity.
  - change (scan_lines last_price (Obj (Some p) :: file))
      with (if Py.float_fits p
            then scan_lines (Some (inject_Z p / 100)) file else None).
    change (forallb LiveNotions.passes (Obj (Some p) :: file))
      with (Py.float_fits p && forallb LiveNotions.passes file).
    destruct (Py.float_fits p); [|reflexivity]. rewrite IH.
    change (omap LiveNotions.line_price (Obj (Some p) :: file))
      with (p :: omap LiveNotions.line_price file).
    cbn [andb]. destruct (forallb LiveNotions.passes file); [|reflexivity].
    destruct (omap LiveNotions.line_price file) as [|q ps]; [reflexivity|].
    change (last (p :: q :: ps)) with (last (q :: ps)).
    destruct (last (q :: ps)) eqn:Hlast; [reflexivity|].
    apply last_None in Hlast. discriminate.
  - change (scan_lines last_price (Obj None :: file))
      with (scan_lines last_price file).
    rewrite IH. reflexivity.
Qed.

(** X16.  [load_last_price_from_jsonl] returns the last price of the
    record, scaled from cents, whatever lines of broken JSON or without a
    price stand between or after the prices.  It returns [None] for a
    record without a price, and also, however many prices the record holds,
    for a record in which one line raises something else than
    [JSONDecodeError]: a line that is not text, JSON that is not an object,
    a price that is not a number, or an integer price too large for a
    float. *)
Theorem last_price_of_record (file : list jline) :
  load_last_price_from_jsonl file
  = if forallb LiveNotions.passes file
    then (fun p => inject_Z p / 100)
           <$> last (omap LiveNotions.line_price file)
    else None.
Proof.
  unfold load_last_price_from_jsonl. rewrite scan_lines_spec.
  destruct (forallb _ file); [|reflexivity].
  destruct (last _); reflexivity.
Qed.

(** A record read to its last price, and three that are given up: for a
    price that is a string, for a price of [10 ** 400] cents, and for a
    line that is not text. *)
Lemma records_read_and_given_up :
  load_last_price_from_jsonl [Obj (Some 60%Z); BadJson; Obj None]
  = Some (inject_Z 60 / 100)
  ∧ load_last_price_from_jsonl [Obj (Some 60%Z); BadPrice] = None
  ∧ load_last_price_from_jsonl [Obj (Some 60%Z); Obj (Some (10 ^ 400)%Z)]
    = None
  ∧ load_last_price_from_jsonl [NotText; Obj (Some 60%Z)] = None.
Proof. repeat split; vm_compute; reflexivity. Qed.

(** *** The smoothing factor *)

Lemma alpha_range (sigma_minutes : Q) :
  0.001 <= compute_alpha_from_sigma_minutes sigma_minutes
  ∧ compute_alpha_from_sigma_minutes sigma_minutes <= 0.5.
Proof.
  unfold compute_alpha_from_sigma_minutes.
  set (a := 1 / Py.max 1 (sigma_minutes * SAMPLES_PER_MINUTE)).
  unfold Py.min, Py.max.
  destruct (Py.ltb 0.5 a) eqn:E1;
    repeat match goal with
      | |- context [Py.ltb ?x ?y] => destruct (Py.ltb x y) eqn:?
      | H : Py.ltb _ _ = true |- _ => apply ltb_lt in H
      | H : Py.ltb _ _ = false |- _ => apply ltb_ge in H
      end; split; lra.
Qed.

(** X17.  Whatever [sigma_minutes] is, zero and negative values included,
    [compute_alpha_from_sigma_minutes] divides by a number that is at least
    one and returns an alpha between 0.001 and 0.5; it returns 0.5 as soon
    as [sigma_minutes * 60] is at most 2. *)
Theorem alpha_always_in_range (sigma_minutes : Q) :
  0.001 <= compute_alpha_from_sigma_minutes sigma_minutes
  ∧ compute_alpha_from_sigma_minutes sigma_minutes <= 0.5
  ∧ 1 <= Py.max 1 (sigma_minutes * SAMPLES_PER_MINUTE)
  ∧ (sigma_minutes * SAMPLES_PER_MINUTE <= 2 →
     compute_alpha_from_sigma_minutes sigma_minutes == 0.5).
Proof.
  destruct (alpha_range sigma_minutes) as [Hlo Hhi].
  pose proof (py_max_ge 1 (sigma_minutes * SAMPLES_PER_MINUTE)) as [Hone _].
  repeat split; try assumption.
  intros Hsmall. unfold compute_alpha_from_sigma_minutes.
  set (sp := sigma_minutes * SAMPLES_PER_MINUTE) in *.
  assert (0.5 <= 1 / Py.max 1 sp) as Hhalf.
  { apply Qle_shift_div_l; [lra|].
    unfold Py.max. destruct (Py.ltb 1 sp); lra. }
  set (a := 1 / Py.max 1 sp) in *. unfold Py.min, Py.max.
  destruct (Py.ltb 0.5 a) eqn:E1;
    repeat match goal with
      | |- context [Py.ltb ?x ?y] => destruct (Py.ltb x y) eqn:?
      | H : Py.ltb _ _ = true |- _ => apply ltb_lt in H
      | H : Py.ltb _ _ = false |- _ => apply ltb_ge in H
      end; lra.
Qed.

Lemma alpha_always_in_range_witness :
  compute_alpha_from_sigma_minutes (-1) == 0.5.
Proof.
  apply (alpha_always_in_range (-1)). discriminate.
Defined.

(** *** The deque of raw prices *)

Lemma last_drop {A : Type} (l : list A) (n : nat) :
  (n < length l)%nat → last (drop n l) = last l.
Proof.
  revert n. induction l as [|x l IH]; intros n Hn; [simpl in Hn; lia|].
  destruct n as [|n]; [reflexivity|]. simpl in Hn. simpl drop.
  rewrite IH by lia. destruct l; [simpl in Hn; lia | reflexivity].
Qed.

Lemma deque_append_spec (n : nat) (x : Q) (d : list Q) :
  (0 < n)%nat →
  last (deque_append n x d) = Some x
  ∧ (0 < length (deque_append n x d) ≤ n)%nat
  ∧ ((length d < n)%nat → deque_append n x d = d ++ [x]).
Proof.
  intros Hn. unfold deque_append. cbv zeta.
  assert (length (d ++ [x]) = S (length d)) as Hlen
    by (rewrite length_app; simpl; lia).
  split; [|split].
  - rewrite last_drop by lia. apply last_snoc.
  - rewrite length_drop. lia.
  - intros Hshort. rewrite Hlen.
    replace (S (length d) - n)%nat with 0%nat by lia. reflexivity.
Qed.

(** *** Histories *)

Lemma record_history_bounded (ticker : string) (last_price : Q)
    (h : gmap string (list Q)) :
  (∀ t d, h !! t = Some d → (0 < length d ≤ HISTORY_LENGTH)%nat) →
  ∀ t d, record_history ticker last_price h !! t = Some d →
         (0 < length d ≤ HISTORY_LENGTH)%nat.
Proof.
  intros Hh t d. unfold record_history.
  destruct (decide (ticker = t)) as [->|Hne].
  - rewrite lookup_insert_eq. intros [= <-].
    apply deque_append_spec. unfold HISTORY_LENGTH. lia.
  - rewrite lookup_insert_ne by exact Hne. apply Hh.
Qed.

Lemma init_ticker_bounded (st : state) (f : string * list jline) :
  LiveNotions.histories_bounded st →
  LiveNotions.histories_bounded (init_ticker st f).
Proof.
  intros Hst. destruct f as [fn file]. unfold init_ticker.
  destruct (negb _); [exact Hst|].
  destruct (load_last_price_from_jsonl file); [|exact Hst].
  unfold LiveNotions.histories_bounded. simpl.
  apply record_history_bounded, Hst.
Qed.

Lemma update_ticker_bounded (acc : state * list string)
    (f : string * list jline) :
  LiveNotions.histories_bounded acc.1 →
  LiveNotions.histories_bounded (update_ticker acc f).1.
Proof.
  intros Hst. destruct acc as [st updated], f as [fn file].
  unfold update_ticker. destruct (negb _); [exact Hst|].
  destruct (load_last_price_from_jsonl file); [|exact Hst].
  unfold LiveNotions.histories_bounded. simpl.
  apply record_history_bounded, Hst.
Qed.

Lemma foldl_keeps {A S : Type} (I : S → Prop) (step : S → A → S)
    (l : list A) :
  (∀ s a, I s → I (step s a)) → ∀ s, I s → I (foldl step s l).
Proof.
  intros Hstep. induction l as [|a l IH]; intros s Hs; [exact Hs|].
  simpl. apply IH, Hstep, Hs.
Qed.

Lemma place_bet_history (l : list (string * Q)) :
  ∀ st, price_history (foldl place_bet st l) = price_history st.
Proof.
  induction l as [|[t s] l IH]; intros st; [reflexivity|]. simpl.
  rewrite IH. unfold place_bet. destruct (Live.in_band s); reflexivity.
Qed.

Lemma tick_bounded (fs : folder) (st : state) :
  LiveNotions.histories_bounded st →
  LiveNotions.histories_bounded (tick fs st).1.
Proof.
  intros Hst. rewrite tick_unfold. unfold LiveNotions.histories_bounded.
  destruct (evaluate_all_keeps_prices
              (map_to_list (active_bets (update_from_live_files fs st).1)).*1
              ((update_from_live_files fs st).1, false)) as [_ ->].
  simpl. unfold update_from_live_files.
  apply (foldl_keeps (fun acc => LiveNotions.histories_bounded acc.1)
           update_ticker fs update_ticker_bounded (st, [])).
  exact Hst.
Qed.

(** X19.  The history of a ticker never holds more than [HISTORY_LENGTH]
    prices, and never none: the deque drops its oldest price when a price
    is appended to a full history. *)
Theorem histories_stay_bounded (startup : folder) (turns : list folder)
    (ticker : string) (h : list Q) :
  price_history (main_loop startup turns) !! ticker = Some h →
  (0 < length h ≤ HISTORY_LENGTH)%nat
  ∧ ∃ last_price, raw_price ticker (main_loop startup turns) = Some last_price.
Proof.
  intros Hh.
  assert (LiveNotions.histories_bounded (main_loop startup turns)) as Hall.
  { unfold main_loop.
    apply (foldl_keeps LiveNotions.histories_bounded
             (fun st fs => (tick fs st).1) turns);
      [intros s fs; apply tick_bounded|].
    unfold place_initial_bets. cbv zeta.
    unfold LiveNotions.histories_bounded. rewrite place_bet_history.
    apply (foldl_keeps LiveNotions.histories_bounded init_ticker startup
             init_ticker_bounded initial).
    intros t d Hd. unfold initial in Hd. simpl in Hd.
    rewrite lookup_empty in Hd. discriminate. }
  pose proof (Hall ticker h Hh) as Hlen. split; [exact Hlen|].
  unfold raw_price. rewrite Hh. simpl.
  destruct h as [|x h] using rev_ind; [simpl in Hlen; lia|].
  exists x. apply last_snoc.
Qed.

Lemma histories_stay_bounded_witness :
  price_history Scenario.live_run !! "KXGAME"
    = Some (0.50%Q :: repeat 1.00%Q 13 ++ [0.10%Q])
  ∧ (0 < length (0.50%Q :: repeat 1.00%Q 13 ++ [0.10%Q]) ≤ HISTORY_LENGTH)%nat
  ∧ ∃ last_price, raw_price "KXGAME" Scenario.live_run = Some last_price.
Proof.
  assert (price_history Scenario.live_run !! "KXGAME"
          = Some (0.50%Q :: repeat 1.00%Q 13 ++ [0.10%Q])) as Hh
    by (vm_compute; reflexivity).
  split; [exact Hh|].
  exact (histories_stay_bounded (Scenario.live_at 50)
           (repeat (Scenario.live_at 100) 13 ++ [Scenario.live_at 10])
           "KXGAME" (0.50%Q :: repeat 1.00%Q 13 ++ [0.10%Q]) Hh).
Defined.

(** *** A record that gives no price *)

Lemma update_ticker_frame (ticker : string) (acc : state * list string)
    (fn : string) (file : list jline) :
  (Py.endswith fn ".jsonl" = true → Py.drop_last 6 fn = ticker →
   load_last_price_from_jsonl file = None) →
  smoothed (update_ticker acc (fn, file)).1 !! ticker
    = smoothed acc.1 !! ticker
  ∧ price_history (update_ticker acc (fn, file)).1 !! ticker
    = price_history acc.1 !! ticker.
Proof.
  intros Hno. destruct acc as [st updated]. unfold update_ticker.
  destruct (Py.endswith fn ".jsonl") eqn:Hfn; simpl; [|auto].
  destruct (load_last_price_from_jsonl file) as [p|] eqn:Hload; [|auto].
  assert (Py.drop_last 6 fn ≠ ticker) as Hne.
  { intros Heq. specialize (Hno eq_refl Heq). discriminate. }
  simpl. unfold record_history. rewrite !lookup_insert_ne by exact Hne. auto.
Qed.

(** X20.  A ticker whose record is missing from the folder, or gives no
    price, is left alone by a turn: its smoothed price and its history are
    what they were. *)
Theorem turn_leaves_unread_ticker (fs : folder) (st : state)
    (ticker : string) :
  LiveNotions.unreadable ticker fs →
  smoothed (tick fs st).1 !! ticker = smoothed st !! ticker
  ∧ price_history (tick fs st).1 !! ticker = price_history st !! ticker.
Proof.
  intros Hun. rewrite tick_unfold.
  destruct (evaluate_all_keeps_prices
              (map_to_list (active_bets (update_from_live_files fs st).1)).*1
              ((update_from_live_files fs st).1, false)) as [-> ->].
  simpl. unfold update_from_live_files.
  generalize (@nil string) as updated. revert st.
  induction fs as [|[fn file] fs IH]; intros st updated; [auto|].
  cbn [foldl].
  destruct (update_ticker_frame ticker (st, updated) fn file) as [Hs Hh].
  { intros Hfn Hname. apply (Hun fn file); [left | exact Hfn | exact Hname]. }
  destruct (update_ticker (st, updated) (fn, file)) as [st1 updated1].
  simpl in Hs, Hh. rewrite <- Hs, <- Hh. apply IH.
  intros fn' file' Hin. apply Hun. right. exact Hin.
Qed.

Lemma turn_leaves_unread_ticker_witness :
  smoothed
    (tick [("KXGAME.jsonl", [BadJson; Obj None]); ("OTHER.jsonl", [Obj (Some 40%Z)])]
       Scenario2.rising).1 !! "KXGAME"
    = smoothed Scenario2.rising !! "KXGAME"
  ∧ price_history
      (tick [("KXGAME.jsonl", [BadJson; Obj None]);
             ("OTHER.jsonl", [Obj (Some 40%Z)])]
         Scenario2.rising).1 !! "KXGAME"
    = price_history Scenario2.rising !! "KXGAME".
Proof.
  apply turn_leaves_unread_ticker.
  intros fn file Hin Hfn Hname.
  apply elem_of_cons in Hin as [[= -> ->]|Hin]; [reflexivity|].
  apply elem_of_cons in Hin as [[= -> ->]|Hin]; [discriminate Hname|].
  inversion Hin.
Defined.

End LiveTurns.

(** ** The filtering stage *)

Section Filtering.

Import Batch FilterPy.
Local Open Scope Z_scope.

Abbreviation priced := (fun e : entry => is_Some (price_cents e)).

(** *** [fill_null_prices] *)

Lemma fill_from_some (data : list entry) :
  ∀ v,
    Forall priced (fill_from (Some v) data)
    ∧ time <$> fill_from (Some v) data = time <$> data
    ∧ (∀ i e, data !! i = Some e → priced e →
              fill_from (Some v) data !! i = Some e)
    ∧ (∀ i e, data !! i = Some e → price_cents e = None →
              price_cents <$> fill_from (Some v) data !! i
              = Some (match i with
                      | O => Some v
                      | S j => mjoin (price_cents
                                        <$> fill_from (Some v) data !! j)
                      end)).
Proof.
  induction data as [|e0 data IH]; intros v.
  { repeat split; [constructor | intros i e H; inversion H..]. }
  simpl. destruct (price_cents e0) as [p|] eqn:Hp.
  - destruct (IH p) as (Hall & Htimes & Hkeep & Hfill).
    split; [constructor; [rewrite Hp; eauto | exact Hall]|].
    split; [rewrite !fmap_cons, Htimes; reflexivity|].
    split.
    + intros [|i] e Hi He; simpl in *; [congruence | eauto].
    + intros [|i] e Hi He; simpl in *; [congruence|].
      rewrite (Hfill i e Hi He). destruct i as [|j]; simpl;
        [rewrite Hp|]; reflexivity.
  - destruct (IH v) as (Hall & Htimes & Hkeep & Hfill).
    split; [constructor; [simpl; eauto | exact Hall]|].
    split; [rewrite !fmap_cons, Htimes; reflexivity|].
    split.
    + intros [|i] e Hi He; simpl in *.
      * injection Hi as <-. rewrite Hp in He. destruct He. discriminate.
      * eauto.
    + intros [|i] e Hi He; simpl in *; [reflexivity|].
      rewrite (Hfill i e Hi He). destruct i as [|j]; reflexivity.
Qed.

Lemma fill_from_first_price (data : list entry) :
  fill_from None data
  = match from_first_price data with
    | [] => []
    | e :: rest => e :: fill_from (price_cents e) rest
    end.
Proof.
  induction data as [|e data IH]; [reflexivity|]. simpl.
  destruct (price_cents e) as [p|] eqn:Hp; [rewrite Hp; reflexivity | exact IH].
Qed.

Lemma from_first_price_head (data : list entry) (e : entry)
    (rest : list entry) :
  from_first_price data = e :: rest → priced e.
Proof.
  induction data as [|e0 data IH]; [discriminate|]. simpl.
  destruct (price_cents e0) as [p|] eqn:Hp; [|exact IH].
  intros [= <- <-]. rewrite Hp. eauto.
Qed.

(** X21.  [fill_null_prices] leaves out the records before the first
    price and keeps one record for each record from there on, at the same
    time: a record with a price as it is, a record without one with the
    price of the record before it in the result.  No price of the result is
    null. *)
Theorem fill_null_prices_forward_fills (data : list entry) :
  let out := fill_null_prices data in
  Forall (fun e => is_Some (price_cents e)) out
  ∧ time <$> out = time <$> from_first_price data
  ∧ (∀ i e, from_first_price data !! i = Some e →
            is_Some (price_cents e) → out !! i = Some e)
  ∧ (∀ i e, from_first_price data !! S i = Some e →
            price_cents e = None →
            ∃ before after,
              out !! i = Some before ∧ out !! S i = Some after
              ∧ time after = time e
              ∧ price_cents after = price_cents before).
Proof.
  cbv zeta. unfold fill_null_prices. rewrite fill_from_first_price.
  destruct (from_first_price data) as [|e0 rest] eqn:Hfirst.
  { repeat split; [constructor | intros i e H; inversion H..]. }
  destruct (from_first_price_head _ _ _ Hfirst) as [p Hp]. rewrite Hp.
  destruct (fill_from_some rest p) as (Hall & Htimes & Hkeep & Hfill).
  split; [constructor; [rewrite Hp; eauto | exact Hall]|].
  split; [rewrite !fmap_cons, Htimes; reflexivity|].
  split.
  - intros [|i] e Hi He; simpl in *; [congruence | eauto].
  - intros i e Hi He. simpl in Hi.
    pose proof (Hfill i e Hi He) as Hprice.
    assert (time <$> fill_from (Some p) rest !! i = Some (time e)) as Htime.
    { rewrite <- list_lookup_fmap, Htimes, list_lookup_fmap, Hi. reflexivity. }
    destruct (fill_from (Some p) rest !! i) as [after|] eqn:Hafter;
      [|discriminate].
    injection Htime as Htime. injection Hprice as Hprice.
    destruct i as [|j].
    + exists e0, after. simpl. rewrite Hafter, Hp.
      repeat split; [exact Htime | exact Hprice].
    + destruct (fill_from (Some p) rest !! j) as [before|] eqn:Hbefore.
      * exists before, after. simpl. rewrite Hafter, Hbefore.
        repeat split; [exact Htime | exact Hprice].
      * apply lookup_ge_None in Hbefore. apply lookup_lt_Some in Hafter. lia.
Qed.

Lemma fill_from_priced (data : list entry) :
  Forall priced data → ∀ last_valid, fill_from last_valid data = data.
Proof.
  induction 1 as [|e data [p Hp] _ IH]; intros last_valid; [reflexivity|].
  simpl. rewrite Hp, IH. reflexivity.
Qed.

Lemma fill_from_all_priced (data : list entry) :
  ∀ last_valid, Forall priced (fill_from last_valid data).
Proof.
  induction data as [|e data IH]; intros last_valid; [constructor|]. simpl.
  destruct (price_cents e) as [p|] eqn:Hp.
  - constructor; [rewrite Hp; eauto | apply IH].
  - destruct last_valid; [constructor; [simpl; eauto | apply IH] | apply IH].
Qed.

(** X22.  [fill_null_prices] is idempotent, and it returns a series
    without null prices as it is. *)
Theorem fill_null_prices_idempotent (data : list entry) :
  fill_null_prices (fill_null_prices data) = fill_null_prices data
  ∧ (Forall (fun e => is_Some (price_cents e)) data →
     fill_null_prices data = data).
Proof.
  unfold fill_null_prices. split.
  - apply fill_from_priced, fill_from_all_priced.
  - intros Hall. apply fill_from_priced, Hall.
Qed.

Lemma fill_null_prices_idempotent_witness :
  fill_null_prices Scenario.flat = Scenario.flat.
Proof.
  apply fill_null_prices_idempotent.
  repeat constructor; simpl; eauto.
Defined.

(** *** Weeks *)

Lemma week_of_generated (dt : Z) (n m : nat) :
  ∀ k,
    week_of
      (map (fun i : nat =>
              let start := FIRST_THURSDAY + Z.of_nat i * WEEK in
              (S i, start, start + WEEK)) (seq k m)) dt = Some n
    ↔ (k < n ≤ k + m)%nat
      ∧ FIRST_THURSDAY + (Z.of_nat n - 1) * WEEK <= dt
        < FIRST_THURSDAY + Z.of_nat n * WEEK.
Proof.
  induction m as [|m IH]; intros k; simpl.
  - split; [discriminate | lia].
  - destruct ((FIRST_THURSDAY + Z.of_nat k * WEEK <=? dt)
              && (dt <? FIRST_THURSDAY + Z.of_nat k * WEEK + WEEK)) eqn:E.
    + apply andb_true_iff in E as [E1 E2].
      apply Z.leb_le in E1. apply Z.ltb_lt in E2. unfold WEEK in *.
      split; [intros [= <-]; lia|]. intros [Hn Hdt]. f_equal. lia.
    + rewrite IH. apply andb_false_iff in E. unfold WEEK in *.
      split; [intros [Hn Hdt]; split; [lia | exact Hdt]|].
      intros [Hn Hdt]. split; [|exact Hdt].
      destruct (decide (n = S k)) as [->|Hne]; [|lia]. exfalso.
      destruct E as [E|E]; [apply Z.leb_gt in E | apply Z.ltb_ge in E]; lia.
Qed.

Lemma week_number_of_instant_aux (dt : Z) (n : nat) :
  get_week_number dt = Some n → (1 <= n <= 18)%nat.
Proof.
  unfold get_week_number, weeks, generate_weeks.
  rewrite week_of_generated. lia.
Qed.

(** X23.  [get_week_number] returns the number [n], from 1 to 18, of the
    week that holds the instant: the seven days that begin [n - 1] weeks
    after the first Thursday, the first instant included and the last
    excluded; it returns [None] before the first Thursday and from eighteen
    weeks after it on. *)
Theorem week_number_of_instant (dt : Z) :
  (∀ n, get_week_number dt = Some n
        ↔ (1 <= n <= 18)%nat
          ∧ FIRST_THURSDAY + (Z.of_nat n - 1) * WEEK <= dt
            < FIRST_THURSDAY + Z.of_nat n * WEEK)
  ∧ (get_week_number dt = None
     ↔ dt < FIRST_THURSDAY ∨ FIRST_THURSDAY + 18 * WEEK <= dt).
Proof.
  assert (∀ n, get_week_number dt = Some n
               ↔ (1 <= n <= 18)%nat
                 ∧ FIRST_THURSDAY + (Z.of_nat n - 1) * WEEK <= dt
                   < FIRST_THURSDAY + Z.of_nat n * WEEK) as Hsome.
  { intros n. unfold get_week_number, weeks, generate_weeks.
    rewrite week_of_generated. split; intros [Hn Hdt]; (split; [lia | exact Hdt]). }
  split; [exact Hsome|]. split.
  - intros Hnone.
    destruct (Z.lt_ge_cases dt FIRST_THURSDAY) as [Hlt|Hge]; [left; exact Hlt|].
    destruct (Z.lt_ge_cases dt (FIRST_THURSDAY + 18 * WEEK)) as [Hlt|Hge'];
      [|right; exact Hge'].
    exfalso. set (q := (dt - FIRST_THURSDAY) / WEEK).
    assert (0 <= q < 18) as Hq.
    { unfold q, WEEK in *. split; [apply Z.div_pos; lia|].
      apply Z.div_lt_upper_bound; lia. }
    assert (get_week_number dt = Some (S (Z.to_nat q))) as Hweek.
    { apply Hsome. split; [lia|].
      pose proof (Z.div_mod (dt - FIRST_THURSDAY) WEEK) as Hdiv.
      pose proof (Z.mod_pos_bound (dt - FIRST_THURSDAY) WEEK) as Hmod.
      fold q in Hdiv. unfold WEEK in *. lia. }
    congruence.
  - intros Hout. destruct (get_week_number dt) as [n|] eqn:Hweek; [|reflexivity].
    destruct (proj1 (Hsome n) eq_refl) as [Hn Hdt]. unfold WEEK in *. lia.
Qed.

Lemma week_number_of_instant_witness :
  get_week_number (FIRST_THURSDAY + 3 * WEEK - 1) = Some 3%nat
  ∧ get_week_number (FIRST_THURSDAY + 18 * WEEK) = None.
Proof.
  destruct (week_number_of_instant (FIRST_THURSDAY + 3 * WEEK - 1))
    as [Hsome _].
  destruct (week_number_of_instant (FIRST_THURSDAY + 18 * WEEK))
    as [_ Hnone].
  split.
  - apply Hsome. unfold FIRST_THURSDAY, WEEK. lia.
  - apply Hnone. right. lia.
Defined.

(** *** [detect_kickoff] *)

Lemma filled_times (entries : list entry) :
  ∀ last_valid,
    (filled_from last_valid entries).*1 = time <$> fill_from last_valid entries.
Proof.
  induction entries as [|e entries IH]; intros last_valid; [reflexivity|].
  simpl. destruct (price_cents e) as [p|].
  - rewrite !fmap_cons, IH. reflexivity.
  - destruct last_valid; [rewrite !fmap_cons, IH; reflexivity | apply IH].
Qed.

Lemma fill_times (data : list entry) :
  time <$> fill_from None data = time <$> from_first_price data.
Proof.
  rewrite fill_from_first_price.
  destruct (from_first_price data) as [|e rest] eqn:Hfirst; [reflexivity|].
  destruct (from_first_price_head _ _ _ Hfirst) as [p Hp]. rewrite Hp.
  destruct (fill_from_some rest p) as (_ & Htimes & _).
  rewrite !fmap_cons, Htimes. reflexivity.
Qed.

Lemma from_first_price_nil (data : list entry) :
  from_first_price data = [] ↔ Forall (fun e => price_cents e = None) data.
Proof.
  induction data as [|e data IH]; simpl.
  - split; [constructor | reflexivity].
  - destruct (price_cents e) as [p|] eqn:Hp.
    + split; [discriminate|]. intros H. inversion H. congruence.
    + rewrite IH. split; [constructor; assumption|].
      intros H. inversion H. assumption.
Qed.

Lemma filled_nil (entries : list entry) :
  filled_from None entries = []
  ↔ Forall (fun e => price_cents e = None) entries.
Proof.
  rewrite <- from_first_price_nil.
  pose proof (filled_times entries None) as Htimes.
  rewrite fill_times in Htimes. split; intros H.
  - rewrite H in Htimes. symmetry in Htimes.
    apply fmap_nil_inv in Htimes. exact Htimes.
  - rewrite H in Htimes. apply fmap_nil_inv in Htimes. exact Htimes.
Qed.

Lemma index_in_range {A : Type} (l : list A) (i : Z) :
  0 <= i < Z.of_nat (length l) →
  ∃ a, l !! Z.to_nat i = Some a ∧ index l i = Found a.
Proof.
  intros Hi. unfold index.
  destruct (i <? 0) eqn:E; [apply Z.ltb_lt in E; lia|]. rewrite E.
  destruct (l !! Z.to_nat i) as [a|] eqn:Ha; [eauto|].
  apply lookup_ge_None in Ha. lia.
Qed.

(** The loop returns the time of a record of [filled], never an error,
    when it is entered with a count that is at most the index. *)
Lemma windows_loop_found (filled : list (string * Z))
    (minute_window variability_threshold : nat) (min_price_move : Z)
    (consecutive_windows : nat) (m : nat) :
  (1 <= consecutive_windows)%nat →
  ∀ k count r,
    (count <= k)%nat → (k + m <= length filled)%nat →
    windows_loop filled minute_window variability_threshold min_price_move
      consecutive_windows count (seq k m) = Some r →
    ∃ e, e ∈ filled ∧ r = Found e.1.
Proof.
  intros Hcw. induction m as [|m IH]; intros k count r Hcount Hlen;
    [discriminate|].
  simpl.
  destruct (variability_threshold <=? _)%nat; [|apply IH; lia].
  destruct (consecutive_windows <=? S count)%nat eqn:E; [|apply IH; lia].
  apply Nat.leb_le in E. intros [= <-].
  destruct (index_in_range filled
              (Z.of_nat k - Z.of_nat consecutive_windows + 1))
    as (e & He & ->); [lia|].
  exists e. split; [|reflexivity]. apply list_elem_of_lookup. eauto.
Qed.

(** With the parameters of the script the indexing does not fail. *)
Lemma kickoff_is_a_record_time_aux (entries : list entry) :
  kickoff_time entries MINUTE_WINDOW VARIABILITY_THRESHOLD MIN_PRICE_MOVE
    CONSECUTIVE_WINDOWS ≠ IndexError.
Proof.
  unfold kickoff_time.
  destruct (length entries <? MINUTE_WINDOW)%nat; [discriminate|].
  destruct (filled_from None entries) as [|first filled'] eqn:Hfilled;
    [discriminate|].
  destruct (windows_loop _ _ _ _ _ _ _) as [r|] eqn:Hloop; [|discriminate].
  apply windows_loop_found in Hloop as (e & He & ->);
    [discriminate | unfold CONSECUTIVE_WINDOWS; lia | lia | lia].
Qed.

(** X24.  With at least one consecutive window asked for,
    [detect_kickoff] never fails on its indexing.  It finds no kickoff
    exactly when the series is shorter than the window or has no price at
    all; otherwise the kickoff is the time of one of the records, the first
    one with a price or a later one. *)
Theorem kickoff_is_a_record_time (entries : list entry)
    (minute_window variability_threshold : nat) (min_price_move : Z)
    (consecutive_windows : nat) :
  (1 <= consecutive_windows)%nat →
  let kickoff :=
    kickoff_time entries minute_window variability_threshold min_price_move
      consecutive_windows in
  kickoff ≠ IndexError
  ∧ (kickoff = Found None
     ↔ (length entries < minute_window)%nat
       ∨ Forall (fun e => price_cents e = None) entries)
  ∧ (∀ t, kickoff = Found (Some t) → t ∈ time <$> from_first_price entries).
Proof.
  intros Hcw. cbv zeta. unfold kickoff_time.
  destruct (length entries <? minute_window)%nat eqn:Hshort.
  { apply Nat.ltb_lt in Hshort.
    split; [discriminate|]. split; [tauto | discriminate]. }
  apply Nat.ltb_ge in Hshort.
  pose proof (filled_nil entries) as Hnil.
  pose proof (filled_times entries None) as Htimes. rewrite fill_times in Htimes.
  destruct (filled_from None entries) as [|first filled'] eqn:Hfilled.
  { split; [discriminate|]. split; [|discriminate].
    split; [intros _; right; apply Hnil; reflexivity | reflexivity]. }
  assert (¬ Forall (fun e => price_cents e = None) entries) as Hpriced
    by (intros H; apply Hnil in H; discriminate).
  destruct (windows_loop _ _ _ _ _ _ _) as [r|] eqn:Hloop.
  - apply windows_loop_found in Hloop as (e & He & ->); [|exact Hcw|lia|lia].
    split; [discriminate|]. split.
    + split; [discriminate|]. intros [H|H]; [lia | contradiction].
    + intros t [= <-]. rewrite <- Htimes.
      apply list_elem_of_fmap. exists e. auto.
  - split; [discriminate|]. split.
    + split; [discriminate|]. intros [H|H]; [lia | contradiction].
    + intros t [= <-]. rewrite <- Htimes. rewrite fmap_cons. left.
Qed.

Lemma kickoff_is_a_record_time_witness :
  let kickoff :=
    kickoff_time (Scenario.gap :: Scenario.flat) 4 4 2 4 in
  kickoff ≠ IndexError
  ∧ (kickoff = Found None
     ↔ (length (Scenario.gap :: Scenario.flat) < 4)%nat
       ∨ Forall (fun e => price_cents e = None) (Scenario.gap :: Scenario.flat))
  ∧ (∀ t, kickoff = Found (Some t)
          → t ∈ time <$> from_first_price (Scenario.gap :: Scenario.flat)).
Proof.
  apply (kickoff_is_a_record_time (Scenario.gap :: Scenario.flat) 4 4 2 4).
  lia.
Defined.

(** *** A market that does not move *)

Lemma quiet_tail (move : Z) (p : Z) (prices : list Z) :
  quiet move (p :: prices) → quiet move prices.
Proof. destruct prices; [auto|]. intros [_ H]. exact H. Qed.

Lemma quiet_drop (move : Z) (prices : list Z) :
  ∀ i, quiet move prices → quiet move (drop i prices).
Proof.
  induction prices as [|p prices IH]; intros i H; [destruct i; exact I|].
  destruct i as [|i]; [exact H|].
  simpl. apply IH. eapply quiet_tail, H.
Qed.

Lemma quiet_take (move : Z) (prices : list Z) :
  ∀ n, quiet move prices → quiet move (take n prices).
Proof.
  induction prices as [|p prices IH]; intros n H; [destruct n; exact I|].
  destruct n as [|n]; [exact I|].
  destruct prices as [|p1 prices]; [destruct n; exact I|].
  destruct H as [Hp H]. destruct n as [|n]; [exact I|].
  split; [exact Hp|]. apply (IH (S n)), H.
Qed.

Lemma quiet_changes (move : Z) (prices : list Z) :
  quiet move prices → changes move prices = 0%nat.
Proof.
  induction prices as [|p prices IH]; [reflexivity|].
  destruct prices as [|p1 prices]; [reflexivity|].
  intros [Hp H]. cbn [changes].
  destruct (move <=? Z.abs (p1 - p)) eqn:E; [apply Z.leb_le in E; lia|].
  apply IH, H.
Qed.

Lemma quiet_filled (move : Z) (entries : list entry) :
  0 < move →
  ∀ v,
    quiet move (v :: omap price_cents entries) →
    quiet move (v :: (filled_from (Some v) entries).*2).
Proof.
  intros Hmove. induction entries as [|e entries IH]; intros v H; [exact I|].
  simpl in *. destruct (price_cents e) as [p|]; simpl in *.
  - destruct H as [Hp H]. split; [exact Hp | apply IH, H].
  - split; [rewrite Z.sub_diag; simpl; lia | apply IH, H].
Qed.

Lemma quiet_filled_none (move : Z) (entries : list entry) :
  0 < move →
  quiet move (omap price_cents entries) →
  quiet move (filled_from None entries).*2.
Proof.
  intros Hmove. induction entries as [|e entries IH]; intros H; [exact I|].
  simpl in *. destruct (price_cents e) as [p|]; [|apply IH, H].
  apply (quiet_filled move entries Hmove p H).
Qed.

Lemma windows_loop_quiet (filled : list (string * Z))
    (minute_window variability_threshold : nat) (min_price_move : Z)
    (consecutive_windows : nat) (indices : list nat) :
  (1 <= variability_threshold)%nat →
  quiet min_price_move filled.*2 →
  windows_loop filled minute_window variability_threshold min_price_move
    consecutive_windows 0 indices = None.
Proof.
  intros Hth Hquiet. induction indices as [|i indices IH]; [reflexivity|].
  simpl. rewrite fmap_take, fmap_drop.
  rewrite quiet_changes by (apply quiet_take, quiet_drop, Hquiet).
  destruct (variability_threshold <=? 0)%nat eqn:E;
    [apply Nat.leb_le in E; lia | exact IH].
Qed.

(** X25.  A market whose price never differs from its previous price by
    [min_price_move] or more has no window of activity: whatever the other
    parameters, its kickoff is the time of its first record with a price. *)
Theorem quiet_market_kickoff (entries : list entry)
    (minute_window variability_threshold : nat) (min_price_move : Z)
    (consecutive_windows : nat) (e : entry) (rest : list entry) :
  0 < min_price_move → (1 <= variability_threshold)%nat →
  (minute_window <= length entries)%nat →
  quiet min_price_move (omap price_cents entries) →
  from_first_price entries = e :: rest →
  kickoff_time entries minute_window variability_threshold min_price_move
    consecutive_windows = Found (Some (time e)).
Proof.
  intros Hmove Hth Hlen Hquiet Hfirst. unfold kickoff_time.
  destruct (length entries <? minute_window)%nat eqn:Hshort;
    [apply Nat.ltb_lt in Hshort; lia|].
  pose proof (filled_times entries None) as Htimes.
  rewrite fill_times, Hfirst in Htimes.
  pose proof (quiet_filled_none _ _ Hmove Hquiet) as Hq.
  destruct (filled_from None entries) as [|first filled']; [discriminate|].
  rewrite windows_loop_quiet by assumption.
  rewrite !fmap_cons in Htimes. injection Htimes as -> _. reflexivity.
Qed.

Lemma quiet_market_kickoff_witness :
  kickoff_time (Scenario.gap :: Scenario.flat) 4 4 2 4 = Found (Some "t").
Proof.
  apply (quiet_market_kickoff (Scenario.gap :: Scenario.flat) 4 4 2 4
           (Scenario.quote 20) (tail Scenario.flat)).
  - lia.
  - lia.
  - simpl. lia.
  - simpl. lia.
  - reflexivity.
Defined.

(** *** What is written to the archive *)

Lemma fill_from_sources (data : list entry) :
  ∀ last_valid e,
    e ∈ fill_from last_valid data → ∃ e0, e0 ∈ data ∧ time e = time e0.
Proof.
  induction data as [|e1 data IH]; intros last_valid e He; [inversion He|].
  simpl in He.
  assert (e ∈ fill_from last_valid data ∨ e ∈ fill_from (price_cents e1) data
          ∨ time e = time e1) as [H|[H|H]].
  { destruct (price_cents e1) as [p|].
    - apply elem_of_cons in He as [->|He]; auto.
    - destruct last_valid as [v|]; [|auto].
      apply elem_of_cons in He as [->|He]; auto. }
  - destruct (IH _ _ H) as (e0 & He0 & Ht). exists e0. split; [right|]; auto.
  - destruct (IH _ _ H) as (e0 & He0 & Ht). exists e0. split; [right|]; auto.
  - exists e1. split; [left | exact H].
Qed.

Lemma valid_prices_priced (data : list entry) :
  Forall priced data → length (valid_prices (prices_of data)) = length data.
Proof.
  unfold valid_prices, prices_of.
  induction 1 as [|e l [p Hp] _ IH]; [reflexivity|].
  simpl. rewrite Hp. simpl. f_equal. exact IH.
Qed.

Section Written.

Variable fromisoformat : string → Z.
Variable isoformat : Z → string.

(** X26.  The stage never fails on the indexing of [detect_kickoff], and
    a series it writes to the archive is not empty, has no null price, is
    filed under a week from 1 to 18 and holds only records of the file, none
    earlier than ten minutes before the kickoff.  The backtester therefore
    finds a price at every tick of an archived series and never takes its
    first [return 0.0] on one. *)
Theorem archived_series_are_priced (data : list entry) :
  process fromisoformat isoformat data ≠ IndexError
  ∧ ∀ week_num kickoff filtered,
      process fromisoformat isoformat data
        = Found (Written week_num kickoff filtered) →
      filtered ≠ []
      ∧ Forall (fun e => is_Some (price_cents e)) filtered
      ∧ (1 <= week_num <= 18)%nat
      ∧ (∃ k, kickoff = isoformat k
              ∧ get_week_number k = Some week_num
              ∧ Forall (fun e =>
                          k - PRE_GAME_BUFFER <= fromisoformat (time e)
                          ∧ ∃ e0, e0 ∈ data ∧ time e = time e0) filtered)
      ∧ length (valid_prices (prices_of filtered)) = length filtered
      ∧ ∀ P, run_position P filtered ≠ NoValidPrice.
Proof.
  unfold process, detect_kickoff.
  pose proof (kickoff_is_a_record_time_aux (Py.sorted_by time data)) as Hno.
  destruct (kickoff_time _ _ _ _ _) as [[t|]|]; [| |contradiction].
  2: { split; [discriminate|]. intros w k f H. discriminate. }
  simpl.
  set (k := fromisoformat t).
  set (kept := List.filter
                 (fun e => k - PRE_GAME_BUFFER <=? fromisoformat (time e))
                 (Py.sorted_by time data)).
  pose proof (fill_from_all_priced kept None) as Hpriced.
  fold (fill_null_prices kept) in Hpriced.
  assert (∀ e, e ∈ fill_null_prices kept →
               k - PRE_GAME_BUFFER <= fromisoformat (time e)
               ∧ ∃ e0, e0 ∈ data ∧ time e = time e0) as Hfrom.
  { intros e He. apply fill_from_sources in He as (e0 & He0 & Ht).
    apply list_elem_of_In, List.filter_In in He0 as [He0 Hq].
    apply Z.leb_le in Hq. rewrite Ht. split; [exact Hq|].
    exists e0. split; [|reflexivity].
    apply list_elem_of_In in He0. rewrite <- (sorted_by_perm time data).
    exact He0. }
  destruct (fill_null_prices kept) as [|e0 filtered0] eqn:Hfill.
  { split; [discriminate|]. intros w k0 f H. discriminate. }
  destruct (get_week_number k) as [[|n]|] eqn:Hweek;
    try (split; [discriminate|]; intros w k0 f H; discriminate).
  split; [discriminate|].
  intros week_num kickoff filtered [= <- <- <-].
  split; [discriminate|]. split; [exact Hpriced|].
  split; [apply (week_number_of_instant_aux k), Hweek|].
  split.
  { exists k. split; [reflexivity|]. split; [exact Hweek|].
    apply Forall_forall. exact Hfrom. }
  pose proof (valid_prices_priced _ Hpriced) as Hlen.
  split; [exact Hlen|].
  intros P. unfold run_position.
  destruct (valid_prices (prices_of (e0 :: filtered0))); [discriminate Hlen|].
  destruct (Py.first_defined _); [destruct (negb _)|]; discriminate.
Qed.

End Written.

End Filtering.

(** ** The sweep *)

Section Sweeping.

Import SweepRun.
Local Open Scope Q_scope.

(** *** Batches *)

Lemma concat_chunks {A : Type} (size n : nat) :
  ∀ l : list A,
    (length l <= n * size)%nat →
    concat ((fun j => take size (drop (j * size) l)) <$> seq 0 n) = l.
Proof.
  induction n as [|n IH]; intros l Hlen.
  - destruct l; [reflexivity | simpl in Hlen; lia].
  - cbn [seq fmap list_fmap concat]. rewrite <- fmap_S_seq, <- list_fmap_compose.
    rewrite drop_0.
    etransitivity; [|apply (take_drop size l)]. f_equal.
    etransitivity;
      [|apply (IH (drop size l)); rewrite length_drop; lia].
    f_equal. apply list_fmap_ext. intros _ j _. simpl.
    rewrite drop_drop. f_equal.
Qed.

Lemma ceil_div_bounds (a b : nat) :
  (0 < b)%nat →
  (a <= ceil_div a b * b)%nat ∧ (0 < a → (ceil_div a b - 1) * b < a)%nat.
Proof.
  intros Hb. unfold ceil_div.
  pose proof (Nat.div_mod_eq (a + b - 1) b) as Hdiv.
  pose proof (Nat.mod_upper_bound (a + b - 1) b) as Hmod.
  split; [|intros Ha]; nia.
Qed.

(** X27.  The batches cover the combinations: put end to end in the order
    of the list they are [param_combos], none is empty or longer than
    [chunk_size], and there are at most as many as worker processes.
    Without any combination the step of the [range] is zero and the script
    stops there. *)
Theorem batches_partition_combos {A : Type} (combos : list A)
    (cpu_count : nat) :
  let size := chunk_size (length combos) (num_cores cpu_count) in
  match chunks combos size with
  | None => combos = []
  | Some batches =>
      combos ≠ []
      ∧ concat batches = combos
      ∧ (length batches <= num_cores cpu_count)%nat
      ∧ Forall (fun batch => (0 < length batch <= size)%nat) batches
  end.
Proof.
  cbv zeta. unfold chunk_size.
  assert (0 < num_cores cpu_count)%nat as Hcores by (unfold num_cores; lia).
  set (cores := num_cores cpu_count) in *.
  set (total := length combos).
  destruct (ceil_div_bounds total cores Hcores) as [Hcover Htight].
  unfold chunks. destruct (ceil_div total cores) as [|size'] eqn:Hsize.
  { apply length_zero_iff_nil. fold total. lia. }
  set (size := S size') in *.
  assert (0 < total)%nat as Htotal.
  { destruct (Nat.eq_0_gt_0_cases total) as [H0|H0]; [|exact H0].
    unfold ceil_div in Hsize. rewrite H0 in Hsize.
    rewrite Nat.div_small in Hsize by lia. discriminate. }
  destruct (ceil_div_bounds total size) as [Hcover' Htight']; [lia|].
  specialize (Htight Htotal). specialize (Htight' Htotal).
  split.
  { intros Hnil. apply (f_equal length) in Hnil. simpl in Hnil.
    fold total in Hnil. lia. }
  split; [apply concat_chunks; fold total; exact Hcover'|].
  split.
  - rewrite length_fmap, length_seq. fold total.
    destruct (ceil_div total size) as [|n]; [lia|].
    replace (S n - 1)%nat with n in Htight' by lia.
    assert (n * size < size * cores)%nat as Hlt by lia.
    apply Nat.nle_gt in Hlt. apply Nat.nlt_ge. intros Hn. apply Hlt.
    rewrite (Nat.mul_comm size cores). apply Nat.mul_le_mono_r. lia.
  - apply Forall_forall. intros batch Hin.
    apply list_elem_of_fmap in Hin as (j & -> & Hj).
    apply elem_of_seq in Hj. fold total in Hj.
    rewrite length_take, length_drop. fold total.
    assert (j * size <= (ceil_div total size - 1) * size)%nat
      by (apply Nat.mul_le_mono_r; lia).
    lia.
Qed.

(** *** The best row *)

Lemma max_by_spec {A : Type} (key : A → Q) (rest : list A) :
  ∀ x,
    ∃ pre post,
      x :: rest
      = pre
        ++ foldl (fun best y => if Py.ltb (key best) (key y) then y else best)
             x rest :: post
      ∧ Forall (fun y =>
                  key y
                  < key (foldl (fun best y =>
                                  if Py.ltb (key best) (key y) then y else best)
                           x rest)) pre
      ∧ Forall (fun y =>
                  key y
                  <= key (foldl (fun best y =>
                                   if Py.ltb (key best) (key y) then y else best)
                            x rest)) post.
Proof.
  induction rest as [|y rest IH] using rev_ind; intros x.
  { exists [], []. repeat split; constructor. }
  rewrite foldl_app. cbn [foldl].
  destruct (IH x) as (pre & post & Heq & Hpre & Hpost).
  set (b := foldl _ x rest) in *.
  destruct (Py.ltb (key b) (key y)) eqn:E.
  - apply ltb_lt in E. exists (pre ++ b :: post), [].
    split; [rewrite app_comm_cons, Heq; reflexivity|].
    split; [|constructor].
    apply Forall_app. split.
    + eapply Forall_impl; [exact Hpre|]. intros z Hz. simpl in Hz. lra.
    + constructor; [exact E|].
      eapply Forall_impl; [exact Hpost|]. intros z Hz. simpl in Hz. lra.
  - apply ltb_ge in E. exists pre, (post ++ [y]).
    split; [rewrite app_comm_cons, Heq, <- app_assoc; reflexivity|].
    split; [exact Hpre|].
    apply Forall_app. split; [exact Hpost | constructor; [exact E | constructor]].
Qed.

(** X28.  [best] is the first row of [all_results] with the largest
    bankroll: every row before it has a strictly smaller bankroll and no
    row after it a larger one.  On an empty list [max] raises. *)
Theorem best_is_first_maximum (all_results : list row) :
  match best all_results with
  | None => all_results = []
  | Some b =>
      ∃ pre post,
        all_results = pre ++ b :: post
        ∧ Forall (fun r => row_bankroll r < row_bankroll b) pre
        ∧ Forall (fun r => row_bankroll r <= row_bankroll b) post
  end.
Proof.
  unfold best, max_by. destruct all_results as [|x rest]; [reflexivity|].
  apply max_by_spec.
Qed.

Lemma max_by_is_maximum {A : Type} (key : A → Q) (l : list A) (b : A) :
  max_by key l = Some b → b ∈ l ∧ ∀ y, y ∈ l → key y <= key b.
Proof.
  unfold max_by. destruct l as [|x rest]; [discriminate|]. intros [= <-].
  destruct (max_by_spec key rest x) as (pre & post & Heq & Hpre & Hpost).
  set (b := foldl _ x rest) in *. rewrite Heq. split; [set_solver|].
  rewrite Forall_forall in Hpre, Hpost.
  intros y Hy. apply elem_of_app in Hy as [Hy|Hy].
  - apply Qlt_le_weak, Hpre, Hy.
  - apply elem_of_cons in Hy as [->|Hy]; [lra | apply Hpost, Hy].
Qed.

(** X29.  The order in which the batches complete does not change the
    best bankroll: collected in any order, the results have a best row with
    the same bankroll (which row it is can differ between rows that tie). *)
Theorem best_bankroll_whatever_the_order
    (completed completed' : list (list row)) :
  completed ≡ₚ completed' →
  match best (collect completed), best (collect completed') with
  | Some b, Some b' => row_bankroll b == row_bankroll b'
  | None, None => True
  | _, _ => False
  end.
Proof.
  intros Hperm. unfold collect, best.
  assert (concat completed ≡ₚ concat completed') as Hall
    by (rewrite Hperm; reflexivity).
  destruct (max_by row_bankroll (concat completed)) as [b|] eqn:Hb;
    destruct (max_by row_bankroll (concat completed')) as [b'|] eqn:Hb'.
  - apply max_by_is_maximum in Hb as [Hin Hmax].
    apply max_by_is_maximum in Hb' as [Hin' Hmax'].
    rewrite Hall in Hin. rewrite <- Hall in Hin'.
    specialize (Hmax b' Hin'). specialize (Hmax' b Hin). lra.
  - unfold max_by in Hb'. destruct (concat completed'); [|discriminate].
    apply Permutation_nil_r in Hall. rewrite Hall in Hb. discriminate.
  - unfold max_by in Hb. destruct (concat completed); [|discriminate].
    apply Permutation_nil in Hall. rewrite Hall in Hb'. discriminate.
  - exact I.
Qed.

End Sweeping.

(** ** The sample file and the sample batches *)

Lemma archived_series_are_priced_witness :
  FilterPy.process Samples.in_week_four Samples.stamp Samples.quiet_file
    = FilterPy.Found
        (FilterPy.Written 4 "t" (repeat (Scenario.quote 20) 12))
  ∧ length (Batch.valid_prices
              (Batch.prices_of (repeat (Scenario.quote 20) 12)))
    = length (repeat (Scenario.quote 20) 12)
  ∧ Batch.run_position Batch.default_params (repeat (Scenario.quote 20) 12)
    ≠ Batch.NoValidPrice.
Proof.
  assert (FilterPy.process Samples.in_week_four Samples.stamp
            Samples.quiet_file
          = FilterPy.Found
              (FilterPy.Written 4 "t" (repeat (Scenario.quote 20) 12))) as H
    by (vm_compute; reflexivity).
  split; [exact H|].
  destruct (archived_series_are_priced Samples.in_week_four Samples.stamp
              Samples.quiet_file) as [_ Hwritten].
  destruct (Hwritten _ _ _ H) as (_ & _ & _ & _ & Hlen & Hrun).
  split; [exact Hlen | exact (Hrun Batch.default_params)].
Defined.

Lemma best_bankroll_whatever_the_order_witness :
  [Samples.first_batch; Samples.second_batch]
    ≡ₚ [Samples.second_batch; Samples.first_batch]
  ∧ match
      SweepRun.best
        (SweepRun.collect [Samples.first_batch; Samples.second_batch]),
      SweepRun.best
        (SweepRun.collect [Samples.second_batch; Samples.first_batch])
    with
    | Some b, Some b' => SweepRun.row_bankroll b == SweepRun.row_bankroll b'
    | None, None => True
    | _, _ => False
    end.
Proof.
  assert ([Samples.first_batch; Samples.second_batch]
            ≡ₚ [Samples.second_batch; Samples.first_batch]) as H
    by apply Permutation_swap.
  split; [exact H|].
  exact (best_bankroll_whatever_the_order _ _ H).
Defined.

Lemma fill_null_prices_forward_fills_witness :
  ∃ before after,
    FilterPy.fill_null_prices
      [Scenario.gap; Scenario.quote 20; Scenario.gap] !! 0%nat = Some before
    ∧ FilterPy.fill_null_prices
        [Scenario.gap; Scenario.quote 20; Scenario.gap] !! 1%nat = Some after
    ∧ Batch.time after = Batch.time Scenario.gap
    ∧ Batch.price_cents after = Batch.price_cents before.
Proof.
  pose proof (fill_null_prices_forward_fills
                [Scenario.gap; Scenario.quote 20; Scenario.gap]) as H.
  cbv zeta in H. destruct H as (_ & _ & _ & H).
  apply (H 0%nat Scenario.gap); reflexivity.
Defined.
